(** * AroFlo task e-mail filler: model of [main.py] and its specification

    The script drives a browser through the AroFlo task list, fills the
    "Task Email Address" field of every task that lacks one, and keeps the
    last handled job id in [job_tracker.json].

    The model is a shallow embedding.  Python [str] values are lists of
    Unicode code points; the two regular expressions of the script are run
    by a backtracking matcher with the greedy priorities of Python's [re];
    the tracker file is serialised and parsed as JSON text; every call
    that leaves the process (browser, clipboard, file system) is a node of
    a command tree whose answer, a value or an exception, is chosen by the
    environment.

    Two limits of the interpreter are part of the model, where the
    tracker file meets them: the conversions between [int] and [str]
    refuse more than 4300 digits, in [json.dump] and in [json.load], and
    [json.load] raises [RecursionError] on a document that nests deeper
    than the stack allows.

    Left out: the start-up code before the main [try] (credentials, Chrome
    options, driver creation), exceptions that are not [Exception]s
    ([KeyboardInterrupt], [SystemExit]), and the rendering of a job id in
    a log line or in the selector of its row, which is taken to succeed:
    the ids of a run lie between two integers that came out of [int()] or
    [json.load], and so are within the digit limit.

    The file has three parts: the model of the script, the vocabulary in
    which its specification is stated, and the theorems, followed by
    sample runs. *)

From Stdlib Require Import DecimalFacts DecimalPos DecimalN.
From Stdlib Require Import List Bool Arith ZArith NArith Lia String Ascii Sorted.
Import ListNotations.

Set Implicit Arguments.
Set Warnings "-register-all".

(* ================================================================== *)
(** * Python strings *)

(** A [str] is its sequence of code points. *)
Definition str := list N.

(** [u "text"] is the Python literal ["text"]. *)
Definition u (s : string) : str :=
  map N_of_ascii (list_ascii_of_string s).

Fixpoint str_eqb (a b : str) : bool :=
  match a, b with
  | [], [] => true
  | x :: a', y :: b' => N.eqb x y && str_eqb a' b'
  | _, _ => false
  end.

(** [x in [..]] on a list of strings. *)
Definition str_in (x : str) (l : list str) : bool :=
  existsb (str_eqb x) l.

Definition between (lo hi c : N) : bool := (N.leb lo c) && (N.leb c hi).

(** [str.isspace] for one code point (the white space table of CPython). *)
Definition is_space (c : N) : bool :=
  between 9 13 c || between 28 32 c || N.eqb c 133 || N.eqb c 160
  || N.eqb c 5760 || between 8192 8202 c || N.eqb c 8232 || N.eqb c 8233
  || N.eqb c 8239 || N.eqb c 8287 || N.eqb c 12288.

Fixpoint lstrip (s : str) : str :=
  match s with
  | c :: s' => if is_space c then lstrip s' else s
  | [] => []
  end.

Definition rstrip (s : str) : str := rev (lstrip (rev s)).

(** [s.strip()] *)
Definition strip (s : str) : str := rstrip (lstrip s).

(** Truth value of a string: [bool(s)]. *)
Definition truthy (s : str) : bool :=
  match s with [] => false | _ => true end.

(** [a or b] on strings. *)
Definition str_or (a b : str) : str := if truthy a then a else b.

(* ================================================================== *)
(** * Character classes of the two patterns *)

Definition is_lower (c : N) : bool := between 97 122 c.
Definition is_upper (c : N) : bool := between 65 90 c.
Definition is_digit (c : N) : bool := between 48 57 c.
Definition is_alpha (c : N) : bool := is_lower c || is_upper c.
Definition is_alnum (c : N) : bool := is_alpha c || is_digit c.

(** [[a-zA-Z0-9._%+-]] *)
Definition cls_local (c : N) : bool :=
  is_alnum c || N.eqb c 46 || N.eqb c 95 || N.eqb c 37 || N.eqb c 43
  || N.eqb c 45.

(** [[a-zA-Z0-9.-]] *)
Definition cls_domain (c : N) : bool :=
  is_alnum c || N.eqb c 46 || N.eqb c 45.

(** [[a-zA-Z]] *)
Definition cls_letter (c : N) : bool := is_alpha c.

(* ================================================================== *)
(** * The regular expressions, as [re] runs them *)

Definition word_opt (word : N -> bool) (c : option N) : bool :=
  match c with Some x => word x | None => false end.

(** [\b] between the character before the position and the one after,
    for a given notion of word character. *)
Definition boundary (word : N -> bool) (prev : option N) (s : str) : bool :=
  xorb (word_opt word prev) (word_opt word (hd_error s)).

(** The pieces both patterns are built from. *)
Inductive atom : Type :=
| Rep (cls : N -> bool) (lo : nat)   (* [cls]{lo,}  greedy: + is 1, * is 0 *)
| Chr (c : N)                        (* one literal character *)
| WordB (word : N -> bool)           (* \b *)
| Bos                                (* ^  *)
| Eos.                               (* $  *)

(** A greedy repetition: take characters of the class while there are
    any, then try the rest of the pattern, giving characters back one
    at a time as long as [lo] remain.  [n] counts the characters taken so
    far, [k] runs the rest of the pattern. *)
Fixpoint greedy (cls : N -> bool) (lo : nat)
    (k : option N -> str -> option nat)
    (n : nat) (prev : option N) (s : str) {struct s} : option nat :=
  let stop := if lo <=? n then k prev s else None in
  match s with
  | c :: s' =>
      if cls c then
        match greedy cls lo k (S n) (Some c) s' with
        | Some m => Some (S m)
        | None => stop
        end
      else stop
  | [] => stop
  end.

(** [run p prev s]: match [p] at a position whose preceding character is
    [prev] and whose remaining input is [s]; the answer is the length of
    the match the backtracking search finds first. *)
Fixpoint run (p : list atom) (prev : option N) (s : str) {struct p}
  : option nat :=
  match p with
  | [] => Some 0
  | Rep cls lo :: p' => greedy cls lo (run p') 0 prev s
  | Chr c :: p' =>
      match s with
      | x :: s' =>
          if N.eqb x c then option_map S (run p' (Some x) s') else None
      | [] => None
      end
  | WordB w :: p' => if boundary w prev s then run p' prev s else None
  | Bos :: p' =>
      match prev with None => run p' prev s | Some _ => None end
  | Eos :: p' =>
      match s with
      | [] => run p' prev s
      | [10%N] => run p' prev s
      | _ => None
      end
  end.

(** [re.match(p, s)] as a truth value. *)
Definition re_match (p : list atom) (s : str) : bool :=
  match run p None s with Some _ => true | None => false end.

(** [re.findall(p, s)] for a pattern without groups: scan left to right,
    at each position keep the match found there and go on after it.
    [skip] is the number of characters still covered by the last match. *)
Fixpoint findall_aux (p : list atom) (prev : option N) (s : str)
    (skip : nat) {struct s} : list str :=
  match skip, s with
  | S k, c :: s' => findall_aux p (Some c) s' k
  | S _, [] => []
  | O, _ =>
      match run p prev s with
      | Some n =>
          firstn n s ::
          match s with
          | c :: s' => findall_aux p (Some c) s' (Nat.pred n)
          | [] => []
          end
      | None =>
          match s with
          | c :: s' => findall_aux p (Some c) s' 0
          | [] => []
          end
      end
  end.

Definition findall (p : list atom) (s : str) : list str :=
  findall_aux p None s 0.

(** [r'^[a-zA-Z0-9._%+-]+@[a-zA-Z0-9.-]+\.[a-zA-Z]{2,}$'] *)
Definition email_pattern : list atom :=
  [Bos; Rep cls_local 1; Chr 64; Rep cls_domain 1; Chr 46;
   Rep cls_letter 2; Eos].

(** [is_valid_email(text)] *)
Definition is_valid_email (text : str) : bool :=
  if negb (truthy text) then false
  else re_match email_pattern (strip text).

(** The placeholder values of line 120. *)
Definition placeholders : list str :=
  [u "on"; u "off"; u "true"; u "false"].

(* ================================================================== *)
(** * Exceptions *)

(** An exception is known by its class name; the script never looks at
    more ([except Exception], and one bare [except]). *)
Definition exn := string.

(** What a call or a conversion gives: a value, or the exception it
    raises. *)
Inductive answer (R : Type) : Type :=
| Ok (r : R)
| Err (e : exn).
Arguments Err {R} e.

(* ================================================================== *)
(** * Integers as decimal text *)

Fixpoint uint_chars (d : Decimal.uint) : str :=
  match d with
  | Decimal.Nil => []
  | Decimal.D0 d' => 48%N :: uint_chars d'
  | Decimal.D1 d' => 49%N :: uint_chars d'
  | Decimal.D2 d' => 50%N :: uint_chars d'
  | Decimal.D3 d' => 51%N :: uint_chars d'
  | Decimal.D4 d' => 52%N :: uint_chars d'
  | Decimal.D5 d' => 53%N :: uint_chars d'
  | Decimal.D6 d' => 54%N :: uint_chars d'
  | Decimal.D7 d' => 55%N :: uint_chars d'
  | Decimal.D8 d' => 56%N :: uint_chars d'
  | Decimal.D9 d' => 57%N :: uint_chars d'
  end.

(** The decimal text of [z]. *)
Definition repr_int (z : Z) : str :=
  match z with
  | Z0 => [48%N]
  | Zpos p => uint_chars (Pos.to_uint p)
  | Zneg p => 45%N :: uint_chars (Pos.to_uint p)
  end.

(** The conversions between [int] and [str] refuse more digits than
    [sys.get_int_max_str_digits()], here at its default, and raise
    [ValueError]. *)
Definition int_max_str_digits : nat := 4300.

(** Whether [z] has no more decimal digits than the limit. *)
Definition within_digit_limit (z : Z) : bool :=
  Nat.leb (List.length (repr_int (Z.abs z))) int_max_str_digits.

(** [str(z)] / [repr(z)] of a Python [int]. *)
Definition int_str (z : Z) : answer str :=
  if within_digit_limit z then Ok (repr_int z)
  else Err "ValueError"%string.

(** Value of a run of decimal digits, most significant first. *)
Definition digits_value (ds : str) : N :=
  fold_left (fun acc c => (acc * 10 + (c - 48))%N) ds 0%N.

(** [span p s]: the longest prefix of [s] inside [p], and what follows. *)
Fixpoint span (p : N -> bool) (s : str) : str * str :=
  match s with
  | c :: s' =>
      if p c then let (a, b) := span p s' in (c :: a, b) else ([], s)
  | [] => ([], [])
  end.

(* ================================================================== *)
(** * JSON text, as [json.load] reads it and [json.dump] writes it *)

(** The Python values a JSON document decodes to.  A float keeps the
    text of its literal; a dict keeps its items in insertion order. *)
Inductive pyobj : Type :=
| PNone
| PBool (b : bool)
| PInt (z : Z)
| PFloat (literal : str)
| PStr (s : str)
| PList (items : list pyobj)
| PDict (items : list (str * pyobj)).

(** [d[key] = v] on the items of a dict. *)
Fixpoint dict_set (d : list (str * pyobj)) (key : str) (v : pyobj)
  : list (str * pyobj) :=
  match d with
  | [] => [(key, v)]
  | (k, x) :: d' =>
      if str_eqb k key then (k, v) :: d' else (k, x) :: dict_set d' key v
  end.

(** [d.get(key)]; a missing key gives [None]. *)
Fixpoint dict_get (d : list (str * pyobj)) (key : str) : pyobj :=
  match d with
  | [] => PNone
  | (k, x) :: d' => if str_eqb k key then x else dict_get d' key
  end.

Definition is_json_ws (c : N) : bool :=
  N.eqb c 32 || N.eqb c 9 || N.eqb c 10 || N.eqb c 13.

Fixpoint skip_ws (s : str) : str :=
  match s with
  | c :: s' => if is_json_ws c then skip_ws s' else s
  | [] => []
  end.

Definition hex_value (c : N) : option N :=
  if is_digit c then Some (c - 48)%N
  else if between 97 102 c then Some (c - 87)%N
  else if between 65 70 c then Some (c - 55)%N
  else None.

(** The four hexadecimal digits of a [\uXXXX] escape. *)
Definition hex4 (a b c d : N) : option N :=
  match hex_value a, hex_value b, hex_value c, hex_value d with
  | Some x, Some y, Some z, Some w =>
      Some (((x * 16 + y) * 16 + z) * 16 + w)%N
  | _, _, _, _ => None
  end.

Definition simple_escape (c : N) : option N :=
  if N.eqb c 34 then Some 34%N            (* quote *)
  else if N.eqb c 92 then Some 92%N       (* backslash *)
  else if N.eqb c 47 then Some 47%N       (* slash *)
  else if N.eqb c 98 then Some 8%N        (* b *)
  else if N.eqb c 102 then Some 12%N      (* f *)
  else if N.eqb c 110 then Some 10%N      (* n *)
  else if N.eqb c 114 then Some 13%N      (* r *)
  else if N.eqb c 116 then Some 9%N       (* t *)
  else None.

Definition is_high_surrogate (c : N) : bool := between 55296 56319 c.
Definition is_low_surrogate (c : N) : bool := between 56320 57343 c.

(** The body of a string literal, after its opening quote (strict mode):
    the decoded text and the input after the closing quote. *)
Fixpoint scanstring (s : str) : option (str * str) :=
  let more c r :=
    match scanstring r with
    | Some (t, rest) => Some (c :: t, rest)
    | None => None
    end in
  match s with
  | [] => None                                   (* unterminated *)
  | 34%N :: r => Some ([], r)
  | 92%N :: 117%N :: a :: b :: c :: d :: r =>
      match hex4 a b c d with
      | None => None
      | Some hi =>
          match r with
          | 92%N :: 117%N :: a' :: b' :: c' :: d' :: r' =>
              if is_high_surrogate hi then
                match hex4 a' b' c' d' with
                | None => None
                | Some lo =>
                    if is_low_surrogate lo then
                      more (65536 + ((hi - 55296) * 1024 + (lo - 56320)))%N
                           r'
                    else more hi r
                end
              else more hi r
          | _ => more hi r
          end
      end
  | 92%N :: e :: r =>
      match simple_escape e with
      | Some c => more c r
      | None => None                             (* invalid escape *)
      end
  | 92%N :: [] => None
  | c :: r => if N.ltb c 32 then None else more c r
  end.

(** The integer part of a number literal: [0], or a non-zero digit and
    the digits after it. *)
Definition scan_int_part (s : str) : option (str * str) :=
  match s with
  | c :: r =>
      if N.eqb c 48 then Some ([48%N], r)
      else if between 49 57 c then Some (span is_digit s)
      else None
  | [] => None
  end.

(** The fraction, when a dot is followed by a digit. *)
Definition scan_frac (s : str) : str * str :=
  match s with
  | c :: d :: _ =>
      if N.eqb c 46 && is_digit d
      then let (fs, r) := span is_digit (tl s) in (c :: fs, r)
      else ([], s)
  | _ => ([], s)
  end.

(** The exponent, when [e] or [E] and an optional sign are followed by a
    digit; otherwise nothing is taken. *)
Definition scan_exp (s : str) : str * str :=
  match s with
  | e :: r =>
      if N.eqb e 101 || N.eqb e 69 then
        let (sign, r1) :=
          match r with
          | x :: r' =>
              if N.eqb x 45 || N.eqb x 43 then ([x], r') else ([], r)
          | [] => ([], r)
          end in
        match span is_digit r1 with
        | ([], _) => ([], s)
        | (es, r2) => (e :: sign ++ es, r2)
        end
      else ([], s)
  | [] => ([], s)
  end.

(** An optional minus sign. *)
Definition scan_sign (s : str) : bool * str :=
  match s with
  | c :: r => if N.eqb c 45 then (true, r) else (false, s)
  | [] => (false, s)
  end.

(** A number literal: an [int] when it has neither fraction nor
    exponent, a [float] otherwise.  The [int] is made by [int(literal)],
    which raises [ValueError] past the digit limit. *)
Definition scan_number (s : str) : answer (pyobj * str) :=
  let (neg, s1) := scan_sign s in
  match scan_int_part s1 with
  | None => Err "JSONDecodeError"%string
  | Some (ds, s2) =>
      let (frac, s3) := scan_frac s2 in
      let (expo, s4) := scan_exp s3 in
      match frac, expo with
      | [], [] =>
          if Nat.leb (List.length ds) int_max_str_digits then
            let v := Z.of_N (digits_value ds) in
            Ok (PInt (if neg then (- v)%Z else v), s4)
          else Err "ValueError"%string
      | _, _ =>
          Ok (PFloat ((if neg then [45%N] else []) ++ ds ++ frac ++ expo),
              s4)
      end
  end.

(** If [s] starts with the keyword [w], what follows it. *)
Fixpoint after_prefix (w s : str) : option str :=
  match w, s with
  | [], _ => Some s
  | x :: w', y :: s' => if N.eqb x y then after_prefix w' s' else None
  | _ :: _, [] => None
  end.

Definition syntax_error (A : Type) : answer A :=
  Err "JSONDecodeError"%string.
Arguments syntax_error {A}.

(** One JSON value at the head of [s] ([scan_once]); the three functions
    follow the scanner of the [json] module.  The counter [n] bounds the
    number of calls and is set from the length of the text.  [depth] is
    how many containers may still be entered: the scanner recurses at
    every [{] and every [[], and the interpreter raises [RecursionError]
    when its stack is used up. *)
Fixpoint parse_value (n depth : nat) (s : str) {struct n}
  : answer (pyobj * str) :=
  match n with
  | O => syntax_error
  | S n' =>
      match s with
      | [] => syntax_error
      | c :: r =>
          if N.eqb c 34 then
            match scanstring r with
            | Some (t, rest) => Ok (PStr t, rest)
            | None => syntax_error
            end
          else if N.eqb c 123 then
            match depth with
            | O => Err "RecursionError"%string
            | S depth' =>
                match skip_ws r with
                | 125%N :: rest => Ok (PDict [], rest)
                | r1 => parse_members n' depth' r1 []
                end
            end
          else if N.eqb c 91 then
            match depth with
            | O => Err "RecursionError"%string
            | S depth' =>
                match skip_ws r with
                | 93%N :: rest => Ok (PList [], rest)
                | r1 => parse_elements n' depth' r1 []
                end
            end
          else
          match after_prefix (u "null") s with
          | Some rest => Ok (PNone, rest)
          | None =>
          match after_prefix (u "true") s with
          | Some rest => Ok (PBool true, rest)
          | None =>
          match after_prefix (u "false") s with
          | Some rest => Ok (PBool false, rest)
          | None =>
          match after_prefix (u "NaN") s with
          | Some rest => Ok (PFloat (u "NaN"), rest)
          | None =>
          match after_prefix (u "Infinity") s with
          | Some rest => Ok (PFloat (u "Infinity"), rest)
          | None =>
          match after_prefix (u "-Infinity") s with
          | Some rest => Ok (PFloat (u "-Infinity"), rest)
          | None => scan_number s
          end end end end end end
      end
  end

with parse_members (n depth : nat) (s : str) (acc : list (str * pyobj))
    {struct n} : answer (pyobj * str) :=
  match n with
  | O => syntax_error
  | S n' =>
      match s with
      | 34%N :: r =>
          match scanstring r with
          | None => syntax_error
          | Some (key, r1) =>
              match skip_ws r1 with
              | 58%N :: r2 =>
                  match parse_value n' depth (skip_ws r2) with
                  | Err e => Err e
                  | Ok (v, r3) =>
                      match skip_ws r3 with
                      | 125%N :: rest =>
                          Ok (PDict (dict_set acc key v), rest)
                      | 44%N :: r4 =>
                          parse_members n' depth (skip_ws r4)
                            (dict_set acc key v)
                      | _ => syntax_error
                      end
                  end
              | _ => syntax_error
              end
          end
      | _ => syntax_error
      end
  end

with parse_elements (n depth : nat) (s : str) (acc : list pyobj)
    {struct n} : answer (pyobj * str) :=
  match n with
  | O => syntax_error
  | S n' =>
      match parse_value n' depth s with
      | Err e => Err e
      | Ok (v, r1) =>
          match skip_ws r1 with
          | 93%N :: rest => Ok (PList (acc ++ [v]), rest)
          | 44%N :: r2 => parse_elements n' depth (skip_ws r2) (acc ++ [v])
          | _ => syntax_error
          end
      end
  end.

(** [json.loads(text)] on an interpreter that lets containers nest
    [depth] deep: one value, white space around it, nothing else. *)
Definition json_decode (depth : nat) (text : str) : answer pyobj :=
  match text with
  | 65279%N :: _ => syntax_error               (* byte order mark *)
  | _ =>
      match parse_value (2 * List.length text + 2) depth (skip_ws text) with
      | Ok (v, rest) =>
          match skip_ws rest with [] => Ok v | _ => syntax_error end
      | Err e => Err e
      end
  end.

Definition dq : str := [34%N].

(** What [json.dump({"last_index": index}, f, indent=2)] writes to [f].
    The encoder hands over the document piece by piece, and the pieces
    before the number are written when [int.__repr__(index)] is called:
    past the digit limit that call raises [ValueError] and nothing more
    is written. *)
Definition json_dump_tracker (index : Z) : str :=
  u "{" ++ [10%N] ++ u "  " ++ dq ++ u "last_index" ++ dq ++ u ": "
  ++ match int_str index with
     | Ok digits => digits ++ [10%N] ++ u "}"
     | Err _ => []
     end.

(** [json.dump({"last_index": index}, f, indent=2)] after its writes: it
    returns, or raises what the conversion of [index] raised. *)
Definition json_dump_result (index : Z) : answer unit :=
  match int_str index with
  | Ok _ => Ok tt
  | Err e => Err e
  end.

(* ================================================================== *)
(** * Commands: what the script asks of the outside world *)

(** A [WebElement] handle. *)
Definition elem := nat.

Inductive By : Type := CSS_SELECTOR | XPATH | ID | TAG_NAME.

(** Accesses to [job_tracker.json]. *)
Inductive fop : Type -> Type :=
| path_exists : fop bool                 (* os.path.exists(CONFIG_FILE) *)
| read_text : fop str                    (* open(CONFIG_FILE, 'r'), read *)
| write_text (text : str) : fop unit.    (* open(CONFIG_FILE, 'w'), write *)

(** Calls on the driver, on an element, and on the clipboard. *)
Inductive bop : Type -> Type :=
| driver_get (url : str) : bop unit
| wait_presence (b : By) (value : str) (timeout : nat) : bop elem
| wait_clickable (b : By) (value : str) (timeout : nat) : bop elem
| scroll_into_view (e : elem) : bop unit
| click (e : elem) : bop unit
| clear (e : elem) : bop unit
| send_keys (e : elem) (keys : list str) : bop unit
| get_attribute (e : elem) (name : str) : bop (option str)
| get_text (e : elem) : bop str
| find_elements (b : By) (value : str) : bop (list elem)
| find_element_in (e : elem) (b : By) (value : str) : bop elem
| page_source : bop str
| clipboard_copy (text : str) : bop unit      (* pyperclip.copy *)
| driver_quit : bop unit.

Inductive level : Type := INFO | WARNING | ERROR.

Inductive arg : Type :=
| AInt (z : Z) | AStr (s : str) | AObj (v : pyobj) | AExn (e : exn).

(** What the script does that cannot fail: a log record (the format
    string with its values), or a pause in tenths of a second. *)
Inductive out : Type :=
| Log (l : level) (template : string) (args : list arg)
| Sleep (tenths : nat).

(** A run of the script as a tree: at each call the environment answers
    with a value or an exception and the script goes on from there. *)
Inductive prog (A : Type) : Type :=
| Ret (a : A)
| Raise (e : exn)
| Emit (o : out) (k : prog A)
| File (R : Type) (o : fop R) (k : answer R -> prog A)
| Call (R : Type) (o : bop R) (k : answer R -> prog A).
Arguments Raise {A} e.
Arguments File {A R} o k.
Arguments Call {A R} o k.

Fixpoint bind (A B : Type) (p : prog A) (f : A -> prog B) : prog B :=
  match p with
  | Ret a => f a
  | Raise e => Raise e
  | Emit o k => Emit o (bind k f)
  | File o k => File o (fun a => bind (k a) f)
  | Call o k => Call o (fun a => bind (k a) f)
  end.

(** [try: p  except Exception as e: h e] *)
Fixpoint try_except (A : Type) (p : prog A) (h : exn -> prog A) : prog A :=
  match p with
  | Ret a => Ret a
  | Raise e => h e
  | Emit o k => Emit o (try_except k h)
  | File o k => File o (fun a => try_except (k a) h)
  | Call o k => Call o (fun a => try_except (k a) h)
  end.

(** [try: p  finally: q] *)
Fixpoint try_finally (A : Type) (p : prog A) (q : prog unit) : prog A :=
  match p with
  | Ret a => bind q (fun _ => Ret a)
  | Raise e => bind q (fun _ => Raise e)
  | Emit o k => Emit o (try_finally k q)
  | File o k => File o (fun a => try_finally (k a) q)
  | Call o k => Call o (fun a => try_finally (k a) q)
  end.

Declare Scope prog_scope.
Delimit Scope prog_scope with prog.
Notation "x <- p ;; k" := (bind p (fun x => k))
  (at level 61, p at next level, right associativity) : prog_scope.
Notation "p ;; k" := (bind p (fun _ => k))
  (at level 61, right associativity) : prog_scope.
Open Scope prog_scope.

Definition of_answer (R : Type) (a : answer R) : prog R :=
  match a with Ok r => Ret r | Err e => Raise e end.

Definition call (R : Type) (o : bop R) : prog R := Call o (@of_answer R).
Definition file (R : Type) (o : fop R) : prog R := File o (@of_answer R).
Definition log (l : level) (template : string) (args : list arg)
  : prog unit := Emit (Log l template args) (Ret tt).
Definition sleep (tenths : nat) : prog unit := Emit (Sleep tenths) (Ret tt).

(** [for x in xs: body x] *)
Fixpoint for_each (X : Type) (xs : list X) (body : X -> prog unit)
  : prog unit :=
  match xs with
  | [] => Ret tt
  | x :: xs' => body x ;; for_each xs' body
  end.

(** [range(a, b)] *)
Definition py_range (a b : Z) : list Z :=
  map (fun i => (a + Z.of_nat i)%Z) (seq 0 (Z.to_nat (b - a))).

(* ================================================================== *)
(** * The environment *)

(** What can go wrong with an access to the tracker file: it cannot be
    opened, or the write stops after [written] characters. *)
Inductive fault : Type :=
| open_fails (e : exn)
| write_fails (e : exn) (written : nat).

(** The outside world as the script meets it: a state [W], the answer it
    gives to each browser or clipboard call, and whether the next access
    to the tracker file fails.  Nothing is assumed of either. *)
Record machine (W : Type) : Type := {
  browser : forall R : Type, bop R -> W -> answer R * W;
  io_fault : W -> option fault * W
}.

(** The tracker file itself is kept by the model: [None] when it does not
    exist, its text otherwise. *)
Definition file_step (R : Type) (o : fop R) (f : option fault)
    (disk : option str) : answer R * option str :=
  match o in fop T return answer T * option str with
  | path_exists =>
      (Ok (match disk with Some _ => true | None => false end), disk)
  | read_text =>
      match f, disk with
      | None, Some t => (Ok t, disk)
      | None, None => (Err "FileNotFoundError"%string, disk)
      | Some (open_fails e), _ => (Err e, disk)
      | Some (write_fails e _), _ => (Err e, disk)
      end
  | write_text t =>
      match f with
      | None => (Ok tt, Some t)
      | Some (open_fails e) => (Err e, disk)
      | Some (write_fails e n) => (Err e, Some (firstn n t))
      end
  end.

Inductive event : Type :=
| EvOut (o : out)
| EvFile (R : Type) (o : fop R) (a : answer R)
| EvCall (R : Type) (o : bop R) (a : answer R).
Arguments EvFile {R} o a.
Arguments EvCall {R} o a.

Record result (W A : Type) : Type := {
  outcome : answer A;        (* returned value, or the exception raised *)
  world : W;
  disk : option str;
  trace : list event
}.

Definition after (W A : Type) (ev : event) (r : result W A) : result W A :=
  {| outcome := outcome r; world := world r; disk := disk r;
     trace := ev :: trace r |}.

(** Run a command tree against a machine, from a world and a disk. *)
Fixpoint exec (W A : Type) (m : machine W) (p : prog A) (w : W)
    (d : option str) {struct p} : result W A :=
  match p with
  | Ret a => {| outcome := Ok a; world := w; disk := d; trace := [] |}
  | Raise e => {| outcome := Err e; world := w; disk := d; trace := [] |}
  | Emit o k => after (EvOut o) (exec m k w d)
  | File o k =>
      let (f, w1) := io_fault m w in
      let (a, d1) := file_step o f d in
      after (EvFile o a) (exec m (k a) w1 d1)
  | Call o k =>
      let (a, w1) := browser m o w in
      after (EvCall o a) (exec m (k a) w1 d)
  end.

(** Three things are taken as given of the interpreter.  [\b] of a [str]
    pattern uses the Unicode notion of a word character: below 128 it is
    [[A-Za-z0-9_]], above it is the alphanumeric table of the Unicode
    database.  [int(x)] for a float or a string is the interpreter's
    conversion, with the exception it raises ([ValueError] for text that
    is no integer, for one past the digit limit and for a NaN,
    [OverflowError] for an infinity).  [json_depth] is how deep the
    containers of a JSON document may nest where [load_job_tracker] calls
    [json.load], before the decoder raises [RecursionError]: what is left
    of the interpreter's stack, at least one level. *)
Class Runtime : Type := {
  unicode_alnum : N -> bool;
  int_conv : pyobj -> answer Z;
  json_depth : positive
}.

Section Program.

Context {rt : Runtime}.

Definition is_word (c : N) : bool :=
  if N.ltb c 128 then is_alnum c || N.eqb c 95 else unicode_alnum c.

(** [r'\b[A-Za-z0-9._%+-]+@[A-Za-z0-9.-]*\.aroflo\.com\b'] *)
Definition aroflo_pattern : list atom :=
  [WordB is_word; Rep cls_local 1; Chr 64; Rep cls_domain 0]
  ++ map Chr (u ".aroflo.com") ++ [WordB is_word].

(** [int(x)] *)
Definition py_int (x : pyobj) : answer Z :=
  match x with
  | PInt z => Ok z
  | PBool b => Ok (if b then 1 else 0)%Z
  | PFloat _ => int_conv x
  | PStr _ => int_conv x
  | PNone => Err "TypeError"%string
  | PList _ => Err "TypeError"%string
  | PDict _ => Err "TypeError"%string
  end.

(** [json.loads(text)], as [json.load(f)] calls it on the text of [f]. *)
Definition json_loads (text : str) : answer pyobj :=
  json_decode (Pos.to_nat json_depth) text.

(* ------------------------------------------------------------------ *)
(** ** Job tracker *)

Definition DEFAULT_START_JOB_ID : Z := 3411.

(** [os.path.exists] answers [False] when the path cannot be examined;
    it does not raise. *)
Definition os_path_exists : prog bool :=
  File path_exists
    (fun a => match a with Ok b => Ret b | Err _ => Ret false end).

Definition load_job_tracker : prog Z :=
  present <- os_path_exists ;;
  if present then
    try_except
      (text <- file read_text ;;
       data <- of_answer (json_loads text) ;;
       last_index <- match data with
                     | PDict items => Ret (dict_get items (u "last_index"))
                     | _ => Raise "AttributeError"%string
                     end ;;
       let last_index :=
         match last_index with
         | PNone => PInt DEFAULT_START_JOB_ID
         | _ => last_index
         end in
       log INFO "Loaded last processed job index: {last_index}"
           [AObj last_index] ;;
       of_answer (py_int last_index))
      (fun e =>
         log ERROR "Error loading job tracker: {e}" [AExn e] ;;
         Ret DEFAULT_START_JOB_ID)
  else
    log INFO
      "No existing job tracker found, starting from default job ID: {DEFAULT_START_JOB_ID}"
      [AInt DEFAULT_START_JOB_ID] ;;
    Ret DEFAULT_START_JOB_ID.

Definition save_job_tracker (index : Z) : prog unit :=
  try_except
    (file (write_text (json_dump_tracker index)) ;;
     of_answer (json_dump_result index) ;;
     log INFO "Saved last processed job index: {index}" [AInt index])
    (fun e => log ERROR "Error saving job tracker: {e}" [AExn e]).

(* ------------------------------------------------------------------ *)
(** ** Helper functions *)

Definition safe_find (b : By) (value : str) (timeout : nat) : prog elem :=
  call (wait_presence b value timeout).

Definition safe_div_click (selector : str) (timeout : nat) : prog unit :=
  elem <- call (wait_clickable CSS_SELECTOR selector timeout) ;;
  call (scroll_into_view elem) ;;
  call (click elem) ;;
  sleep 10.

(** The test of line 120 on the value read from a field. *)
Definition accepts_candidate (email_value : str) : bool :=
  is_valid_email email_value && negb (str_in email_value placeholders).

Definition opt_truthy (o : option str) : bool :=
  match o with Some s => truthy s | None => false end.

(** [get_attribute('value') or text or get_attribute('innerText')],
    then [strip] when the value is truthy. *)
Definition read_field_value (email_field : elem) : prog str :=
  v <- call (get_attribute email_field (u "value")) ;;
  email_value <-
    (if opt_truthy v then Ret v
     else
       t <- call (get_text email_field) ;;
       if truthy t then Ret (Some t)
       else call (get_attribute email_field (u "innerText"))) ;;
  Ret (match email_value with
       | Some s => if truthy s then strip s else []
       | None => []
       end).

Definition email_selectors : list str :=
  [u "textarea[id$='-15']"; u "input[id$='-15']";
   u "textarea[id$='-16']"; u "input[id$='-16']"].

(** The loop of [check_email_field_content]: [Some v] is [return v]. *)
Fixpoint check_fields (selectors : list str) : prog (option str) :=
  match selectors with
  | [] =>
      log INFO "No valid email found in any field" [] ;;
      Ret None
  | selector :: more =>
      found <-
        try_except
          (email_field <- call (wait_presence CSS_SELECTOR selector 3) ;;
           email_value <- read_field_value email_field ;;
           log INFO "Email field {selector} content: '{email_value}'"
               [AStr selector; AStr email_value] ;;
           if accepts_candidate email_value then
             log INFO "Valid email found in field: {email_value}"
                 [AStr email_value] ;;
             Ret (Some email_value)
           else Ret None)
          (fun _ => Ret None) ;;
      match found with
      | Some v => Ret (Some v)
      | None => check_fields more
      end
  end.

Definition check_email_field_content : prog (option str) :=
  try_except
    (check_fields email_selectors)
    (fun e =>
       log ERROR "Error checking email field content: {e}" [AExn e] ;;
       Ret None).

Definition label_xpath : str :=
  u "//td[contains(text(),'Task Email Address')]/following-sibling::td//textarea | "
  ++ u "//td[contains(text(),'Task Email Address')]/following-sibling::td//input".

Definition get_email_field : prog (option elem) :=
  try_except
    (delivery <-
       call (find_elements XPATH (u "//th[contains(., 'Delivery Only')]")) ;;
     let selector :=
       match delivery with
       | _ :: _ => u "textarea[id$='-15'], input[id$='-15']"
       | [] => u "textarea[id$='-16'], input[id$='-16']"
       end in
     try_except
       (email_field <- call (wait_clickable CSS_SELECTOR selector 5) ;;
        log INFO "Found email field using selector: {selector}"
            [AStr selector] ;;
        Ret (Some email_field))
       (fun _ =>
          log WARNING
              "Fallback: trying label-based XPath for Task Email Address"
              [] ;;
          email_field <- call (wait_clickable XPATH label_xpath 10) ;;
          Ret (Some email_field)))
    (fun e =>
       log ERROR "Error finding email field: {e}" [AExn e] ;;
       Ret None).

(** [Keys.CONTROL] *)
Definition Keys_CONTROL : str := [57353%N].

(** [email_field.get_attribute("value") or email_field.text] *)
Definition read_back (email_field : elem) : prog str :=
  v <- call (get_attribute email_field (u "value")) ;;
  match v with
  | Some s => if truthy s then Ret s else call (get_text email_field)
  | None => call (get_text email_field)
  end.

(** Lines 171-181: clear the field, type the value, read it back. *)
Definition direct_input (email_field : elem) (email : str) : prog str :=
  call (scroll_into_view email_field) ;;
  call (clear email_field) ;;
  sleep 5 ;;
  call (send_keys email_field [email]) ;;
  sleep 5 ;;
  read_back email_field.

(** Lines 186-201: the same through the clipboard. *)
Definition clipboard_paste (email_field : elem) (email : str) : prog bool :=
  log WARNING "Direct input failed, trying clipboard paste" [] ;;
  call (clipboard_copy email) ;;
  call (clear email_field) ;;
  sleep 5 ;;
  call (send_keys email_field [Keys_CONTROL; u "v"]) ;;
  sleep 5 ;;
  current_value <- read_back email_field ;;
  if str_eqb (strip current_value) email then
    log INFO "Email pasted successfully via clipboard: {email}"
        [AStr email] ;;
    Ret true
  else
    log WARNING "Failed to paste email value after all attempts" [] ;;
    Ret false.

Definition paste_email (email : str) : prog bool :=
  try_except
    (field <- get_email_field ;;
     match field with
     | None =>
         log ERROR "Could not find email field to paste into" [] ;;
         Ret false
     | Some email_field =>
         current_value <- direct_input email_field email ;;
         if str_eqb (strip current_value) email then
           log INFO "Email pasted successfully: {email}" [AStr email] ;;
           Ret true
         else clipboard_paste email_field email
     end)
    (fun e =>
       log ERROR "Paste error: {e}" [AExn e] ;;
       Ret false).

(** The first element of [re.findall(aroflo_pattern, page_source)]. *)
Definition first_aroflo_email (page : str) : option str :=
  match findall aroflo_pattern page with
  | m :: _ => Some m
  | [] => None
  end.

Definition search_aroflo_email_in_page : prog (option str) :=
  try_except
    (page <- call page_source ;;
     match findall aroflo_pattern page with
     | m :: _ =>
         log INFO "Found .aroflo.com email via regex: {matches[0]}"
             [AStr m] ;;
         Ret (Some m)
     | [] => Ret None
     end)
    (fun e =>
       log ERROR "Error searching email in page: {e}" [AExn e] ;;
       Ret None).

Definition is_installer_checkin_task : prog bool :=
  try_except
    (installer_checkin_elements <-
       call (find_elements XPATH (u "//th[contains(., 'Installer Checkin')]")) ;;
     match installer_checkin_elements with
     | _ :: _ =>
         log INFO "Found 'Installer Checkin' task type - skipping this task"
             [] ;;
         Ret true
     | [] => Ret false
     end)
    (fun e =>
       log ERROR "Error checking for Installer Checkin task type: {e}"
           [AExn e] ;;
       Ret false).

(* ------------------------------------------------------------------ *)
(** ** Main workflow *)

Definition close_selector : str :=
  u ".afContainer__titlebar-actions-left > a:nth-of-type(1)".

Definition default_email : str := u "default@aroflo.com".

Definition row_xpath (job_id : Z) : str :=
  u "//td[contains(@class,'page-content-task-jobnumber') and text()='"
  ++ repr_int job_id ++ u "']/..".

Definition create_xpath : str :=
  u "//button[@role='button' and normalize-space()='Create']".

(** Lines 302-357: the Create workflow of a task without an e-mail. *)
Definition fill_workflow (job_id : Z) : prog unit :=
  log INFO "No existing email found in fields. Performing Create workflow..."
      [] ;;
  workflow_clicked <-
    try_except
      (safe_div_click (u "div:nth-of-type(2) > .afBtn > .afIcon") 10 ;;
       log INFO "Workflow button clicked successfully" [] ;;
       Ret true)
      (fun e =>
         log ERROR "Failed to click workflow div for task {job_id}: {e}"
             [AInt job_id; AExn e] ;;
         Ret false) ;;
  created_email <- search_aroflo_email_in_page ;;
  match (if opt_truthy created_email then created_email else None) with
  | Some created_email =>
      log INFO "Email already created: {created_email}. Pasting into field."
          [AStr created_email] ;;
      pasted <- paste_email created_email ;;
      if pasted
      then log INFO "Successfully pasted created email into field" []
      else log ERROR "Failed to paste created email" []
  | None =>
      if workflow_clicked : bool then
        try_except
          (create_btn <- call (wait_clickable XPATH create_xpath 5) ;;
           call (scroll_into_view create_btn) ;;
           call (click create_btn) ;;
           log INFO "Create button clicked" [] ;;
           sleep 30 ;;
           created_email <- search_aroflo_email_in_page ;;
           match (if opt_truthy created_email then created_email else None)
           with
           | Some created_email =>
               log INFO "Email created after Create button: {created_email}"
                   [AStr created_email] ;;
               pasted <- paste_email created_email ;;
               if pasted then Ret tt
               else log ERROR "Failed to paste created email" []
           | None =>
               log WARNING "No email created after Create button" [] ;;
               pasted <- paste_email default_email ;;
               if pasted
               then log INFO "Pasted default email: {default_email}"
                        [AStr default_email]
               else Ret tt
           end)
          (fun e =>
             log ERROR "Create button not found for task {job_id}: {e}"
                 [AInt job_id; AExn e] ;;
             pasted <- paste_email default_email ;;
             if pasted
             then log INFO
                    "Pasted default email after Create button failure: {default_email}"
                    [AStr default_email]
             else Ret tt)
      else
        log WARNING "Workflow button failed, using default email" [] ;;
        pasted <- paste_email default_email ;;
        if pasted
        then log INFO "Pasted default email: {default_email}"
                 [AStr default_email]
        else Ret tt
  end.

(** Lines 359-367: click the task's save button. *)
Definition save_task (job_id : Z) : prog unit :=
  try_except
    (save_btn <- safe_find ID (u "update_btn") 5 ;;
     call (scroll_into_view save_btn) ;;
     call (click save_btn) ;;
     log INFO "Task {job_id} saved successfully" [AInt job_id] ;;
     sleep 20)
    (fun e =>
       log WARNING "Save button not found for task {job_id}: {e}"
           [AInt job_id; AExn e]).

(** Lines 371-375: back to the task list. *)
Definition return_to_list (job_id : Z) : prog unit :=
  try_except
    (safe_div_click close_selector 10 ;;
     sleep 10)
    (fun e =>
       log WARNING "Failed to return to main page after task {job_id}: {e}"
           [AInt job_id; AExn e]).

(** Lines 277-375: what the [try] of one iteration does.  A branch that
    ends here is a [continue]. *)
Definition task_steps (job_id : Z) : prog unit :=
  rows <- call (find_elements XPATH (row_xpath job_id)) ;;
  match rows with
  | [] =>
      log WARNING "Task {job_id} not found on the page. Skipping..."
          [AInt job_id]
  | row :: _ =>
      task_link <-
        call (find_element_in row CSS_SELECTOR
                (u "td.page-content-task-name a")) ;;
      call (click task_link) ;;
      sleep 30 ;;
      installer <- is_installer_checkin_task ;;
      if installer : bool then
        log INFO "Skipping task {job_id} because it's an 'Installer Checkin' type"
            [AInt job_id] ;;
        safe_div_click close_selector 10 ;;
        save_job_tracker job_id
      else
        existing_email <- check_email_field_content ;;
        match (if opt_truthy existing_email then existing_email else None)
        with
        | Some existing_email =>
            log INFO
              "Task already has email in field: {existing_email}. Skipping completely."
              [AStr existing_email] ;;
            safe_div_click close_selector 10 ;;
            save_job_tracker job_id
        | None =>
            fill_workflow job_id ;;
            save_task job_id ;;
            save_job_tracker job_id ;;
            return_to_list job_id
        end
  end.

(** Lines 274-379: one iteration of the loop over job ids. *)
Definition process_task (job_id : Z) : prog unit :=
  log INFO "Processing Job ID: {job_id}" [AInt job_id] ;;
  try_except
    (task_steps job_id)
    (fun e =>
       log ERROR "Unexpected error while processing task {job_id}: {e}"
           [AInt job_id; AExn e]).

(** Lines 274: the loop. *)
Definition task_loop (last_index first_row_job_id : Z) : prog unit :=
  for_each (py_range last_index (first_row_job_id + 1)) process_task.

Definition login_url : str :=
  u "https://office.aroflo.com/?redirect=%2Fims%2FSite%2FHome%2Findex.cfm%3Fview%3D1%26tid%3DIMS.HME".

(** Lines 237-263: log in and open the task list. *)
Definition login (USERNAME PASSWORD : str) : prog unit :=
  log INFO "Navigating to Aroflo login..." [] ;;
  call (driver_get login_url) ;;
  username_field <-
    safe_find CSS_SELECTOR
      (u "input[name=" ++ dq ++ u "username" ++ dq ++ u "]") 15 ;;
  call (send_keys username_field [USERNAME]) ;;
  password_field <-
    safe_find CSS_SELECTOR
      (u "input[name=" ++ dq ++ u "password" ++ dq ++ u "]") 15 ;;
  call (send_keys password_field [PASSWORD]) ;;
  submit_btn <-
    safe_find CSS_SELECTOR
      (u "button[type=" ++ dq ++ u "submit" ++ dq ++ u "]") 15 ;;
  call (click submit_btn) ;;
  sleep 30 ;;
  try_except
    (submit_btn <-
       safe_find CSS_SELECTOR
         (u "button[type=" ++ dq ++ u "submit" ++ dq ++ u "]") 5 ;;
     call (click submit_btn))
    (fun _ => Ret tt) ;;
  call (wait_presence TAG_NAME (u "body") 30) ;;
  log INFO "Login successful!" [] ;;
  log INFO "Navigating to tasks page..." [] ;;
  safe_div_click (u ".afMegaMenu > button:nth-of-type(2)") 10 ;;
  safe_div_click
    (u "div:nth-of-type(1) .afMegaMenu__item .item-content .item-submenu a:nth-of-type(2)")
    10.

(** Lines 265-379: read the highest job id off the first row and loop. *)
Definition process_all (last_index : Z) : prog unit :=
  job_id_cells <-
    call (find_elements CSS_SELECTOR (u "td.page-content-task-jobnumber")) ;;
  match job_id_cells with
  | [] => log WARNING "No job ID cells found!" []
  | cell :: _ =>
      text <- call (get_text cell) ;;
      first_row_job_id <-
        of_answer (py_int (PStr (strip text))) ;;
      log INFO "Max job ID (first row): {first_row_job_id}"
          [AInt first_row_job_id] ;;
      task_loop last_index first_row_job_id
  end.

(** Lines 234-389. *)
Definition main_workflow (USERNAME PASSWORD : str) : prog unit :=
  try_finally
    (try_except
       (last_index <- load_job_tracker ;;
        login USERNAME PASSWORD ;;
        process_all last_index ;;
        log INFO "All workflows completed!" [])
       (fun e =>
          log ERROR "Critical error in main workflow: {e}" [AExn e] ;;
          Raise e))
    (call driver_quit ;;
     log INFO "Chrome WebDriver closed" []).

End Program.

(* ================================================================== *)
(** * Vocabulary of the specification *)

(** ** What the patterns mean *)

(** The character before the position reached after reading [cs]. *)
Definition last_opt (prev : option N) (cs : str) : option N :=
  match rev cs with c :: _ => Some c | [] => prev end.

(** What a pattern means: [matches p prev c rest] when, at a position
    preceded by [prev] and followed by [c ++ rest], [p] can consume
    exactly [c]. *)
Inductive matches : list atom -> option N -> str -> str -> Prop :=
| m_nil prev rest : matches [] prev [] rest
| m_rep cls lo p prev cs c rest :
    forallb cls cs = true -> lo <= List.length cs ->
    matches p (last_opt prev cs) c rest ->
    matches (Rep cls lo :: p) prev (cs ++ c) rest
| m_chr x p prev c rest :
    matches p (Some x) c rest -> matches (Chr x :: p) prev (x :: c) rest
| m_wordb w p prev c rest :
    boundary w prev (c ++ rest) = true ->
    matches p prev c rest -> matches (WordB w :: p) prev c rest
| m_bos p c rest :
    matches p None c rest -> matches (Bos :: p) None c rest
| m_eos p prev c rest :
    c ++ rest = [] \/ c ++ rest = [10%N] ->
    matches p prev c rest -> matches (Eos :: p) prev c rest.

(** The syntax the first pattern stands for. *)
Definition email_syntax (t : str) : Prop :=
  exists l dm tld,
    t = l ++ [64%N] ++ dm ++ [46%N] ++ tld /\
    l <> [] /\ forallb cls_local l = true /\
    dm <> [] /\ forallb cls_domain dm = true /\
    2 <= List.length tld /\ forallb cls_letter tld = true.

(** The syntax the second pattern stands for. *)
Definition aroflo_syntax (v : str) : Prop :=
  exists l dm,
    v = l ++ [64%N] ++ dm ++ u ".aroflo.com" /\
    l <> [] /\ forallb cls_local l = true /\ forallb cls_domain dm = true.

(** [v] stands in [page] between [pre] and [post], with a word boundary
    on each side. *)
Definition aroflo_occurrence {rt : Runtime} (page pre v post : str) : Prop :=
  page = pre ++ v ++ post /\ aroflo_syntax v /\
  boundary is_word (last_opt None pre) (v ++ post) = true /\
  boundary is_word (Some 109%N) post = true.

(** ** Numbers in the tracker file *)

Definition digit_step (acc c : N) : N := (acc * 10 + (c - 48))%N.

(** A terminator: a character that cannot continue a number. *)
Definition ends_number (rest : str) : Prop :=
  match rest with
  | c :: _ =>
      is_digit c = false /\ N.eqb c 46 = false /\
      N.eqb c 101 = false /\ N.eqb c 69 = false
  | [] => True
  end.

Definition tracker_dict (index : Z) : pyobj :=
  PDict [(u "last_index", PInt index)].

(** ** Results of composed runs *)

(** [r1] followed by [r2]. *)
Definition seq_result (W A B : Type) (r1 : result W A) (r2 : result W B)
  : result W B :=
  {| outcome := outcome r2; world := world r2; disk := disk r2;
     trace := trace r1 ++ trace r2 |}.

(** [r1] stopped by an exception. *)
Definition failed (W A B : Type) (r1 : result W A) (e : exn) : result W B :=
  {| outcome := Err e; world := world r1; disk := disk r1;
     trace := trace r1 |}.

(** What [finally] leaves: the block's outcome unless the clean-up
    raises. *)
Definition finally_result (W A : Type) (r1 : result W A)
    (r2 : result W unit) : result W A :=
  {| outcome := match outcome r2 with
                | Ok _ => outcome r1
                | Err e => Err e
                end;
     world := world r2; disk := disk r2;
     trace := trace r1 ++ trace r2 |}.

Fixpoint total (A : Type) (p : prog A) : Prop :=
  match p with
  | Ret _ => True
  | Raise _ => False
  | Emit _ k => total k
  | File _ k => forall a, total (k a)
  | Call _ k => forall a, total (k a)
  end.

Fixpoint all_events (A : Type) (S : event -> Prop) (p : prog A) : Prop :=
  match p with
  | Ret _ => True
  | Raise _ => True
  | Emit o k => S (EvOut o) /\ all_events S k
  | File o k => forall a, S (EvFile o a) /\ all_events S (k a)
  | Call o k => forall a, S (EvCall o a) /\ all_events S (k a)
  end.

Definition is_write (ev : event) : bool :=
  match ev with
  | EvFile (write_text _) _ => true
  | _ => false
  end.

(** ** Views of a trace *)

Definition log_of (ev : event) : list (level * string * list arg) :=
  match ev with EvOut (Log l t a) => [(l, t, a)] | _ => [] end.

Definition read_of (ev : event) : list (answer str) :=
  match ev with EvFile read_text a => [a] | _ => [] end.

Definition write_of (ev : event) : list (str * answer unit) :=
  match ev with EvFile (write_text t) a => [(t, a)] | _ => [] end.

Definition page_of (ev : event) : list (answer str) :=
  match ev with EvCall page_source a => [a] | _ => [] end.

Definition keys_of (ev : event) : list (elem * list str * answer unit) :=
  match ev with EvCall (send_keys e k) a => [(e, k, a)] | _ => [] end.

Definition copy_of (ev : event) : list (str * answer unit) :=
  match ev with EvCall (clipboard_copy t) a => [(t, a)] | _ => [] end.

Definition click_of (ev : event) : list (elem * answer unit) :=
  match ev with EvCall (click e) a => [(e, a)] | _ => [] end.

Definition clickable_of (ev : event) : list (By * str * answer elem) :=
  match ev with EvCall (wait_clickable b v _) a => [(b, v, a)] | _ => [] end.

(** The log records of a run, in order. *)
Definition logs := flat_map log_of.
(** The answers to the reads of the tracker file. *)
Definition file_reads := flat_map read_of.
(** The texts written to the tracker file, each with its answer. *)
Definition file_writes := flat_map write_of.
(** The answers to [driver.page_source]. *)
Definition page_reads := flat_map page_of.
(** The [send_keys] calls. *)
Definition typed := flat_map keys_of.
(** The [pyperclip.copy] calls. *)
Definition copies := flat_map copy_of.
(** The [click] calls. *)
Definition clicks := flat_map click_of.
(** The waits for a clickable element. *)
Definition clickable_waits := flat_map clickable_of.

(** No access to the tracker file failed. *)
Definition io_ok (t : list event) : Prop :=
  (forall e, ~ In (Err e) (file_reads t)) /\
  (forall x e, ~ In (x, Err e) (file_writes t)).

(** The job ids a run announces with "Processing Job ID". *)
Definition attempted_of (ev : event) : list Z :=
  match ev with
  | EvOut (Log INFO t [AInt id]) =>
      if String.eqb t "Processing Job ID: {job_id}" then [id] else []
  | _ => []
  end.

Definition attempted := flat_map attempted_of.

(** A command none of whose events shows in the view [f]. *)
Abbreviation silent f p := (all_events (fun ev => f ev = []) p).

(** ** Skipped tasks *)

(** What changes a task: writing into a field or to the clipboard, and
    looking for a button other than the one that closes the view (the
    save button is found by id, the Create button and the field by other
    selectors). *)
Definition mutation_of (ev : event) : list event :=
  match ev with
  | EvCall (clear _) _ => [ev]
  | EvCall (send_keys _ _) _ => [ev]
  | EvCall (clipboard_copy _) _ => [ev]
  | EvCall (wait_presence ID _ _) _ => [ev]
  | EvCall (wait_clickable CSS_SELECTOR v _) _ =>
      if str_eqb v close_selector then [] else [ev]
  | EvCall (wait_clickable _ _ _) _ => [ev]
  | _ => []
  end.

Definition mutations := flat_map mutation_of.

(** The two log lines of the skip branches (lines 289 and 297). *)
Definition skip_of (ev : event) : list (list arg) :=
  match ev with
  | EvOut (Log INFO t a) =>
      if String.eqb t
           "Skipping task {job_id} because it's an 'Installer Checkin' type"
         || String.eqb t
           "Task already has email in field: {existing_email}. Skipping completely."
      then [a] else []
  | _ => []
  end.

Definition skips := flat_map skip_of.

(** Closing the detail view, all of it. *)
Definition close_events (e : elem) : list event :=
  [EvCall (wait_clickable CSS_SELECTOR close_selector 10) (Ok e);
   EvCall (scroll_into_view e) (Ok tt);
   EvCall (click e) (Ok tt);
   EvOut (Sleep 10)].

(** One call of [save_job_tracker], with the answer to its write: the
    write, and the line logged after it, which reports the save when the
    write and the conversion of [index] succeeded and the error
    otherwise. *)
Definition save_events (index : Z) (a : answer unit) : list event :=
  [EvFile (write_text (json_dump_tracker index)) a;
   EvOut (match a, json_dump_result index with
          | Ok _, Ok _ => Log INFO "Saved last processed job index: {index}"
                              [AInt index]
          | Ok _, Err e => Log ERROR "Error saving job tracker: {e}" [AExn e]
          | Err e, _ => Log ERROR "Error saving job tracker: {e}" [AExn e]
          end)].

(** How a skipped task ends: the view is closed and the watermark
    written, or closing failed and nothing was written. *)
Definition skip_post (id : Z) (d : option str) (t : list event)
    (o : answer unit) (dk : option str) : Prop :=
  mutations t = [] /\
  ((o = Ok tt /\
    exists pre e a,
      t = pre ++ close_events e ++ save_events id a /\
      file_writes pre = [] /\
      (a = Ok tt -> dk = Some (json_dump_tracker id)))
   \/ (exists e, o = Err e /\ file_writes t = [] /\ dk = d)).

(** ** The clipboard transport *)

(** How the field is read again, [get_attribute("value") or text]: the
    attribute when it is a non-empty string, and otherwise, the attribute
    being missing or empty, the text of the field. *)
Inductive reading : Type :=
| from_value (s : str)
| from_text (v : option str) (t : str).

Definition reading_events (ef : elem) (x : reading) : list event :=
  match x with
  | from_value s => [EvCall (get_attribute ef (u "value")) (Ok (Some s))]
  | from_text v t =>
      [EvCall (get_attribute ef (u "value")) (Ok v);
       EvCall (get_text ef) (Ok t)]
  end.

Definition reading_result (x : reading) : str :=
  match x with from_value s => s | from_text _ t => t end.

Definition reading_wf (x : reading) : Prop :=
  match x with
  | from_value s => truthy s = true
  | from_text (Some s) _ => truthy s = false
  | from_text None _ => True
  end.

(** A clipboard transport that runs to its end: the value is copied to
    the clipboard, the field is cleared, the paste chord is sent, the
    field is read again, and the outcome of the comparison is logged. *)
Definition transport_events (ef : elem) (email : str) (x : reading)
  : list event :=
  [EvOut (Log WARNING "Direct input failed, trying clipboard paste" []);
   EvCall (clipboard_copy email) (Ok tt);
   EvCall (clear ef) (Ok tt);
   EvOut (Sleep 5);
   EvCall (send_keys ef [Keys_CONTROL; u "v"]) (Ok tt);
   EvOut (Sleep 5)]
  ++ reading_events ef x
  ++ [EvOut
        (if str_eqb (strip (reading_result x)) email
         then Log INFO "Email pasted successfully via clipboard: {email}"
                  [AStr email]
         else Log WARNING "Failed to paste email value after all attempts"
                  [])].

(** A transport that stops where a call raises [e]: the first [k] steps
    of a transport, and then its next step, a call, answered by [e]. *)
Definition transport_cut (ef : elem) (email : str) (e : exn)
    (t : list event) : Prop :=
  exists x k R (o : bop R) (a : R),
    reading_wf x /\
    nth_error (transport_events ef email x) k = Some (EvCall o (Ok a)) /\
    t = firstn k (transport_events ef email x) ++ [EvCall o (Err e)].

(** ** The fill workflow *)

(** No page-wide search of the run found a generated address. *)
Definition no_email_found {rt : Runtime} (t : list event) : Prop :=
  forall page, In (Ok page) (page_reads t) -> first_aroflo_email page = None.

(** The run called the fill operation on [email] once, and typed or
    copied nothing outside that call. *)
Definition fills_once W (m : machine W) (email : str) (t : list event)
  : Prop :=
  exists pre w1 d1 post,
    t = pre ++ trace (exec m (paste_email email) w1 d1) ++ post /\
    typed pre = [] /\ copies pre = [] /\
    typed post = [] /\ copies post = [].

(** One call of the fill operation on [email], from the world [w].  When
    the field is not found, the call returns [False], types and copies
    nothing, and logs that the field could not be found.  When the field
    is found and the environment lets it be scrolled to and cleared, the
    first thing typed is [email], into that field; [email] is in the
    field when the environment answers that call without an exception. *)
Definition entry_post W (m : machine W) (email : str) (w : W)
    (d : option str) : Prop :=
  let p := exec m (paste_email email) w d in
  let r0 := exec m get_email_field w d in
  match outcome r0 with
  | Ok (Some ef) =>
      let s1 := browser m (scroll_into_view ef) (world r0) in
      let s2 := browser m (clear ef) (snd s1) in
      let s3 := browser m (send_keys ef [email]) (snd s2) in
      fst s1 = Ok tt -> fst s2 = Ok tt ->
      exists more, typed (trace p) = (ef, [email], fst s3) :: more
  | _ =>
      outcome p = Ok false /\ typed (trace p) = [] /\
      copies (trace p) = [] /\
      In (ERROR, "Could not find email field to paste into"%string, [])
         (logs (trace p))
  end.

(** The run called the fill operation on [email] once, what it typed and
    copied it typed and copied in that call, and the call went as
    [entry_post] says. *)
Definition enters_once W (m : machine W) (email : str) (t : list event)
  : Prop :=
  exists pre w1 d1 post,
    let p := exec m (paste_email email) w1 d1 in
    t = pre ++ trace p ++ post /\
    typed t = typed (trace p) /\ copies t = copies (trace p) /\
    entry_post m email w1 d1.

(** ** Tasks that are stepped through *)

(** The log lines of a task that was not stepped through: not found on
    the page (line 280), or a failure that escaped the body (line 378). *)
Definition halt_of (ev : event) : list (list arg) :=
  match ev with
  | EvOut (Log l t a) =>
      if String.eqb t "Task {job_id} not found on the page. Skipping..."
         || String.eqb t
              "Unexpected error while processing task {job_id}: {e}"
      then [a] else []
  | _ => []
  end.

Definition halts := flat_map halt_of.

(** The disk after a run whose writes all succeeded. *)
Definition last_write (d : option str) (ws : list (str * answer unit))
  : option str :=
  fold_left (fun _ x => Some (fst x)) ws d.

(** How one pass over a task ends, seen through its writes and halts. *)
Definition steps_post (id : Z) (t : list event) (o : answer unit) : Prop :=
  match o with
  | Err _ => file_writes t = [] /\ halts t = []
  | Ok _ =>
      (file_writes t = [] /\ halts t = [[AInt id]]) \/
      (halts t = [] /\
       exists a,
         file_writes t = [(json_dump_tracker id, a)] /\
         forall e, a = Err e ->
           In (ERROR, "Error saving job tracker: {e}"%string, [AExn e])
              (logs t))
  end.

(** ** Sample environments *)

(** A runtime for the samples: ASCII text only, [int] of a string of
    decimal digits within the digit limit, and a stack that lets JSON
    containers nest 990 deep. *)
Definition sample_runtime : Runtime :=
  {| unicode_alnum := fun _ => false;
     int_conv := fun x =>
       match x with
       | PStr (c :: s) =>
           if forallb is_digit (c :: s)
              && Nat.leb (List.length (c :: s)) int_max_str_digits
           then Ok (Z.of_N (digits_value (c :: s)))
           else Err "ValueError"%string
       | _ => Err "ValueError"%string
       end;
     json_depth := 990%positive |}.

(** A machine without state: a table of answers, and one answer to every
    access to the tracker file. *)
Definition scripted (answers : forall R : Type, bop R -> answer R)
    (f : option fault) : machine unit :=
  {| browser := fun R o w => (answers R o, w);
     io_fault := fun w => (f, w) |}.

(** Every call on the browser fails. *)
Definition refusing : forall R : Type, bop R -> answer R :=
  fun R _ => Err "WebDriverException"%string.

(** A page: the rows found for a job id, the "Installer Checkin" headers,
    the answer to waits for a clickable element, the text of elements and
    the page source.  Fields have no value. *)
Definition page (rows installer : list elem) (clickable : answer elem)
    (text : str) (source : str) : forall R : Type, bop R -> answer R :=
  fun R o =>
    match o in bop T return answer T with
    | driver_get _ => Ok tt
    | wait_presence _ _ _ => Ok 7
    | wait_clickable _ _ _ => clickable
    | scroll_into_view _ => Ok tt
    | click _ => Ok tt
    | clear _ => Ok tt
    | send_keys _ _ => Ok tt
    | get_attribute _ _ => Ok None
    | get_text _ => Ok text
    | find_elements b v =>
        match b with
        | XPATH =>
            if str_eqb v (u "//th[contains(., 'Installer Checkin')]")
            then Ok installer
            else if str_eqb v (u "//th[contains(., 'Delivery Only')]")
            then Ok []
            else Ok rows
        | _ => Ok [1]
        end
    | find_element_in _ _ _ => Ok 2
    | page_source => Ok source
    | clipboard_copy _ => Ok tt
    | driver_quit => Ok tt
    end.


(** An "Installer Checkin" task whose view closes. *)
Definition installer_task : machine unit :=
  scripted (page [5] [6] (Ok 3) [] []) None.

(** An "Installer Checkin" task whose close button never shows. *)
Definition installer_stuck : machine unit :=
  scripted (page [5] [6] (Err "TimeoutException"%string) [] []) None.

(** An "Installer Checkin" task, and a tracker file that cannot be
    opened. *)
Definition installer_readonly : machine unit :=
  scripted (page [5] [6] (Ok 3) [] [])
    (Some (open_fails "PermissionError"%string)).

(** A task whose field ignores what is typed into it. *)
Definition deaf_field : machine unit :=
  scripted (page [5] [] (Ok 3) [] []) None.

(** A field that drops what is typed into it and takes what is pasted:
    the world is the clipboard and the content of the field. *)
Definition paste_only : machine (str * str) :=
  {| browser := fun R o w =>
       match o in bop T return answer T * (str * str) with
       | clipboard_copy t => (Ok tt, (t, snd w))
       | clear _ => (Ok tt, (fst w, []))
       | send_keys _ keys =>
           (Ok tt,
            match keys with
            | [k1; k2] =>
                if str_eqb k1 Keys_CONTROL && str_eqb k2 (u "v")
                then (fst w, snd w ++ fst w) else w
            | _ => w
            end)
       | get_attribute _ _ => (Ok (Some (snd w)), w)
       | other => (page [5] [] (Ok 3) [] [] other, w)
       end;
     io_fault := fun w => (None, w) |}.

(** An "Installer Checkin" task, and a write to the tracker file that
    stops after twenty characters. *)
Definition installer_torn : machine unit :=
  scripted (page [5] [6] (Ok 3) [] [])
    (Some (write_fails "OSError"%string 20)).

(** A page that shows a generated address. *)
Definition shows_address : machine unit :=
  scripted
    (page [5] [] (Ok 3) [] (u "<td>Reply to job3422@x.aroflo.com, thanks</td>"))
    None.

(** A browser that answers nothing and a writable disk. *)
Definition offline : machine unit := scripted refusing None.

(** A task none of whose buttons or fields ever becomes clickable. *)
Definition no_buttons : machine unit :=
  scripted (page [5] [] (Err "TimeoutException"%string) [] []) None.

(** ** Vocabulary of the further properties *)

(** Every value the command can return satisfies [Q], whatever the
    environment answers. *)
Fixpoint returns (A : Type) (Q : A -> Prop) (p : prog A) : Prop :=
  match p with
  | Ret a => Q a
  | Raise _ => True
  | Emit _ k => returns Q k
  | File _ k => forall a, returns Q (k a)
  | Call _ k => forall a, returns Q (k a)
  end.

(** What [check_email_field_content] may return. *)
Definition checked_value (res : option str) : Prop :=
  match res with
  | Some v => email_syntax v /\ ~ In v placeholders /\ strip v = v
  | None => True
  end.

(** A character of a torn number: a digit, a sign, a dot or a slash, or
    a line feed. *)
Definition number_char (c : N) : Prop := c = 10%N \/ (45 <= c <= 57)%N.

(** The answers to [driver.quit()]. *)
Definition quit_of (ev : event) : list (answer unit) :=
  match ev with EvCall driver_quit a => [a] | _ => [] end.

Definition quits := flat_map quit_of.

(** The first generated address among the page sources read. *)
Fixpoint first_found {rt : Runtime} (reads : list (answer str)) : option str :=
  match reads with
  | [] => None
  | Ok page :: more =>
      match first_aroflo_email page with
      | Some v => Some v
      | None => first_found more
      end
  | Err _ :: more => first_found more
  end.

(** The address a run of the fill workflow settles on. *)
Definition chosen_email {rt : Runtime} (t : list event) : str :=
  match first_found (page_reads t) with
  | Some v => v
  | None => default_email
  end.

(** The log line that opens the fill workflow (line 303). *)
Definition fill_start_of (ev : event) : list unit :=
  match ev with
  | EvOut (Log INFO t []) =>
      if String.eqb t
           "No existing email found in fields. Performing Create workflow..."
      then [tt] else []
  | _ => []
  end.

Definition fill_starts := flat_map fill_start_of.

(** How a pass over a task ends, seen from the fill workflow: it was not
    entered, or the pass went through and wrote its id once. *)
Definition started_post (id : Z) (t : list event) (o : answer unit) : Prop :=
  fill_starts t = [] \/
  (o = Ok tt /\ halts t = [] /\
   exists a, file_writes t = [(json_dump_tracker id, a)]).

(** The waits for the Create button. *)
Definition create_of (ev : event) : list (answer elem) :=
  match ev with
  | EvCall (wait_clickable XPATH v _) a =>
      if str_eqb v create_xpath then [a] else []
  | _ => []
  end.

Definition creates := flat_map create_of.

(** Further sample environments. *)

(** A task whose field shows "a@b.co" whatever is typed. *)
Definition echo_field : machine unit :=
  scripted (page [5] [] (Ok 3) (u "a@b.co") []) None.

(** A list of "Installer Checkin" tasks with job 3412 in its first row. *)
Definition installer_list : machine unit :=
  scripted (page [5] [6] (Ok 3) (u "3412") []) None.

(** A disk whose first access stops a write after twenty characters;
    the world counts the accesses. *)
Definition torn_once : machine nat :=
  {| browser := fun R o w => (refusing o, w);
     io_fault := fun w =>
       (match w with
        | O => Some (write_fails "OSError"%string 20)
        | S _ => None
        end, S w) |}.

(** A wait of the run is bounded: between 3 and 30 seconds. *)
Definition bounded_wait (ev : event) : Prop :=
  match ev with
  | EvCall (wait_presence _ _ timeout) _ => 3 <= timeout <= 30
  | EvCall (wait_clickable _ _ timeout) _ => 3 <= timeout <= 30
  | _ => True
  end.

(** A pause of the run lasts at most three seconds. *)
Definition short_pause (ev : event) : Prop :=
  match ev with
  | EvOut (Sleep tenths) => tenths <= 30
  | _ => True
  end.

(** Both at once. *)
Definition paced (ev : event) : Prop := bounded_wait ev /\ short_pause ev.

(* ================================================================== *)
(** * Theorems *)

(** ** The matcher finds what the pattern means *)

Lemma last_opt_nil prev : last_opt prev [] = prev.
Proof. reflexivity. Qed.

Lemma last_opt_cons prev c cs : last_opt prev (c :: cs) = last_opt (Some c) cs.
Proof.
  unfold last_opt. simpl. destruct (rev cs) as [|x l] eqn:E; simpl; reflexivity.
Qed.

Lemma last_opt_app prev a b :
  last_opt prev (a ++ b) = last_opt (last_opt prev a) b.
Proof.
  revert prev. induction a as [|x a IH]; intros prev; simpl.
  - reflexivity.
  - rewrite !last_opt_cons. apply IH.
Qed.

Lemma greedy_sound cls lo k : forall s n prev m,
  greedy cls lo k n prev s = Some m ->
  exists cs s' j, s = cs ++ s' /\ forallb cls cs = true /\
    lo <= n + List.length cs /\ k (last_opt prev cs) s' = Some j /\
    m = List.length cs + j.
Proof.
  induction s as [|c s IH]; intros n prev m H; simpl in H.
  - destruct (lo <=? n) eqn:L; [|discriminate].
    apply Nat.leb_le in L.
    exists [], [], m. repeat split; simpl; auto; lia.
  - assert (Stop: (if lo <=? n then k prev (c :: s) else None) = Some m ->
      exists cs s' j, c :: s = cs ++ s' /\ forallb cls cs = true /\
        lo <= n + List.length cs /\ k (last_opt prev cs) s' = Some j /\
        m = List.length cs + j).
    { intros H'. destruct (lo <=? n) eqn:L; [|discriminate].
      apply Nat.leb_le in L.
      exists [], (c :: s), m. repeat split; simpl; auto; lia. }
    destruct (cls c) eqn:C; [|auto].
    destruct (greedy cls lo k (S n) (Some c) s) as [m'|] eqn:G; [|auto].
    inversion H; subst m; clear H.
    destruct (IH _ _ _ G) as (cs & s' & j & -> & F & Hlo & Hk & ->).
    exists (c :: cs), s', j. rewrite last_opt_cons. simpl. rewrite C, F.
    repeat split; auto; lia.
Qed.

Lemma greedy_complete cls lo k : forall cs s' n prev j,
  forallb cls cs = true -> lo <= n + List.length cs ->
  k (last_opt prev cs) s' = Some j ->
  exists m, greedy cls lo k n prev (cs ++ s') = Some m.
Proof.
  induction cs as [|c cs IH]; intros s' n prev j F Hlo Hk; simpl in *.
  - assert (L: (lo <=? n) = true) by (apply Nat.leb_le; lia).
    rewrite last_opt_nil in Hk.
    destruct s' as [|c s]; simpl; rewrite L, Hk.
    + eauto.
    + destruct (cls c); [|eauto].
      destruct (greedy cls lo k (S n) (Some c) s); eauto.
  - apply andb_true_iff in F. destruct F as [C F]. rewrite C.
    rewrite last_opt_cons in Hk.
    destruct (IH s' (S n) (Some c) j F) as [m G]; [lia|exact Hk|].
    rewrite G. eauto.
Qed.

Lemma run_sound : forall p prev s n,
  run p prev s = Some n ->
  exists c rest, s = c ++ rest /\ List.length c = n /\ matches p prev c rest.
Proof.
  induction p as [|a p IH]; intros prev s n H; simpl in H.
  - inversion H; subst. exists [], s. repeat split. constructor.
  - destruct a as [cls lo|x|w| |].
    + apply greedy_sound in H.
      destruct H as (cs & s' & j & -> & F & Hlo & Hk & ->).
      destruct (IH _ _ _ Hk) as (c & rest & -> & <- & M).
      exists (cs ++ c), rest. rewrite app_assoc, length_app.
      repeat split. constructor; auto.
    + destruct s as [|y s]; [discriminate|].
      destruct (N.eqb y x) eqn:E; [|discriminate].
      apply N.eqb_eq in E; subst y.
      destruct (run p (Some x) s) as [k|] eqn:R; [|discriminate].
      inversion H; subst n.
      destruct (IH _ _ _ R) as (c & rest & -> & <- & M).
      exists (x :: c), rest. repeat split. constructor; auto.
    + destruct (boundary w prev s) eqn:B; [|discriminate].
      destruct (IH _ _ _ H) as (c & rest & -> & <- & M).
      exists c, rest. repeat split. constructor; auto.
    + destruct prev; [discriminate|].
      destruct (IH _ _ _ H) as (c & rest & -> & <- & M).
      exists c, rest. repeat split. constructor; auto.
    + assert (E: s = [] \/ s = [10%N]).
      { destruct s as [|y s]; auto. right.
        destruct (N.eq_dec y 10) as [->|Ny].
        - destruct s; [reflexivity|discriminate].
        - exfalso. destruct y as [|q]; [discriminate|].
          do 4 (destruct q as [q|q|]; try discriminate; try congruence). }
      assert (R: run p prev s = Some n).
      { destruct E as [->| ->]; exact H. }
      destruct (IH _ _ _ R) as (c & rest & -> & <- & M).
      exists c, rest. repeat split. constructor; auto.
Qed.

Lemma run_complete : forall p prev c rest,
  matches p prev c rest -> exists n, run p prev (c ++ rest) = Some n.
Proof.
  intros p prev c rest M. induction M; simpl.
  - eauto.
  - destruct IHM as [n R]. rewrite <- app_assoc.
    eapply greedy_complete; eauto; lia.
  - rewrite N.eqb_refl. destruct IHM as [n R]. rewrite R. simpl. eauto.
  - rewrite H. exact IHM.
  - exact IHM.
  - destruct IHM as [n R]. destruct H as [E|E]; rewrite E in *; eauto.
Qed.

(** ** E-mail validity *)

Lemma str_eqb_eq a : forall b, str_eqb a b = true <-> a = b.
Proof.
  induction a as [|x a IH]; intros [|y b]; simpl; split; intros H;
    try reflexivity; try discriminate.
  - apply andb_true_iff in H. destruct H as [E H].
    apply N.eqb_eq in E. apply IH in H. congruence.
  - inversion H; subst. rewrite N.eqb_refl. simpl. apply IH. reflexivity.
Qed.

Lemma str_in_In x l : str_in x l = true <-> In x l.
Proof.
  unfold str_in. rewrite existsb_exists. split.
  - intros (y & I & E). apply str_eqb_eq in E. subst. exact I.
  - intros I. exists x. split; [exact I|]. apply str_eqb_eq. reflexivity.
Qed.

(** ** [strip] *)

Lemma lstrip_split s :
  exists sp, s = sp ++ lstrip s /\ forallb is_space sp = true.
Proof.
  induction s as [|c s IH]; simpl.
  - exists []. auto.
  - destruct (is_space c) eqn:E.
    + destruct IH as (sp & Hs & F). exists (c :: sp). simpl.
      rewrite E, F. split; [f_equal; exact Hs|reflexivity].
    + exists []. auto.
Qed.

Lemma lstrip_head s c t : lstrip s = c :: t -> is_space c = false.
Proof.
  induction s as [|x s IH]; simpl; [discriminate|].
  destruct (is_space x) eqn:E; [exact IH|].
  intros H. inversion H; subst. exact E.
Qed.

Lemma lstrip_fixed s :
  match s with c :: _ => is_space c = false | [] => True end ->
  lstrip s = s.
Proof. destruct s; simpl; [reflexivity|]. intros ->. reflexivity. Qed.

Lemma lstrip_idem s : lstrip (lstrip s) = lstrip s.
Proof.
  apply lstrip_fixed. destruct (lstrip s) eqn:E; [exact I|].
  eapply lstrip_head; eauto.
Qed.

Lemma lstrip_spaces sp : forallb is_space sp = true -> lstrip sp = [].
Proof.
  induction sp as [|c sp IH]; simpl; [reflexivity|].
  intros H. apply andb_true_iff in H. destruct H as [-> H]. auto.
Qed.

Lemma rstrip_split s :
  exists sp, s = rstrip s ++ sp /\ forallb is_space sp = true.
Proof.
  unfold rstrip. destruct (lstrip_split (rev s)) as (sp & Hs & F).
  exists (rev sp). split.
  - rewrite <- rev_app_distr, <- Hs, rev_involutive. reflexivity.
  - rewrite forallb_forall in *. intros x Hx. apply F.
    apply in_rev. exact Hx.
Qed.

Lemma rstrip_last s a c : rstrip s = a ++ [c] -> is_space c = false.
Proof.
  unfold rstrip. intros H.
  apply (f_equal (@rev N)) in H.
  rewrite rev_involutive, rev_app_distr in H. simpl in H.
  eapply lstrip_head; eauto.
Qed.

Lemma rstrip_idem s : rstrip (rstrip s) = rstrip s.
Proof. unfold rstrip. rewrite rev_involutive, lstrip_idem. reflexivity. Qed.

Lemma strip_last s a c : strip s = a ++ [c] -> is_space c = false.
Proof. unfold strip. apply rstrip_last. Qed.

Lemma strip_idem s : strip (strip s) = strip s.
Proof.
  unfold strip.
  assert (L: lstrip (rstrip (lstrip s)) = rstrip (lstrip s)).
  { apply lstrip_fixed.
    destruct (rstrip (lstrip s)) as [|c r] eqn:R; [exact I|].
    destruct (rstrip_split (lstrip s)) as (sp & Hs & F).
    rewrite R in Hs. simpl in Hs. eapply lstrip_head; eauto. }
  rewrite L. apply rstrip_idem.
Qed.

(** ** The e-mail pattern is its syntax *)

Lemma nonempty_length (l : str) : 1 <= List.length l -> l <> [].
Proof. destruct l; simpl; [lia|discriminate]. Qed.

Lemma length_nonempty (l : str) : l <> [] -> 1 <= List.length l.
Proof. destruct l; simpl; [congruence|lia]. Qed.

Lemma matches_email prev c rest :
  matches email_pattern prev c rest ->
  prev = None /\ email_syntax c /\ (rest = [] \/ rest = [10%N]).
Proof.
  unfold email_pattern. intros M.
  inversion M as [| | | |p0 c0 r0 M1|]; subst; clear M.
  inversion M1 as [|cls lo p0 pv l c1 r0 Fl Ll M2| | | |]; subst; clear M1.
  inversion M2 as [| |x p0 pv c2 r0 M3| | |]; subst; clear M2.
  inversion M3 as [|cls lo p0 pv dm c3 r0 Fd Ld M4| | | |]; subst; clear M3.
  inversion M4 as [| |x p0 pv c4 r0 M5| | |]; subst; clear M4.
  inversion M5 as [|cls lo p0 pv tld c5 r0 Ft Lt M6| | | |]; subst; clear M5.
  inversion M6 as [| | | | |p0 pv c6 r0 E M7]; subst; clear M6.
  inversion M7; subst; clear M7.
  simpl in E. split; [reflexivity|]. split; [|exact E].
  exists l, dm, tld. rewrite app_nil_r. simpl.
  repeat split; auto using nonempty_length.
Qed.

Lemma email_matches t :
  email_syntax t -> matches email_pattern None t [].
Proof.
  intros (l & dm & tld & -> & Nl & Fl & Nd & Fd & Lt & Ft).
  unfold email_pattern. constructor.
  constructor; auto using length_nonempty. simpl. constructor.
  constructor; auto using length_nonempty. simpl. constructor.
  rewrite <- (app_nil_r tld). constructor; auto.
  constructor; [left; reflexivity|constructor].
Qed.

Lemma is_valid_email_iff text :
  is_valid_email text = true <-> text <> [] /\ email_syntax (strip text).
Proof.
  unfold is_valid_email, re_match. split.
  - intros H. destruct text as [|c text]; [discriminate|].
    cbn [truthy negb] in H.
    split; [discriminate|].
    destruct (run email_pattern None (strip (c :: text))) as [n|] eqn:R;
      [|discriminate].
    apply run_sound in R. destruct R as (m & rest & E & _ & M).
    apply matches_email in M. destruct M as (_ & S & [->| ->]).
    + rewrite app_nil_r in E. rewrite E. exact S.
    + apply strip_last in E. vm_compute in E. discriminate.
  - intros [Ne S]. destruct text as [|c text]; [congruence|].
    cbn [truthy negb].
    apply email_matches in S. apply run_complete in S.
    destruct S as [n R]. rewrite app_nil_r in R. rewrite R. reflexivity.
Qed.

Lemma accepts_candidate_only_if v :
  accepts_candidate v = true ->
  email_syntax (strip v) /\ ~ In v placeholders.
Proof.
  unfold accepts_candidate. intros H.
  apply andb_true_iff in H. destruct H as [V P].
  apply is_valid_email_iff in V. destruct V as [_ S]. split; [exact S|].
  intros I. apply str_in_In in I. rewrite I in P. discriminate.
Qed.

(** C2.  [is_valid_email] accepts "a.b+tag@sub.domain.co" and rejects
    "not-an-email", the empty string, "on" and "true".  A candidate that
    the test of line 120 accepts has, once stripped, the syntax
    local@domain.tld of the pattern (a non-empty local part, a non-empty
    domain, a dot and at least two letters) and is none of the
    placeholders "on", "off", "true", "false"; the same holds of the
    stripped value [check_email_field_content] hands to the test. *)
Theorem email_validity :
  is_valid_email (u "a.b+tag@sub.domain.co") = true /\
  is_valid_email (u "not-an-email") = false /\
  is_valid_email (u EmptyString) = false /\
  is_valid_email (u "on") = false /\
  is_valid_email (u "true") = false /\
  (forall candidate,
     accepts_candidate candidate = true ->
     email_syntax (strip candidate) /\ ~ In candidate placeholders) /\
  (forall raw,
     accepts_candidate (strip raw) = true ->
     email_syntax (strip raw) /\ ~ In (strip raw) placeholders).
Proof.
  repeat split; try reflexivity.
  - apply accepts_candidate_only_if; assumption.
  - apply accepts_candidate_only_if; assumption.
  - rewrite <- (strip_idem raw). apply accepts_candidate_only_if; assumption.
  - apply accepts_candidate_only_if; assumption.
Qed.

(** ** The page-wide pattern *)

Section Aroflo.
Context {rt : Runtime}.

Lemma app_same_length (a b c d : str) :
  a ++ b = c ++ d -> List.length a = List.length c -> a = c /\ b = d.
Proof.
  revert c. induction a as [|x a IH]; intros [|y c] E L; simpl in *;
    try discriminate.
  - auto.
  - inversion E; subst. destruct (IH c) as [-> ->]; auto.
Qed.

Lemma run_length p prev s n : run p prev s = Some n -> n <= List.length s.
Proof.
  intros R. apply run_sound in R. destruct R as (c & rest & -> & <- & _).
  rewrite length_app. lia.
Qed.

Lemma findall_first p : forall s prev,
  match findall_aux p prev s 0 with
  | m :: _ =>
      exists pre post, s = pre ++ m ++ post /\
        run p (last_opt prev pre) (m ++ post) = Some (List.length m) /\
        forall pre' rest', s = pre' ++ rest' ->
          List.length pre' < List.length pre ->
          run p (last_opt prev pre') rest' = None
  | [] =>
      forall pre' rest', s = pre' ++ rest' ->
        run p (last_opt prev pre') rest' = None
  end.
Proof.
  assert (Hit: forall s prev n, run p prev s = Some n ->
    exists pre post, s = pre ++ firstn n s ++ post /\
      run p (last_opt prev pre) (firstn n s ++ post)
        = Some (List.length (firstn n s)) /\
      forall pre' rest', s = pre' ++ rest' ->
        List.length pre' < List.length pre ->
        run p (last_opt prev pre') rest' = None).
  { intros s prev n R. exists [], (skipn n s).
    pose proof (run_length _ _ _ R) as L.
    rewrite firstn_skipn, length_firstn, Nat.min_l by exact L.
    simpl. repeat split; auto. intros; lia. }
  induction s as [|c s IH]; intros prev.
  - simpl. destruct (run p prev []) as [n|] eqn:R.
    + apply Hit in R. exact R.
    + intros pre' rest' E. symmetry in E. apply app_eq_nil in E.
      destruct E as [-> ->]. exact R.
  - cbn [findall_aux]. destruct (run p prev (c :: s)) as [n|] eqn:R.
    + apply Hit in R. exact R.
    + specialize (IH (Some c)).
      destruct (findall_aux p (Some c) s 0) as [|m ms].
      * intros pre' rest' E. destruct pre' as [|x pre'].
        -- simpl in E. subst rest'. exact R.
        -- simpl in E. inversion E; subst. rewrite last_opt_cons.
           apply IH. reflexivity.
      * destruct IH as (pre & post & E & Rm & Min).
        exists (c :: pre), post. rewrite last_opt_cons.
        split; [simpl; f_equal; exact E|]. split; [exact Rm|].
        intros pre' rest' E' L. destruct pre' as [|x pre'].
        -- simpl in E'. subst rest'. exact R.
        -- simpl in E'. inversion E'; subst x. rewrite last_opt_cons.
           apply Min; [assumption|simpl in L; lia].
Qed.

Lemma matches_aroflo prev v post :
  matches aroflo_pattern prev v post <->
  aroflo_syntax v /\ boundary is_word prev (v ++ post) = true /\
  boundary is_word (Some 109%N) post = true.
Proof.
  unfold aroflo_pattern. simpl. split.
  - intros M.
    inversion M as [| | |w p0 pv c0 r0 B0 M1| |]; subst; clear M.
    inversion M1 as [|cls lo p0 pv l c1 r0 Fl Ll M2| | | |]; subst; clear M1.
    inversion M2 as [| |x p0 pv c2 r0 M3| | |]; subst; clear M2.
    inversion M3 as [|cls lo p0 pv dm c3 r0 Fd Ld M4| | | |]; subst; clear M3.
    do 11 (match goal with
           | H : matches (Chr _ :: _) _ _ _ |- _ =>
               inversion H; subst; clear H
           end).
    match goal with
    | H : matches (WordB _ :: _) _ _ _ |- _ =>
        inversion H as [| | |w p0 pv c0 r0 B1 M5| |]; subst; clear H
    end.
    inversion M5; subst; clear M5.
    simpl in B1. split; [|split; assumption].
    exists l, dm. repeat split; auto using nonempty_length.
  - intros ((l & dm & -> & Nl & Fl & Fd) & B0 & B1).
    constructor; [exact B0|].
    constructor; auto using length_nonempty.
    simpl. constructor.
    constructor; [exact Fd|lia|].
    simpl. do 11 constructor. constructor; [exact B1|constructor].
Qed.

(** The first element of [findall] is the leftmost occurrence. *)
Lemma first_aroflo_email_spec page :
  match first_aroflo_email page with
  | Some v =>
      exists pre post,
        aroflo_occurrence page pre v post /\
        (exists x, v = x ++ u ".aroflo.com") /\
        forall pre' v' post',
          aroflo_occurrence page pre' v' post' ->
          List.length pre <= List.length pre'
  | None =>
      forall pre' v' post', ~ aroflo_occurrence page pre' v' post'
  end.
Proof.
  unfold first_aroflo_email, findall.
  pose proof (findall_first aroflo_pattern page None) as F.
  destruct (findall_aux aroflo_pattern None page 0) as [|m ms].
  - intros pre' v' post' (E & S & B0 & B1).
    specialize (F pre' (v' ++ post') E).
    assert (M: matches aroflo_pattern (last_opt None pre') v' post')
      by (apply matches_aroflo; auto).
    apply run_complete in M. destruct M as [n R]. congruence.
  - destruct F as (pre & post & E & R & Min).
    apply run_sound in R. destruct R as (c & rest & Ec & Lc & M).
    assert (c = m /\ rest = post) as [-> ->].
    { apply app_same_length; [symmetry; exact Ec|exact Lc]. }
    apply matches_aroflo in M. destruct M as (S & B0 & B1).
    exists pre, post. split; [repeat split; assumption|]. split.
    + destruct S as (l & dm & -> & _). exists (l ++ [64%N] ++ dm).
      rewrite <- !app_assoc. reflexivity.
    + intros pre' v' post' (E' & S' & B0' & B1').
      destruct (Nat.le_gt_cases (List.length pre) (List.length pre'))
        as [L|L]; [exact L|].
      specialize (Min pre' (v' ++ post') E' L).
      assert (M: matches aroflo_pattern (last_opt None pre') v' post')
        by (apply matches_aroflo; auto).
      apply run_complete in M. destruct M as [n R]. congruence.
Qed.

End Aroflo.

(** ** Decimal text of an integer reads back as the integer *)

Lemma digits_value_acc d : forall acc,
  fold_left digit_step (uint_chars d) (Npos acc) = Npos (Pos.of_uint_acc d acc).
Proof.
  induction d; intros acc; cbn [uint_chars fold_left Pos.of_uint_acc];
    try reflexivity;
    rewrite <- IHd; f_equal; unfold digit_step; lia.
Qed.

Lemma digits_value_uint d : digits_value (uint_chars d) = Pos.of_uint d.
Proof.
  unfold digits_value. change (fun acc c : N => (acc * 10 + (c - 48))%N)
    with digit_step.
  induction d; cbn [uint_chars fold_left Pos.of_uint];
    try reflexivity; try exact IHd;
    rewrite <- digits_value_acc; reflexivity.
Qed.

Lemma digits_value_pos p : digits_value (uint_chars (Pos.to_uint p)) = Npos p.
Proof. rewrite digits_value_uint. apply DecimalPos.Unsigned.of_to. Qed.

Lemma uint_chars_digits d : forallb is_digit (uint_chars d) = true.
Proof. induction d; simpl; auto. Qed.

Lemma to_uint_head p :
  exists c cs, uint_chars (Pos.to_uint p) = c :: cs /\ between 49 57 c = true.
Proof.
  pose proof (DecimalPos.Unsigned.to_of (Pos.to_uint p)) as U.
  rewrite DecimalPos.Unsigned.of_to in U. simpl in U.
  pose proof (DecimalPos.Unsigned.to_uint_nonzero p) as NZ.
  pose proof (DecimalPos.Unsigned.to_uint_nonnil p) as NN.
  destruct (Pos.to_uint p) as [|d|d|d|d|d|d|d|d|d|d] eqn:E;
    try (simpl; eexists; eexists; split; [reflexivity|reflexivity]).
  - congruence.
  - exfalso. unfold Decimal.unorm in U.
    destruct (Decimal.nzhead (Decimal.D0 d)) eqn:H; try discriminate U.
    + exact (NZ U).
    + exact (nzhead_nonzero _ _ H).
Qed.

Lemma span_digits ds rest :
  forallb is_digit ds = true ->
  match rest with c :: _ => is_digit c = false | [] => True end ->
  span is_digit (ds ++ rest) = (ds, rest).
Proof.
  intros F R. induction ds as [|c ds IH]; simpl in *.
  - destruct rest as [|c rest]; [reflexivity|]. simpl. rewrite R. reflexivity.
  - apply andb_true_iff in F. destruct F as [-> F]. rewrite IH by exact F.
    reflexivity.
Qed.

Lemma scan_frac_end rest : ends_number rest -> scan_frac rest = ([], rest).
Proof.
  destruct rest as [|c [|d rest]]; simpl; auto.
  intros (_ & -> & _). reflexivity.
Qed.

Lemma scan_exp_end rest : ends_number rest -> scan_exp rest = ([], rest).
Proof.
  destruct rest as [|c rest]; simpl; auto.
  intros (_ & _ & -> & ->). reflexivity.
Qed.

Lemma nonzero_digit_facts c :
  between 49 57 c = true -> N.eqb c 45 = false /\ N.eqb c 48 = false.
Proof.
  unfold between. intros H. apply andb_true_iff in H. destruct H as [A B].
  apply N.leb_le in A. apply N.leb_le in B.
  split; apply N.eqb_neq; lia.
Qed.

Lemma scan_int_part_pos p rest :
  ends_number rest ->
  scan_int_part (uint_chars (Pos.to_uint p) ++ rest)
  = Some (uint_chars (Pos.to_uint p), rest).
Proof.
  intros T. destruct (to_uint_head p) as (c & cs & E & C).
  pose proof (uint_chars_digits (Pos.to_uint p)) as F.
  assert (Sp: span is_digit (uint_chars (Pos.to_uint p) ++ rest)
              = (uint_chars (Pos.to_uint p), rest)).
  { apply span_digits; [exact F|]. destruct rest; [exact I|apply T]. }
  rewrite E in *. destruct (nonzero_digit_facts _ C) as [_ C48].
  cbn [app scan_int_part]. rewrite C48, C. cbn [app] in Sp. rewrite Sp.
  reflexivity.
Qed.

(** [json]'s number scanner reads [repr(z)] back as [z]. *)
Lemma scan_number_repr z rest :
  within_digit_limit z = true ->
  ends_number rest -> scan_number (repr_int z ++ rest) = Ok (PInt z, rest).
Proof.
  unfold within_digit_limit. intros L T.
  destruct z as [|p|p]; cbn [repr_int Z.abs] in *.
  - unfold scan_number. cbn [app N.eqb Pos.eqb scan_int_part scan_sign].
    rewrite (scan_frac_end _ T), (scan_exp_end _ T), L. reflexivity.
  - destruct (to_uint_head p) as (c & cs & E & C).
    destruct (nonzero_digit_facts _ C) as [C45 _].
    unfold scan_number.
    assert (H: scan_sign (uint_chars (Pos.to_uint p) ++ rest)
               = (false, uint_chars (Pos.to_uint p) ++ rest)).
    { rewrite E. cbn [app scan_sign]. rewrite C45. reflexivity. }
    rewrite H, (scan_int_part_pos _ _ T), (scan_frac_end _ T),
      (scan_exp_end _ T), L, digits_value_pos. reflexivity.
  - unfold scan_number. cbn [app N.eqb Pos.eqb scan_sign].
    rewrite (scan_int_part_pos _ _ T), (scan_frac_end _ T),
      (scan_exp_end _ T), L, digits_value_pos. reflexivity.
Qed.

(** Past the digit limit the scanner raises [ValueError] at the number. *)
Lemma scan_number_long z rest :
  within_digit_limit z = false ->
  ends_number rest ->
  scan_number (repr_int z ++ rest) = Err "ValueError"%string.
Proof.
  unfold within_digit_limit. intros L T.
  destruct z as [|p|p]; cbn [repr_int Z.abs] in *.
  - discriminate L.
  - destruct (to_uint_head p) as (c & cs & E & C).
    destruct (nonzero_digit_facts _ C) as [C45 _].
    unfold scan_number.
    assert (H: scan_sign (uint_chars (Pos.to_uint p) ++ rest)
               = (false, uint_chars (Pos.to_uint p) ++ rest)).
    { rewrite E. cbn [app scan_sign]. rewrite C45. reflexivity. }
    rewrite H, (scan_int_part_pos _ _ T), (scan_frac_end _ T),
      (scan_exp_end _ T), L. reflexivity.
  - unfold scan_number. cbn [app N.eqb Pos.eqb scan_sign].
    rewrite (scan_int_part_pos _ _ T), (scan_frac_end _ T),
      (scan_exp_end _ T), L. reflexivity.
Qed.

Lemma repr_int_head z :
  exists c cs, repr_int z = c :: cs /\
    (is_digit c = true \/
     (N.eqb c 45 = true /\ exists d ds, cs = d :: ds /\ is_digit d = true)).
Proof.
  destruct z as [|p|p]; cbn [repr_int].
  - exists 48%N, []. split; auto.
  - destruct (to_uint_head p) as (c & cs & E & C).
    pose proof (uint_chars_digits (Pos.to_uint p)) as F.
    rewrite E in *. cbn [forallb] in F. apply andb_true_iff in F.
    exists c, cs. split; [reflexivity|tauto].
  - destruct (to_uint_head p) as (c & cs & E & C).
    pose proof (uint_chars_digits (Pos.to_uint p)) as F.
    rewrite E in *. cbn [forallb] in F. apply andb_true_iff in F.
    exists 45%N, (c :: cs). split; [reflexivity|]. right. split; auto.
    exists c, cs. tauto.
Qed.

Lemma digit_range c : is_digit c = true -> (48 <= c <= 57)%N.
Proof.
  unfold is_digit, between. intros H. apply andb_true_iff in H.
  destruct H as [A B]. apply N.leb_le in A. apply N.leb_le in B. lia.
Qed.

Lemma after_prefix_head x w c cs :
  x <> c -> after_prefix (x :: w) (c :: cs) = None.
Proof.
  intros H. cbn [after_prefix]. apply N.eqb_neq in H. rewrite H. reflexivity.
Qed.

Lemma after_prefix_same x w cs :
  after_prefix (x :: w) (x :: cs) = after_prefix w cs.
Proof. cbn [after_prefix]. rewrite N.eqb_refl. reflexivity. Qed.

(** A value that starts with a digit, or with a minus sign and a digit,
    is scanned as a number. *)
Lemma parse_value_number n depth c cs :
  (is_digit c = true \/
   (N.eqb c 45 = true /\ exists d ds, cs = d :: ds /\ is_digit d = true)) ->
  parse_value (S n) depth (c :: cs) = scan_number (c :: cs).
Proof.
  intros H. cbn [parse_value].
  assert (R: (45 <= c <= 57)%N).
  { destruct H as [D|[M _]]; [apply digit_range in D; lia|].
    apply N.eqb_eq in M. lia. }
  assert (E34: N.eqb c 34 = false) by (apply N.eqb_neq; lia).
  assert (E123: N.eqb c 123 = false) by (apply N.eqb_neq; lia).
  assert (E91: N.eqb c 91 = false) by (apply N.eqb_neq; lia).
  rewrite E34, E123, E91.
  cbn [u list_ascii_of_string map].
  do 5 (rewrite after_prefix_head by (vm_compute; lia)).
  destruct H as [D|(M & d & ds & -> & D)].
  - rewrite after_prefix_head; [reflexivity|].
    apply digit_range in D. vm_compute. lia.
  - apply N.eqb_eq in M. subst c. apply digit_range in D.
    change (N_of_ascii "-") with 45%N. rewrite after_prefix_same.
    rewrite after_prefix_head; [reflexivity|]. vm_compute; lia.
Qed.

Lemma skip_ws_number c cs :
  (is_digit c = true \/ N.eqb c 45 = true) -> skip_ws (c :: cs) = c :: cs.
Proof.
  intros H. cbn [skip_ws].
  assert (R: (45 <= c <= 57)%N).
  { destruct H as [D|M]; [apply digit_range in D; lia|].
    apply N.eqb_eq in M. lia. }
  unfold is_json_ws.
  assert (N.eqb c 32 = false) as -> by (apply N.eqb_neq; lia).
  assert (N.eqb c 9 = false) as -> by (apply N.eqb_neq; lia).
  assert (N.eqb c 10 = false) as -> by (apply N.eqb_neq; lia).
  assert (N.eqb c 13 = false) as -> by (apply N.eqb_neq; lia).
  reflexivity.
Qed.

Lemma json_dump_tracker_text index :
  within_digit_limit index = true ->
  json_dump_tracker index =
  [123; 10; 32; 32; 34; 108; 97; 115; 116; 95; 105; 110; 100; 101; 120; 34;
   58; 32]%N ++ repr_int index ++ [10%N; 125%N].
Proof.
  intros L. unfold json_dump_tracker, int_str. rewrite L. reflexivity.
Qed.

(** Past the digit limit only the 18 characters before the number are
    written. *)
Lemma json_dump_tracker_long index :
  within_digit_limit index = false ->
  json_dump_tracker index =
  [123; 10; 32; 32; 34; 108; 97; 115; 116; 95; 105; 110; 100; 101; 120; 34;
   58; 32]%N.
Proof.
  intros L. unfold json_dump_tracker, int_str. rewrite L. reflexivity.
Qed.

Lemma json_dump_result_fits index :
  within_digit_limit index = true -> json_dump_result index = Ok tt.
Proof. intros L. unfold json_dump_result, int_str. rewrite L. reflexivity. Qed.

Lemma json_dump_result_long index :
  within_digit_limit index = false ->
  json_dump_result index = Err "ValueError"%string.
Proof. intros L. unfold json_dump_result, int_str. rewrite L. reflexivity. Qed.

(** The interpreter lets at least one container be entered. *)
Lemma json_depth_succ {rt : Runtime} :
  exists k, Pos.to_nat json_depth = S k.
Proof. apply Pos2Nat.is_succ. Qed.

(** [json.load] reads what [json.dump] wrote. *)
Lemma json_loads_dump {rt : Runtime} index :
  within_digit_limit index = true ->
  json_loads (json_dump_tracker index) = Ok (tracker_dict index).
Proof.
  intros L.
  unfold json_loads, json_decode.
  destruct json_depth_succ as [depth ->].
  assert (F: exists k, 2 * List.length (json_dump_tracker index) + 2
                       = S (S (S k))).
  { rewrite (json_dump_tracker_text _ L). cbn [app List.length].
    eexists. rewrite Nat.add_comm. cbn [Nat.add Nat.mul]. reflexivity. }
  destruct F as [k ->].
  rewrite (json_dump_tracker_text _ L).
  pose proof (@scan_number_repr index [10%N; 125%N] L) as Num.
  destruct (repr_int_head index) as (c & cs & E & Hc).
  rewrite E in *.
  pose proof (@parse_value_number k depth c (cs ++ [10%N; 125%N])) as PV.
  pose proof (@skip_ws_number c (cs ++ [10%N; 125%N])) as WS.
  cbn [app] in Num.
  rewrite Num in PV.
  2:{ cbn [ends_number]. repeat split; reflexivity. }
  assert (Hc': is_digit c = true \/ N.eqb c 45 = true) by tauto.
  specialize (WS Hc').
  assert (PV': parse_value (S k) depth (c :: cs ++ [10%N; 125%N])
               = Ok (PInt index, [10%N; 125%N])).
  { apply PV. destruct Hc as [D|(M & d & ds & -> & D)]; [left; exact D|].
    right. split; [exact M|]. exists d, (ds ++ [10%N; 125%N]).
    split; [reflexivity|exact D]. }
  clear PV Num.
  cbn [app].
  remember (c :: cs ++ [10%N; 125%N]) as tail eqn:Etail.
  remember (S k) as fuel eqn:Efuel.
  cbn. rewrite WS, PV'. reflexivity.
Qed.

(** ** Running composed commands *)

Lemma result_eta W A (r : result W A) :
  r = {| outcome := outcome r; world := world r; disk := disk r;
         trace := trace r |}.
Proof. destruct r; reflexivity. Qed.

Lemma after_seq W A B ev (r1 : result W A) (r2 : result W B) :
  after ev (seq_result r1 r2) = seq_result (after ev r1) r2.
Proof. reflexivity. Qed.

Lemma after_failed W A B ev (r1 : result W A) e :
  after ev (@failed W A B r1 e) = @failed W A B (after ev r1) e.
Proof. reflexivity. Qed.

Lemma exec_bind W A B (m : machine W) (p : prog A) (f : A -> prog B) :
  forall w d,
  exec m (bind p f) w d =
  match outcome (exec m p w d) with
  | Ok a =>
      seq_result (exec m p w d)
        (exec m (f a) (world (exec m p w d)) (disk (exec m p w d)))
  | Err e => @failed W A B (exec m p w d) e
  end.
Proof.
  induction p as [a|e|o k IH|R o k IH|R o k IH]; intros w d; simpl.
  - unfold seq_result. simpl. apply result_eta.
  - reflexivity.
  - rewrite IH. simpl. destruct (outcome (exec m k w d)); reflexivity.
  - destruct (io_fault m w) as [f0 w1]. destruct (file_step o f0 d) as [a d1].
    rewrite IH. simpl. destruct (outcome (exec m (k a) w1 d1)); reflexivity.
  - destruct (browser m o w) as [a w1].
    rewrite IH. simpl. destruct (outcome (exec m (k a) w1 d)); reflexivity.
Qed.

Lemma exec_try_except W A (m : machine W) (p : prog A) (h : exn -> prog A) :
  forall w d,
  exec m (try_except p h) w d =
  match outcome (exec m p w d) with
  | Ok a => exec m p w d
  | Err e =>
      seq_result (exec m p w d)
        (exec m (h e) (world (exec m p w d)) (disk (exec m p w d)))
  end.
Proof.
  induction p as [a|e|o k IH|R o k IH|R o k IH]; intros w d; simpl.
  - reflexivity.
  - unfold seq_result. simpl. apply result_eta.
  - rewrite IH. simpl. destruct (outcome (exec m k w d)); reflexivity.
  - destruct (io_fault m w) as [f0 w1]. destruct (file_step o f0 d) as [a d1].
    rewrite IH. simpl. destruct (outcome (exec m (k a) w1 d1)); reflexivity.
  - destruct (browser m o w) as [a w1].
    rewrite IH. simpl. destruct (outcome (exec m (k a) w1 d)); reflexivity.
Qed.

Lemma exec_try_except_bind W A B (m : machine W) (p : prog A)
    (k : A -> prog B) (h : exn -> prog B) :
  forall w d,
  exec m (try_except (bind p k) h) w d =
  match outcome (exec m p w d) with
  | Ok a =>
      seq_result (exec m p w d)
        (exec m (try_except (k a) h)
           (world (exec m p w d)) (disk (exec m p w d)))
  | Err e =>
      seq_result (exec m p w d)
        (exec m (h e) (world (exec m p w d)) (disk (exec m p w d)))
  end.
Proof.
  induction p as [a|e|o c IH|R o c IH|R o c IH]; intros w d; simpl.
  - unfold seq_result. simpl. apply result_eta.
  - unfold seq_result. simpl. apply result_eta.
  - rewrite IH. simpl. destruct (outcome (exec m c w d)); reflexivity.
  - destruct (io_fault m w) as [f0 w1]. destruct (file_step o f0 d) as [a d1].
    rewrite IH. simpl. destruct (outcome (exec m (c a) w1 d1)); reflexivity.
  - destruct (browser m o w) as [a w1].
    rewrite IH. simpl. destruct (outcome (exec m (c a) w1 d)); reflexivity.
Qed.

Lemma exec_try_finally W A (m : machine W) (p : prog A) (q : prog unit) :
  forall w d,
  exec m (try_finally p q) w d =
  finally_result (exec m p w d)
    (exec m q (world (exec m p w d)) (disk (exec m p w d))).
Proof.
  induction p as [a|e|o k IH|R o k IH|R o k IH]; intros w d; simpl.
  - rewrite exec_bind. unfold finally_result, seq_result, failed. simpl.
    destruct (outcome (exec m q w d)) as [[]|e]; simpl;
      rewrite ?app_nil_r; reflexivity.
  - rewrite exec_bind. unfold finally_result, seq_result, failed. simpl.
    destruct (outcome (exec m q w d)) as [[]|e']; simpl;
      rewrite ?app_nil_r; reflexivity.
  - rewrite IH. reflexivity.
  - destruct (io_fault m w) as [f0 w1]. destruct (file_step o f0 d) as [a d1].
    rewrite IH. reflexivity.
  - destruct (browser m o w) as [a w1]. rewrite IH. reflexivity.
Qed.

(** ** Commands that never raise *)

Lemma total_exec W A (m : machine W) (p : prog A) :
  total p -> forall w d, exists a, outcome (exec m p w d) = Ok a.
Proof.
  induction p as [a|e|o k IH|R o k IH|R o k IH]; simpl; intros T w d.
  - eauto.
  - contradiction.
  - apply IH. exact T.
  - destruct (io_fault m w) as [f0 w1]. destruct (file_step o f0 d) as [a d1].
    simpl. apply IH. apply T.
  - destruct (browser m o w) as [a w1]. simpl. apply IH. apply T.
Qed.

Lemma total_bind A B (p : prog A) (f : A -> prog B) :
  total p -> (forall a, total (f a)) -> total (bind p f).
Proof.
  induction p as [a|e|o k IH|R o k IH|R o k IH]; simpl; intros T F;
    try contradiction; auto.
Qed.

Lemma total_try_except A (p : prog A) (h : exn -> prog A) :
  (forall e, total (h e)) -> total (try_except p h).
Proof.
  induction p as [a|e|o k IH|R o k IH|R o k IH]; simpl; intros H; auto.
Qed.

Lemma total_log l t args : total (log l t args).
Proof. exact I. Qed.

Lemma total_sleep n : total (sleep n).
Proof. exact I. Qed.

Lemma total_for_each X (xs : list X) body :
  (forall x, total (body x)) -> total (for_each xs body).
Proof.
  intros H. induction xs as [|x xs IH]; simpl; [exact I|].
  apply total_bind; auto.
Qed.

(** ** Properties of every event a command can produce *)

Lemma all_events_exec W A (m : machine W) S (p : prog A) :
  all_events S p -> forall w d, Forall S (trace (exec m p w d)).
Proof.
  induction p as [a|e|o k IH|R o k IH|R o k IH]; simpl; intros H w d.
  - constructor.
  - constructor.
  - destruct H as [H1 H2]. constructor; auto.
  - destruct (io_fault m w) as [f0 w1]. destruct (file_step o f0 d) as [a d1].
    simpl. destruct (H a) as [H1 H2]. constructor; auto.
  - destruct (browser m o w) as [a w1].
    simpl. destruct (H a) as [H1 H2]. constructor; auto.
Qed.

Lemma ae_bind A B S (p : prog A) (f : A -> prog B) :
  all_events S p -> (forall a, all_events S (f a)) -> all_events S (bind p f).
Proof.
  induction p as [a|e|o k IH|R o k IH|R o k IH]; simpl; intros H F; auto.
  - destruct H; auto.
  - intros a. destruct (H a). auto.
  - intros a. destruct (H a). auto.
Qed.

Lemma ae_try_except A S (p : prog A) (h : exn -> prog A) :
  all_events S p -> (forall e, all_events S (h e)) ->
  all_events S (try_except p h).
Proof.
  induction p as [a|e|o k IH|R o k IH|R o k IH]; simpl; intros H F; auto.
  - destruct H; auto.
  - intros a. destruct (H a). auto.
  - intros a. destruct (H a). auto.
Qed.

Lemma ae_try_finally A S (p : prog A) (q : prog unit) :
  all_events S p -> all_events S q -> all_events S (try_finally p q).
Proof.
  induction p as [a|e|o k IH|R o k IH|R o k IH]; simpl; intros H F; auto.
  - apply ae_bind; simpl; auto.
  - apply ae_bind; simpl; auto.
  - destruct H; auto.
  - intros a. destruct (H a). auto.
  - intros a. destruct (H a). auto.
Qed.

Lemma ae_call R S (o : bop R) :
  (forall a, S (EvCall o a)) -> all_events S (call o).
Proof. intros H a. split; [apply H|]. destruct a; exact I. Qed.

Lemma ae_file R S (o : fop R) :
  (forall a, S (EvFile o a)) -> all_events S (file o).
Proof. intros H a. split; [apply H|]. destruct a; exact I. Qed.

Lemma ae_of_answer R (S : event -> Prop) (a : answer R) :
  all_events S (of_answer a).
Proof. destruct a; exact I. Qed.

Lemma ae_log (S : event -> Prop) l t args :
  S (EvOut (Log l t args)) -> all_events S (log l t args).
Proof. intros H. split; [exact H|exact I]. Qed.

Lemma ae_sleep (S : event -> Prop) n :
  S (EvOut (Sleep n)) -> all_events S (sleep n).
Proof. intros H. split; [exact H|exact I]. Qed.

Lemma ae_for_each X S (xs : list X) body :
  (forall x, In x xs -> all_events S (body x)) ->
  all_events S (for_each xs body).
Proof.
  induction xs as [|x xs IH]; simpl; intros H; [exact I|].
  apply ae_bind; auto.
Qed.

Lemma ae_weaken A (S T : event -> Prop) (p : prog A) :
  (forall ev, S ev -> T ev) -> all_events S p -> all_events T p.
Proof.
  intros ST. induction p as [a|e|o k IH|R o k IH|R o k IH]; simpl; auto.
  - intros [H1 H2]. auto.
  - intros H a. destruct (H a). auto.
  - intros H a. destruct (H a). auto.
Qed.

(** ** The tracker file only changes by a write *)

Lemma file_step_keeps R (o : fop R) f d :
  is_write (EvFile o (fst (file_step o f d))) = false ->
  snd (file_step o f d) = d.
Proof.
  destruct o; simpl; try reflexivity.
  - destruct f as [[e|e n]|]; destruct d; reflexivity.
  - discriminate.
Qed.

Lemma disk_unchanged W A (m : machine W) (p : prog A) :
  forall w d,
  Forall (fun ev => is_write ev = false) (trace (exec m p w d)) ->
  disk (exec m p w d) = d.
Proof.
  induction p as [a|e|o k IH|R o k IH|R o k IH]; simpl; intros w d H.
  - reflexivity.
  - reflexivity.
  - inversion H; subst. auto.
  - destruct (io_fault m w) as [f0 w1].
    pose proof (file_step_keeps o f0 d) as K.
    destruct (file_step o f0 d) as [a d1]. simpl in *.
    inversion H; subst. rewrite IH by assumption. auto.
  - destruct (browser m o w) as [a w1]. simpl in *.
    inversion H; subst. auto.
Qed.

(** ** Views of a trace *)

Lemma silent_exec W A X (f : event -> list X) (m : machine W) (p : prog A) :
  all_events (fun ev => f ev = []) p ->
  forall w d, flat_map f (trace (exec m p w d)) = [].
Proof.
  intros H w d. pose proof (all_events_exec m _ p H w d) as F.
  induction F as [|ev t E _ IH]; simpl; [reflexivity|].
  rewrite E, IH. reflexivity.
Qed.

Lemma no_writes_keeps_disk W A (m : machine W) (p : prog A) w d :
  file_writes (trace (exec m p w d)) = [] -> disk (exec m p w d) = d.
Proof.
  intros H. apply disk_unchanged.
  induction (trace (exec m p w d)) as [|ev t IH]; constructor.
  - unfold file_writes in H. simpl in H. apply app_eq_nil in H.
    destruct H as [H _]. destruct ev as [o|R o a|R o a]; try reflexivity.
    destruct o; try reflexivity. discriminate.
  - apply IH. unfold file_writes in H. simpl in H. apply app_eq_nil in H.
    apply H.
Qed.

(** ** The job tracker *)

(* Reduction leaves these folded. *)
Arguments json_loads : simpl never.
Arguments json_dump_tracker : simpl never.
Arguments json_dump_result : simpl never.
Arguments within_digit_limit : simpl never.

Section Tracker.
Context {rt : Runtime}.

Lemma dict_get_missing items key :
  (forall v, ~ In (key, v) items) -> dict_get items key = PNone.
Proof.
  induction items as [|[k x] items IH]; simpl; intros H; [reflexivity|].
  destruct (str_eqb k key) eqn:E.
  - apply str_eqb_eq in E. subst. exfalso. apply (H x). auto.
  - apply IH. intros v I. apply (H v). auto.
Qed.

Lemma total_load : total load_job_tracker.
Proof.
  unfold load_job_tracker. apply total_bind.
  - intros [b|e]; exact I.
  - intros [|]; [|exact I]. apply total_try_except. intros e. exact I.
Qed.

Lemma total_save index : total (save_job_tracker index).
Proof. unfold save_job_tracker. apply total_try_except. intros e. exact I. Qed.

(** C3.  Neither tracker operation raises, whatever the environment
    answers.  [load_job_tracker] ends with a value; the value is 3411
    when there is no file, when opening or reading the file fails, and
    when [json.load] raises on its text (the text is not JSON, or it is
    past the digit limit or the nesting depth of the decoder), and in
    the last two cases the error is logged.  [save_job_tracker] ends
    normally, and a write that fails is logged. *)
Theorem tracker_never_raises W (m : machine W) w d index :
  let r := exec m load_job_tracker w d in
  let s := exec m (save_job_tracker index) w d in
  (exists v, outcome r = Ok v) /\
  (d = None -> outcome r = Ok 3411%Z) /\
  (forall e, In (Err e) (file_reads (trace r)) ->
     outcome r = Ok 3411%Z /\
     In (ERROR, "Error loading job tracker: {e}"%string, [AExn e])
        (logs (trace r))) /\
  (forall text e, In (Ok text) (file_reads (trace r)) ->
     json_loads text = Err e ->
     outcome r = Ok 3411%Z /\
     In (ERROR, "Error loading job tracker: {e}"%string, [AExn e])
        (logs (trace r))) /\
  outcome s = Ok tt /\
  (forall t e, In (t, Err e) (file_writes (trace s)) ->
     In (ERROR, "Error saving job tracker: {e}"%string, [AExn e])
        (logs (trace s))).
Proof.
  intros r s. split; [apply total_exec, total_load|].
  split; [|split; [|split; [|split]]].
  - intros ->. subst r. unfold load_job_tracker. simpl.
    destruct (io_fault m w) as [f0 w1]. reflexivity.
  - subst r. unfold load_job_tracker. simpl.
    destruct (io_fault m w) as [f0 w1]. destruct d as [text|]; simpl.
    + destruct (io_fault m w1) as [[[e0|e0 n]|] w2]; simpl.
      * intros e [E|[]]. inversion E; subst. auto.
      * intros e [E|[]]. inversion E; subst. auto.
      * destruct (json_loads text) as [v|e1]; simpl.
        -- destruct v; simpl; try (intros e [E|[]]; discriminate E).
           destruct (dict_get items (u "last_index")); simpl;
             try (intros e [E|[]]; discriminate E);
             match goal with
             | |- context [int_conv ?x] => destruct (int_conv x) as [z|ex]
             end; simpl; intros e [E|[]]; discriminate E.
        -- intros e [E|[]]; discriminate E.
    + intros e [].
  - subst r. unfold load_job_tracker. simpl.
    destruct (io_fault m w) as [f0 w1]. destruct d as [text|]; simpl.
    + destruct (io_fault m w1) as [[[e0|e0 n]|] w2]; simpl.
      * intros t e [E|[]]; discriminate E.
      * intros t e [E|[]]; discriminate E.
      * destruct (json_loads text) as [v|e1] eqn:J; simpl.
        -- destruct v; simpl;
             try (intros t e [E|[]] P; inversion E; subst t; congruence).
           destruct (dict_get items (u "last_index")); simpl;
             try (intros t e [E|[]] P; inversion E; subst t; congruence);
             match goal with
             | |- context [int_conv ?x] => destruct (int_conv x) as [z|ex]
             end; simpl; intros t e [E|[]] P; inversion E; subst t;
             congruence.
        -- intros t e [E|[]] P. inversion E; subst t.
           assert (e1 = e) by congruence. subst e1. auto.
    + intros t e [].
  - destruct (total_exec m _ (total_save index) w d) as [[] E]. exact E.
  - subst s. unfold save_job_tracker. simpl.
    destruct (io_fault m w) as [[[e0|e0 n]|] w1]; simpl.
    + intros t e [E|[]]. inversion E; subst. auto.
    + intros t e [E|[]]. inversion E; subst. auto.
    + destruct (json_dump_result index) as [[]|e1]; simpl;
        intros t e [E|[]]; discriminate E.
Qed.

(** What [load_job_tracker] returns when the file is read without
    fault. *)
Lemma load_reads W (m : machine W) w d text :
  In (Ok text) (file_reads (trace (exec m load_job_tracker w d))) ->
  outcome (exec m load_job_tracker w d) =
  Ok (match json_loads text with
      | Ok (PDict items) =>
          match dict_get items (u "last_index") with
          | PNone => DEFAULT_START_JOB_ID
          | v => match py_int v with
                 | Ok z => z
                 | Err _ => DEFAULT_START_JOB_ID
                 end
          end
      | _ => DEFAULT_START_JOB_ID
      end).
Proof.
  unfold load_job_tracker. simpl.
  destruct (io_fault m w) as [f0 w1]. destruct d as [t|]; simpl.
  - destruct (io_fault m w1) as [[[e0|e0 n]|] w2]; simpl;
      try (intros [E|[]]; discriminate E).
    destruct (json_loads t) as [v|e1] eqn:J; simpl.
    + destruct v; simpl;
        try (intros [E|[]]; inversion E; subst; rewrite J; reflexivity).
      destruct (dict_get items (u "last_index")) eqn:G; simpl;
        try (intros [E|[]]; inversion E; subst; rewrite J, G; reflexivity);
        match goal with
        | |- context [int_conv ?x] => destruct (int_conv x) eqn:PI
        end; simpl; intros [E|[]]; inversion E; subst; rewrite J, G;
        simpl; rewrite PI; reflexivity.
    + intros [E|[]]; inversion E; subst; rewrite J; reflexivity.
  - intros [].
Qed.

Lemma save_writes W (m : machine W) w d index :
  io_ok (trace (exec m (save_job_tracker index) w d)) ->
  disk (exec m (save_job_tracker index) w d) = Some (json_dump_tracker index).
Proof.
  unfold save_job_tracker, io_ok. simpl.
  destruct (io_fault m w) as [[[e0|e0 n]|] w1]; simpl.
  - intros [_ H]. exfalso. eapply H. left. reflexivity.
  - intros [_ H]. exfalso. eapply H. left. reflexivity.
  - destruct (json_dump_result index) as [[]|e1]; reflexivity.
Qed.

Lemma load_reads_disk W (m : machine W) w text :
  io_ok (trace (exec m load_job_tracker w (Some text))) ->
  In (Ok text) (file_reads (trace (exec m load_job_tracker w (Some text)))).
Proof.
  unfold load_job_tracker, io_ok. simpl.
  destruct (io_fault m w) as [f0 w1]. simpl.
  destruct (io_fault m w1) as [[[e0|e0 n]|] w2]; simpl; intros [H _].
  - exfalso. eapply H. left. reflexivity.
  - exfalso. eapply H. left. reflexivity.
  - left. reflexivity.
Qed.

(** C4.  For every integer [index] of at most 4300 decimal digits, the
    digit limit of the conversion of an [int] to text: after
    [save_job_tracker index], and after any command that writes nothing
    to the tracker file, a [load_job_tracker] returns [index], provided
    no access to the file failed. *)
Theorem tracker_round_trip W (m : machine W) w d index
    (B : Type) (meanwhile : prog B) :
  let s := exec m (save_job_tracker index) w d in
  let q := exec m meanwhile (world s) (disk s) in
  let r := exec m load_job_tracker (world q) (disk q) in
  within_digit_limit index = true ->
  io_ok (trace s) -> file_writes (trace q) = [] -> io_ok (trace r) ->
  outcome r = Ok index.
Proof.
  intros s q r L Hs Hq Hr.
  assert (D: disk q = Some (json_dump_tracker index)).
  { subst q. rewrite no_writes_keeps_disk by exact Hq.
    apply save_writes. exact Hs. }
  subst r. rewrite D in *.
  rewrite (load_reads _ _ _ _ (load_reads_disk _ _ _ Hr)).
  rewrite (json_loads_dump _ L). reflexivity.
Qed.

(** C10.  When the tracker file is read and parses as a JSON object that
    has no "last_index" key, [load_job_tracker] returns the default
    3411. *)
Theorem load_without_key W (m : machine W) w d text items :
  let r := exec m load_job_tracker w d in
  In (Ok text) (file_reads (trace r)) ->
  json_loads text = Ok (PDict items) ->
  (forall v, ~ In (u "last_index", v) items) ->
  outcome r = Ok 3411%Z.
Proof.
  intros r R J K. subst r. rewrite (load_reads _ _ _ _ R), J.
  rewrite (dict_get_missing _ _ K). reflexivity.
Qed.

End Tracker.

Arguments strip : simpl never.
Arguments findall : simpl never.
Arguments is_valid_email : simpl never.
Arguments repr_int : simpl never.

(** ** Walking a command tree *)

Ltac tot_go :=
  repeat first
    [ apply total_try_except
    | apply total_bind
    | apply total_for_each
    | exact I
    | match goal with
      | |- forall _, _ => intro
      | |- total (match ?x with _ => _ end) => destruct x
      end
    | progress cbn [check_fields] ].

Section Totality.
Context {rt : Runtime}.

Lemma total_get_email_field : total get_email_field.
Proof. unfold get_email_field. tot_go. Qed.

Lemma total_paste_email email : total (paste_email email).
Proof. unfold paste_email. tot_go. Qed.

Lemma total_search : total search_aroflo_email_in_page.
Proof. unfold search_aroflo_email_in_page. tot_go. Qed.

Lemma total_is_installer : total is_installer_checkin_task.
Proof. unfold is_installer_checkin_task. tot_go. Qed.

Lemma total_check : total check_email_field_content.
Proof. unfold check_email_field_content. tot_go. Qed.

Lemma total_save_task id : total (save_task id).
Proof. unfold save_task. tot_go. Qed.

Lemma total_return_to_list id : total (return_to_list id).
Proof. unfold return_to_list. tot_go. Qed.

Lemma total_fill_workflow id : total (fill_workflow id).
Proof.
  unfold fill_workflow.
  repeat first
    [ apply total_search | apply total_paste_email
    | apply total_try_except
    | apply total_bind
    | exact I
    | match goal with
      | |- forall _, _ => intro
      | |- total (match ?x with _ => _ end) => destruct x
      end ].
Qed.

Lemma total_process_task id : total (process_task id).
Proof. unfold process_task. tot_go. Qed.

Lemma total_task_loop a b : total (task_loop a b).
Proof. unfold task_loop. apply total_for_each. apply total_process_task. Qed.

End Totality.

Ltac head_of t := match t with ?f _ => head_of f | _ => t end.

Create HintDb ae discriminated.

Ltac walk leaf :=
  repeat
    match goal with
    | |- all_events _ (bind _ _) => apply ae_bind
    | |- all_events _ (try_except _ _) => apply ae_try_except
    | |- all_events _ (try_finally _ _) => apply ae_try_finally
    | |- all_events _ (call _) => apply ae_call
    | |- all_events _ (file _) => apply ae_file
    | |- all_events _ (log _ _ _) => apply ae_log
    | |- all_events _ (sleep _) => apply ae_sleep
    | |- all_events _ (Ret _) => exact I
    | |- all_events _ (Raise _) => exact I
    | |- all_events _ (match ?x with _ => _ end) => destruct x
    | |- all_events _ (check_fields email_selectors) =>
        unfold email_selectors
    | |- all_events _ (check_fields _) => progress cbn [check_fields]
    | |- all_events _ (of_answer _) => apply ae_of_answer
    | |- all_events _ (File _ _) => cbn [all_events]
    | |- all_events _ (Emit _ _) => cbn [all_events]
    | |- all_events _ (Call _ _) => cbn [all_events]
    | |- all_events _ _ => solve [auto with ae]
    | |- all_events _ ?p => let h := head_of p in progress unfold h
    | |- forall _, _ => intro
    | |- _ /\ _ => split
    | |- _ => solve [leaf]
    end.

Ltac silent_go := walk ltac:(cbv beta; reflexivity).

(** ** Views of composed runs *)

Section Views.
Variables (W X : Type) (f : event -> list X) (m : machine W).

Lemma view_bind A B (p : prog A) (k : A -> prog B) w d :
  flat_map f (trace (exec m (bind p k) w d)) =
  flat_map f (trace (exec m p w d)) ++
  match outcome (exec m p w d) with
  | Ok a =>
      flat_map f
        (trace (exec m (k a) (world (exec m p w d)) (disk (exec m p w d))))
  | Err _ => []
  end.
Proof.
  rewrite exec_bind. destruct (outcome (exec m p w d)); simpl.
  - apply flat_map_app.
  - rewrite app_nil_r. reflexivity.
Qed.

Lemma view_try_except A (p : prog A) (h : exn -> prog A) w d :
  flat_map f (trace (exec m (try_except p h) w d)) =
  flat_map f (trace (exec m p w d)) ++
  match outcome (exec m p w d) with
  | Ok _ => []
  | Err e =>
      flat_map f
        (trace (exec m (h e) (world (exec m p w d)) (disk (exec m p w d))))
  end.
Proof.
  rewrite exec_try_except. destruct (outcome (exec m p w d)); simpl.
  - rewrite app_nil_r. reflexivity.
  - apply flat_map_app.
Qed.

Lemma view_try_finally A (p : prog A) (q : prog unit) w d :
  flat_map f (trace (exec m (try_finally p q) w d)) =
  flat_map f (trace (exec m p w d)) ++
  flat_map f
    (trace (exec m q (world (exec m p w d)) (disk (exec m p w d)))).
Proof. rewrite exec_try_finally. simpl. apply flat_map_app. Qed.

Lemma view_bind_silent_l A B (p : prog A) (k : A -> prog B) w d :
  silent f p ->
  flat_map f (trace (exec m (bind p k) w d)) =
  match outcome (exec m p w d) with
  | Ok a =>
      flat_map f
        (trace (exec m (k a) (world (exec m p w d)) (disk (exec m p w d))))
  | Err _ => []
  end.
Proof. intros H. rewrite view_bind, (silent_exec f m p H). reflexivity. Qed.

Lemma view_bind_silent_r A B (p : prog A) (k : A -> prog B) w d :
  (forall a, silent f (k a)) ->
  flat_map f (trace (exec m (bind p k) w d)) =
  flat_map f (trace (exec m p w d)).
Proof.
  intros H. rewrite view_bind. destruct (outcome (exec m p w d)).
  - rewrite (silent_exec f m _ (H r)). apply app_nil_r.
  - apply app_nil_r.
Qed.

Lemma view_try_except_silent A (p : prog A) (h : exn -> prog A) w d :
  (forall e, silent f (h e)) ->
  flat_map f (trace (exec m (try_except p h) w d)) =
  flat_map f (trace (exec m p w d)).
Proof.
  intros H. rewrite view_try_except. destruct (outcome (exec m p w d)).
  - apply app_nil_r.
  - rewrite (silent_exec f m _ (H e)). apply app_nil_r.
Qed.

Lemma view_try_finally_silent A (p : prog A) (q : prog unit) w d :
  silent f q ->
  flat_map f (trace (exec m (try_finally p q) w d)) =
  flat_map f (trace (exec m p w d)).
Proof.
  intros H. rewrite view_try_finally, (silent_exec f m q H).
  apply app_nil_r.
Qed.

End Views.

(** ** [range] *)

Lemma py_range_empty a b : (b <= a)%Z -> py_range a b = [].
Proof.
  intros H. unfold py_range.
  replace (Z.to_nat (b - a)) with 0 by lia. reflexivity.
Qed.

Lemma py_range_cons a b :
  (a < b)%Z -> py_range a b = a :: py_range (a + 1) b.
Proof.
  intros H. unfold py_range.
  replace (Z.to_nat (b - a)) with (S (Z.to_nat (b - (a + 1)))) by lia.
  simpl. f_equal; [lia|].
  rewrite <- seq_shift, map_map. apply map_ext. intros i. lia.
Qed.

Lemma py_range_bounds a b :
  Forall (fun x => (a <= x < b)%Z) (py_range a b).
Proof.
  unfold py_range. apply Forall_forall. intros x I.
  apply in_map_iff in I. destruct I as (i & <- & I).
  apply in_seq in I. lia.
Qed.

Lemma py_range_sorted a b : StronglySorted Z.lt (py_range a b).
Proof.
  remember (Z.to_nat (b - a)) as n eqn:E. revert a E.
  induction n as [|n IH]; intros a E.
  - rewrite py_range_empty by lia. constructor.
  - rewrite py_range_cons by lia. constructor; [apply IH; lia|].
    eapply Forall_impl; [|apply py_range_bounds]. simpl. intros x. lia.
Qed.

Section Attempts.
Context {rt : Runtime}.

Lemma silent_attempted_paste email : silent attempted_of (paste_email email).
Proof.
  silent_go.
Qed.
Hint Resolve silent_attempted_paste : ae.

Lemma silent_attempted_steps id : silent attempted_of (task_steps id).
Proof.
  silent_go.
Qed.

Lemma attempted_process_task W (m : machine W) w d id :
  attempted (trace (exec m (process_task id) w d)) = [id].
Proof.
  unfold process_task, log, attempted. cbn [bind exec after trace flat_map].
  change (attempted_of (EvOut (Log INFO "Processing Job ID: {job_id}"
                                [AInt id]))) with [id].
  rewrite silent_exec; [reflexivity|].
  apply ae_try_except; [apply silent_attempted_steps|]. silent_go.
Qed.

Lemma attempted_for_each W (m : machine W) ids : forall w d,
  attempted (trace (exec m (for_each ids process_task) w d)) = ids.
Proof.
  induction ids as [|id ids IH]; intros w d; [reflexivity|].
  cbn [for_each]. unfold attempted. rewrite view_bind.
  fold attempted. rewrite attempted_process_task.
  destruct (total_exec m _ (total_process_task id) w d) as [[] E].
  rewrite E. rewrite IH. reflexivity.
Qed.

Lemma silent_attempted_load : silent attempted_of load_job_tracker.
Proof. silent_go. Qed.

Lemma silent_attempted_login U P : silent attempted_of (login U P).
Proof. silent_go. Qed.



End Attempts.

(** ** Skipped tasks *)

Lemma skip_post_app id d t0 t o dk :
  mutations t0 = [] -> file_writes t0 = [] ->
  skip_post id d t o dk -> skip_post id d (t0 ++ t) o dk.
Proof.
  intros M0 W0 [M [(-> & pre & e & a & -> & Wp & D)|(e & -> & Wt & ->)]].
  - split.
    + unfold mutations in *. rewrite flat_map_app, M0, M. reflexivity.
    + left. split; [reflexivity|]. exists (t0 ++ pre), e, a.
      rewrite <- app_assoc. split; [reflexivity|]. split; [|exact D].
      unfold file_writes in *. rewrite flat_map_app, W0, Wp. reflexivity.
  - split.
    + unfold mutations in *. rewrite flat_map_app, M0, M. reflexivity.
    + right. exists e. split; [reflexivity|]. split; [|reflexivity].
      unfold file_writes in *. rewrite flat_map_app, W0, Wt. reflexivity.
Qed.

Lemma skip_post_cons id d ev t o dk :
  mutation_of ev = [] -> write_of ev = [] ->
  skip_post id d t o dk -> skip_post id d (ev :: t) o dk.
Proof.
  intros M Wr. apply (@skip_post_app id d [ev]).
  - unfold mutations. simpl. rewrite M. reflexivity.
  - unfold file_writes. simpl. rewrite Wr. reflexivity.
Qed.

Arguments u : simpl never.
Arguments close_selector : simpl never.
Arguments default_email : simpl never.
Arguments row_xpath : simpl never.
Arguments create_xpath : simpl never.
Arguments label_xpath : simpl never.
Arguments login_url : simpl never.
Arguments Keys_CONTROL : simpl never.

Section Skips.
Context {rt : Runtime}.

Lemma skip_tail_post W (m : machine W) w d id :
  let r := exec m (safe_div_click close_selector 10 ;;
                   save_job_tracker id) w d in
  skip_post id d (trace r) (outcome r) (disk r).
Proof.
  unfold safe_div_click, save_job_tracker. simpl.
  destruct (browser m _ w) as [[e|x] w1]; simpl.
  2:{ split; [reflexivity|]. right. eauto. }
  destruct (browser m _ w1) as [[[]|x] w2]; simpl.
  2:{ split; [reflexivity|]. right. eauto. }
  destruct (browser m _ w2) as [[[]|x] w3]; simpl.
  2:{ split; [reflexivity|]. right. eauto. }
  destruct (io_fault m w3) as [[[x|x n]|] w4]; simpl.
  - (split; [reflexivity|]); left; (split; [reflexivity|]).
    exists [], e, (Err x). repeat split. discriminate.
  - (split; [reflexivity|]); left; (split; [reflexivity|]).
    exists [], e, (Err x). repeat split. discriminate.
  - destruct (json_dump_result id) as [[]|e1] eqn:J; simpl;
      (split; [reflexivity|]); left; (split; [reflexivity|]);
      exists [], e, (Ok tt); unfold save_events; rewrite J; repeat split.
Qed.

Arguments is_installer_checkin_task : simpl never.
Arguments check_email_field_content : simpl never.
Arguments fill_workflow : simpl never.
Arguments save_task : simpl never.
Arguments save_job_tracker : simpl never.
Arguments return_to_list : simpl never.
Arguments safe_div_click : simpl never.
Arguments paste_email : simpl never.
Arguments search_aroflo_email_in_page : simpl never.
Arguments get_email_field : simpl never.
Arguments direct_input : simpl never.
Arguments clipboard_paste : simpl never.
Arguments read_back : simpl never.

Lemma silent_write_installer : silent write_of is_installer_checkin_task.
Proof. silent_go. Qed.
Lemma silent_mutation_installer :
  silent mutation_of is_installer_checkin_task.
Proof. silent_go. Qed.
Lemma silent_skip_installer : silent skip_of is_installer_checkin_task.
Proof. silent_go. Qed.

Lemma silent_write_check : silent write_of check_email_field_content.
Proof. silent_go. Qed.
Lemma silent_mutation_check : silent mutation_of check_email_field_content.
Proof. silent_go. Qed.
Lemma silent_skip_check : silent skip_of check_email_field_content.
Proof. silent_go. Qed.

Lemma silent_skip_fill id :
  silent skip_of
    (fill_workflow id ;; save_task id ;; save_job_tracker id ;;
     return_to_list id).
Proof. silent_go. Qed.

Lemma skip_step W (m : machine W) A (p : prog A) (K : A -> prog unit)
    w d id :
  total p -> silent skip_of p -> silent mutation_of p ->
  silent write_of p ->
  (forall a w',
     let r := exec m (K a) w' d in
     skips (trace r) <> [] -> skip_post id d (trace r) (outcome r) (disk r)) ->
  let r := exec m (bind p K) w d in
  skips (trace r) <> [] -> skip_post id d (trace r) (outcome r) (disk r).
Proof.
  intros T Ss Sm Sw HK. cbv zeta. rewrite exec_bind.
  destruct (total_exec m p T w d) as [a Ea]. rewrite Ea.
  pose proof (silent_exec skip_of m p Ss w d) as Vs.
  pose proof (silent_exec mutation_of m p Sm w d) as Vm.
  pose proof (silent_exec write_of m p Sw w d) as Vw.
  pose proof (no_writes_keeps_disk m p w d Vw) as D.
  cbn [seq_result trace outcome disk]. rewrite D.
  unfold skips at 1. rewrite flat_map_app, Vs. cbn [app]. intros H.
  apply skip_post_app; [exact Vm|exact Vw|]. apply HK. exact H.
Qed.

Lemma task_steps_skip W (m : machine W) w d id :
  let r := exec m (task_steps id) w d in
  skips (trace r) <> [] ->
  skip_post id d (trace r) (outcome r) (disk r).
Proof.
  unfold task_steps. cbn.
  destruct (browser m _ w) as [[[|row rows]|x] w1]; cbn;
    try (intros H; exfalso; apply H; reflexivity).
  destruct (browser m _ w1) as [[link|x] w2]; cbn;
    try (intros H; exfalso; apply H; reflexivity).
  destruct (browser m _ w2) as [[[]|x] w3]; cbn;
    try (intros H; exfalso; apply H; reflexivity).
  intros H. repeat (apply skip_post_cons; [reflexivity|reflexivity|]).
  revert H. apply skip_step;
    auto using total_is_installer, silent_skip_installer,
      silent_mutation_installer, silent_write_installer.
  intros [|] w4.
  - cbn. intros _. apply skip_post_cons; [reflexivity|reflexivity|].
    apply skip_tail_post.
  - apply skip_step;
      auto using total_check, silent_skip_check, silent_mutation_check,
        silent_write_check.
    intros existing w5.
    destruct (if opt_truthy existing then existing else None) as [v|] eqn:E.
    + cbn. intros _. apply skip_post_cons; [reflexivity|reflexivity|].
      apply skip_tail_post.
    + cbv zeta. intros H. exfalso. apply H.
      apply (silent_exec skip_of m _ (silent_skip_fill id)).
Qed.

End Skips.

(** ** The fill operation *)

Arguments is_installer_checkin_task : simpl never.
Arguments check_email_field_content : simpl never.
Arguments fill_workflow : simpl never.
Arguments save_task : simpl never.
Arguments save_job_tracker : simpl never.
Arguments return_to_list : simpl never.
Arguments safe_div_click : simpl never.
Arguments paste_email : simpl never.
Arguments search_aroflo_email_in_page : simpl never.
Arguments get_email_field : simpl never.
Arguments direct_input : simpl never.
Arguments clipboard_paste : simpl never.
Arguments read_back : simpl never.

Section Fill.
Context {rt : Runtime}.

Lemma silent_copy_field : silent copy_of get_email_field.
Proof. silent_go. Qed.

Lemma silent_copy_direct ef email : silent copy_of (direct_input ef email).
Proof. silent_go. Qed.

(** The clipboard transport, step by step. *)
Lemma clipboard_paste_once W (m : machine W) w d ef email :
  let r := exec m (clipboard_paste ef email) w d in
  (exists a, copies (trace r) = [(email, a)]) /\
  (typed (trace r) = [] \/
   exists a, typed (trace r) = [(ef, [Keys_CONTROL; u "v"], a)]) /\
  (outcome r = Ok false ->
   copies (trace r) = [(email, Ok tt)] /\
   typed (trace r) = [(ef, [Keys_CONTROL; u "v"], Ok tt)] /\
   In (WARNING, "Failed to paste email value after all attempts"%string, [])
      (logs (trace r))).
Proof.
  unfold clipboard_paste, read_back. cbn.
  destruct (browser m _ w) as [[[]|x] w1]; cbn.
  2:{ split; [eauto|]. split; [auto|]. discriminate. }
  destruct (browser m _ w1) as [[[]|x] w2]; cbn.
  2:{ split; [eauto|]. split; [auto|]. discriminate. }
  destruct (browser m _ w2) as [[[]|x] w3]; cbn.
  2:{ split; [eauto|]. split; [eauto|]. discriminate. }
  destruct (browser m _ w3) as [[[s|]|x] w4]; cbn.
  - destruct (truthy s); cbn.
    + destruct (str_eqb (strip s) email); cbn;
        (split; [eauto|]); (split; [eauto|]); try discriminate.
      intros _. auto 6.
    + destruct (browser m _ w4) as [[t|x] w5]; cbn.
      * destruct (str_eqb (strip t) email); cbn;
          (split; [eauto|]); (split; [eauto|]); try discriminate.
        intros _. auto 6.
      * split; [eauto|]. split; [eauto|]. discriminate.
  - destruct (browser m _ w4) as [[t|x] w5]; cbn.
    + destruct (str_eqb (strip t) email); cbn;
        (split; [eauto|]); (split; [eauto|]); try discriminate.
      intros _. auto 6.
    + split; [eauto|]. split; [eauto|]. discriminate.
  - split; [eauto|]. split; [eauto|]. discriminate.
Qed.

Ltac cut_at x k :=
  exists x, k; do 3 eexists;
  split; [first [exact I | eassumption]|]; split; reflexivity.

(** The clipboard transport, event by event. *)
Lemma clipboard_paste_steps W (m : machine W) w d ef email :
  let r := exec m (clipboard_paste ef email) w d in
  match outcome r with
  | Ok b =>
      exists x, reading_wf x /\
                trace r = transport_events ef email x /\
                b = str_eqb (strip (reading_result x)) email
  | Err e => transport_cut ef email e (trace r)
  end.
Proof.
  unfold clipboard_paste, read_back, transport_cut. cbn.
  destruct (browser m _ w) as [[[]|x] w1]; cbn.
  2:{ cut_at (from_text None []) 1. }
  destruct (browser m _ w1) as [[[]|x] w2]; cbn.
  2:{ cut_at (from_text None []) 2. }
  destruct (browser m _ w2) as [[[]|x] w3]; cbn.
  2:{ cut_at (from_text None []) 4. }
  destruct (browser m _ w3) as [[v|x] w4]; cbn.
  2:{ cut_at (from_text None []) 6. }
  destruct v as [s|].
  - destruct (truthy s) eqn:Ts; cbn.
    + destruct (str_eqb (strip s) email) eqn:Cmp; cbn;
        exists (from_value s); (split; [exact Ts|]);
        unfold transport_events; cbn; rewrite Cmp; split; reflexivity.
    + destruct (browser m _ w4) as [[t|x] w5]; cbn.
      * destruct (str_eqb (strip t) email) eqn:Cmp; cbn;
          exists (from_text (Some s) t); (split; [exact Ts|]);
          unfold transport_events; cbn; rewrite Cmp; split; reflexivity.
      * cut_at (from_text (Some s) []) 7.
  - cbn. destruct (browser m _ w4) as [[t|x] w5]; cbn.
    + destruct (str_eqb (strip t) email) eqn:Cmp; cbn;
        exists (from_text None t); (split; [exact I|]);
        unfold transport_events; cbn; rewrite Cmp; split; reflexivity.
    + cut_at (from_text None []) 7.
Qed.

(** C6.  The fill operation never raises.  When the field is found and
    the value read back after direct entry differs, once stripped, from
    the intended value, the run is the field lookup, the direct entry
    and one clipboard transport, followed by the "Paste error" line if
    the transport raised; the result is that of the transport, [False]
    if it raised.  A transport that runs to its end is exactly this: the
    value is copied to the clipboard, the field is cleared, the paste
    chord is sent to the field, the field is read again (its "value"
    attribute, or its text when the attribute is missing or empty), and
    the result is whether what was read, stripped, equals the value; a
    transport that raises has made these calls in this order up to the
    one that raised.  So the value is copied to the clipboard exactly
    once, the paste chord is sent at most once, and a transport that
    declares failure has copied once and pasted once. *)
Theorem fill_fallback W (m : machine W) w d email :
  let r := exec m (paste_email email) w d in
  (exists b, outcome r = Ok b) /\
  forall ef cur,
    let r0 := exec m get_email_field w d in
    let r1 := exec m (direct_input ef email) (world r0) (disk r0) in
    let r2 := exec m (clipboard_paste ef email) (world r1) (disk r1) in
    outcome r0 = Ok (Some ef) -> outcome r1 = Ok cur ->
    strip cur <> email ->
    trace r =
      trace r0 ++ trace r1 ++ trace r2 ++
      match outcome r2 with
      | Ok _ => []
      | Err e => [EvOut (Log ERROR "Paste error: {e}" [AExn e])]
      end /\
    outcome r = Ok (match outcome r2 with Ok b => b | Err _ => false end) /\
    (exists a, copies (trace r) = [(email, a)]) /\
    (typed (trace r2) = [] \/
     exists a, typed (trace r2) = [(ef, [Keys_CONTROL; u "v"], a)]) /\
    (outcome r2 = Ok false ->
     copies (trace r) = [(email, Ok tt)] /\
     typed (trace r2) = [(ef, [Keys_CONTROL; u "v"], Ok tt)]) /\
    match outcome r2 with
    | Ok b =>
        exists x, reading_wf x /\
                  trace r2 = transport_events ef email x /\
                  b = str_eqb (strip (reading_result x)) email
    | Err e => transport_cut ef email e (trace r2)
    end.
Proof.
  intros r. split; [apply total_exec, total_paste_email|].
  intros ef cur r0 r1 r2 E0 E1 Ne.
  assert (Cmp: str_eqb (strip cur) email = false).
  { destruct (str_eqb (strip cur) email) eqn:E; [|reflexivity].
    apply str_eqb_eq in E. contradiction. }
  destruct (clipboard_paste_once m (world r1) (disk r1) ef email)
    as ([a Ca] & Ty & Fail). fold r2 in Ca, Ty, Fail.
  pose proof (silent_exec copy_of m _ silent_copy_field w d) as C0.
  pose proof (silent_exec copy_of m _ (silent_copy_direct ef email)
                (world r0) (disk r0)) as C1.
  fold r0 in C0. fold r1 in C1.
  assert (T: trace r =
      trace r0 ++ trace r1 ++ trace r2 ++
      match outcome r2 with
      | Ok _ => []
      | Err e => [EvOut (Log ERROR "Paste error: {e}" [AExn e])]
      end /\
      outcome r = Ok (match outcome r2 with Ok b => b | Err _ => false end)).
  { subst r. unfold paste_email. rewrite exec_try_except, exec_bind.
    fold r0. rewrite E0. cbn [seq_result outcome trace world disk].
    rewrite exec_bind. fold r1. rewrite E1.
    cbn [seq_result outcome trace world disk]. rewrite Cmp. fold r2.
    destruct (outcome r2) as [b|e] eqn:E2.
    - cbn. rewrite E2. rewrite app_nil_r. auto.
    - cbn. rewrite <- !app_assoc. auto. }
  destruct T as [T O]. split; [exact T|]. split; [exact O|].
  assert (C: copies (trace r) = [(email, a)]).
  { rewrite T. unfold copies in *. rewrite !flat_map_app, C0, C1, Ca.
    destruct (outcome r2); reflexivity. }
  split; [eauto|]. split; [exact Ty|].
  split; [|exact (clipboard_paste_steps m (world r1) (disk r1) ef email)].
  intros F. destruct (Fail F) as (Ca' & Ty' & _). split; [|exact Ty'].
  rewrite C. rewrite Ca in Ca'. exact Ca'.
Qed.

End Fill.

(** ** The fill workflow *)

Arguments aroflo_pattern : simpl never.

Section Fallback.
Context {rt : Runtime}.

Lemma no_email_found_app t0 t :
  no_email_found (t0 ++ t) -> no_email_found t.
Proof.
  intros H page I. apply H. unfold page_reads in *.
  rewrite flat_map_app. apply in_or_app. auto.
Qed.

Lemma fills_once_app W (m : machine W) email t0 t :
  typed t0 = [] -> copies t0 = [] ->
  fills_once m email t -> fills_once m email (t0 ++ t).
Proof.
  intros T0 C0 (pre & w1 & d1 & post & -> & Tp & Cp & Tq & Cq).
  exists (t0 ++ pre), w1, d1, post. rewrite <- app_assoc.
  unfold typed, copies in *. rewrite !flat_map_app, T0, C0, Tp, Cp. auto.
Qed.

Lemma fills_once_cons W (m : machine W) email ev t :
  keys_of ev = [] -> copy_of ev = [] ->
  (no_email_found t -> fills_once m email t) ->
  no_email_found (ev :: t) -> fills_once m email (ev :: t).
Proof.
  intros K C H N. apply (@fills_once_app W m email [ev]).
  - unfold typed. simpl. rewrite K. reflexivity.
  - unfold copies. simpl. rewrite C. reflexivity.
  - apply H. apply (@no_email_found_app [ev]). exact N.
Qed.

Lemma fills_once_here W (m : machine W) email w d post :
  typed post = [] -> copies post = [] ->
  fills_once m email (trace (exec m (paste_email email) w d) ++ post).
Proof. intros T C. exists [], w, d, post. auto. Qed.

(** The page-wide search returns the first match of the page it read. *)
Lemma search_result W (m : machine W) w d :
  let r := exec m search_aroflo_email_in_page w d in
  exists a,
    page_reads (trace r) = [a] /\
    outcome r =
      Ok (match a with Ok page => first_aroflo_email page | Err _ => None end).
Proof.
  unfold search_aroflo_email_in_page, first_aroflo_email. cbn.
  destruct (browser m _ w) as [[page|x] w1]; cbn.
  - exists (Ok page). destruct (findall aroflo_pattern page); cbn; auto.
  - exists (Err x). auto.
Qed.

Lemma silent_keys_search : silent keys_of search_aroflo_email_in_page.
Proof. silent_go. Qed.
Lemma silent_copy_search : silent copy_of search_aroflo_email_in_page.
Proof. silent_go. Qed.

(** After a search that finds nothing, the run goes on as with [None]. *)
Lemma search_step W (m : machine W) (K : option str -> prog unit)
    (h : exn -> prog unit) w d :
  (forall w' d',
     let t := trace (exec m (try_except (K None) h) w' d') in
     no_email_found t -> fills_once m default_email t) ->
  let t := trace (exec m (try_except
                            (bind search_aroflo_email_in_page K) h) w d) in
  no_email_found t -> fills_once m default_email t.
Proof.
  intros HK. cbv zeta. rewrite exec_try_except_bind.
  destruct (search_result m w d) as (a & P & O). cbv zeta in P, O.
  rewrite O. cbn [seq_result trace]. intros N.
  assert (E: match a with
             | Ok page => first_aroflo_email page
             | Err _ => None
             end = None).
  { destruct a as [page|x]; [|reflexivity]. apply N.
    unfold page_reads in *. rewrite flat_map_app, P. left. reflexivity. }
  rewrite E in *.
  apply fills_once_app.
  - apply (silent_exec keys_of m _ silent_keys_search).
  - apply (silent_exec copy_of m _ silent_copy_search).
  - apply HK. eapply no_email_found_app. exact N.
Qed.

Lemma exec_try_raise W A (m : machine W) (p : prog A) w d :
  exec m (try_except p (fun e => Raise e)) w d = exec m p w d.
Proof.
  rewrite exec_try_except. destruct (outcome (exec m p w d)) eqn:E.
  - reflexivity.
  - unfold seq_result. cbn. rewrite app_nil_r, <- E. symmetry.
    apply result_eta.
Qed.

Lemma exec_try_total W A (m : machine W) (p : prog A) h w d :
  total p -> exec m (try_except p h) w d = exec m p w d.
Proof.
  intros T. rewrite exec_try_except.
  destruct (total_exec m p T w d) as [a E]. rewrite E. reflexivity.
Qed.

(** The three places where the fallback literal is pasted end alike. *)
Lemma paste_default_step W (m : machine W) (K : bool -> prog unit)
    (h : exn -> prog unit) w d :
  (forall b, silent keys_of (K b)) -> (forall b, silent copy_of (K b)) ->
  (forall b, total (K b)) ->
  fills_once m default_email
    (trace (exec m (try_except (bind (paste_email default_email) K) h) w d)).
Proof.
  intros SK SC TK. rewrite exec_try_except_bind.
  destruct (total_exec m _ (total_paste_email default_email) w d) as [b E].
  rewrite E. cbn [seq_result trace]. rewrite exec_try_total by apply TK.
  apply fills_once_here.
  - apply (silent_exec keys_of m _ (SK b)).
  - apply (silent_exec copy_of m _ (SC b)).
Qed.

Ltac paste_default :=
  apply paste_default_step;
  [ intros [|]; silent_go | intros [|]; silent_go | intros [|]; exact I ].

Ltac fin :=
  intros _; first [paste_default | rewrite <- exec_try_raise; paste_default].

Ltac fb_cons := apply fills_once_cons; [reflexivity|reflexivity|].

Lemma silent_keys_click sel n : silent keys_of (safe_div_click sel n).
Proof. silent_go. Qed.
Lemma silent_copy_click sel n : silent copy_of (safe_div_click sel n).
Proof. silent_go. Qed.

(** What the fill operation types and copies is its argument. *)
Lemma paste_email_writes W (m : machine W) w d email :
  let t := trace (exec m (paste_email email) w d) in
  Forall (fun k => snd (fst k) = [email] \/
                   snd (fst k) = [Keys_CONTROL; u "v"]) (typed t) /\
  Forall (fun c => fst c = email) (copies t).
Proof.
  cbv zeta.
  assert (A: all_events
    (fun ev =>
       Forall (fun k => snd (fst k) = [email] \/
                        snd (fst k) = [Keys_CONTROL; u "v"]) (keys_of ev) /\
       Forall (fun c => fst c = email) (copy_of ev)) (paste_email email)).
  { walk ltac:(cbv beta; cbn [keys_of copy_of fst snd]; auto). }
  pose proof (all_events_exec m _ _ A w d) as F.
  induction F as [|ev t [K C] _ [IH1 IH2]]; [split; constructor|].
  split.
  - unfold typed. cbn [flat_map]. apply Forall_app. auto.
  - unfold copies. cbn [flat_map]. apply Forall_app. auto.
Qed.

Lemma fills_once_writes W (m : machine W) email t :
  fills_once m email t ->
  Forall (fun k => snd (fst k) = [email] \/
                   snd (fst k) = [Keys_CONTROL; u "v"]) (typed t) /\
  Forall (fun c => fst c = email) (copies t).
Proof.
  intros (pre & w1 & d1 & post & -> & Tp & Cp & Tq & Cq).
  destruct (paste_email_writes m w1 d1 email) as [A B].
  unfold typed, copies in *.
  rewrite !flat_map_app, Tp, Cp, Tq, Cq, !app_nil_r. auto.
Qed.

Lemma fallback_called W (m : machine W) w d id :
  let t := trace (exec m (fill_workflow id) w d) in
  no_email_found t -> fills_once m default_email t.
Proof.
  cbv zeta. rewrite <- exec_try_raise. unfold fill_workflow.
  cbn. fb_cons.
  rewrite exec_try_except_bind.
  match goal with
  | |- context [outcome (exec m ?p w d)] =>
      assert (T: total p) by (apply total_try_except; intro; exact I);
      destruct (total_exec m p T w d) as [clicked E]; rewrite E;
      pose proof (silent_exec keys_of m p
                    ltac:(silent_go) w d) as K0;
      pose proof (silent_exec copy_of m p
                    ltac:(silent_go) w d) as C0
  end.
  cbn [seq_result trace]. intros N. apply fills_once_app; [exact K0|exact C0|].
  apply no_email_found_app in N. revert N.
  apply search_step. intros w1 d1. cbn.
  destruct clicked.
  - rewrite exec_try_raise. cbn.
    destruct (browser m _ w1) as [[btn|x] w2]; cbn; fb_cons.
    2:{ fb_cons. fin. }
    destruct (browser m _ w2) as [[[]|x] w3]; cbn; fb_cons.
    2:{ fb_cons. fin. }
    destruct (browser m _ w3) as [[[]|x] w4]; cbn; fb_cons.
    2:{ fb_cons. fin. }
    do 2 fb_cons. apply search_step. intros w5 d5. cbn. fb_cons. fin.
  - rewrite exec_try_raise. cbn. fb_cons. fin.
Qed.

Lemma silent_typed_field : silent keys_of get_email_field.
Proof. silent_go. Qed.

(** One call of the fill operation, up to the first thing it types. *)
Lemma paste_email_entry W (m : machine W) w d email :
  entry_post m email w d.
Proof.
  unfold entry_post. cbv zeta.
  pose proof (silent_exec keys_of m _ silent_typed_field w d) as T0.
  pose proof (silent_exec copy_of m _ silent_copy_field w d) as C0.
  destruct (total_exec m _ total_get_email_field w d) as [f E0].
  unfold paste_email. rewrite exec_try_except, exec_bind, E0.
  cbn [seq_result outcome trace world disk].
  destruct f as [ef|].
  - intros A1 A2. unfold direct_input.
    cbn [bind call exec].
    destruct (browser m (scroll_into_view ef) _) as [a1 w2] eqn:B1.
    cbn [fst snd] in *. subst a1.
    cbn [of_answer bind exec after outcome trace world disk].
    destruct (browser m (clear ef) w2) as [a2 w3] eqn:B2.
    cbn [fst snd] in *. subst a2.
    cbn [of_answer bind exec after outcome trace world disk sleep fst snd].
    destruct (browser m (send_keys ef [email]) w3) as [a3 w4] eqn:B3.
    cbn [fst snd].
    match goal with
    | |- context [after ?ev ?r] => set (rest := r)
    end.
    clearbody rest. unfold typed in *.
    cbn [trace seq_result after outcome world disk].
    destruct (outcome rest) as [b|e] eqn:Er;
      cbn [trace seq_result after outcome world disk];
      rewrite !flat_map_app, T0; cbn [flat_map keys_of app];
      eexists; reflexivity.
  - cbn [bind log exec after seq_result outcome trace world disk].
    unfold typed, copies, logs. rewrite !flat_map_app, T0, C0.
    split; [reflexivity|]. split; [reflexivity|]. split; [reflexivity|].
    apply in_or_app. right. left. reflexivity.
Qed.

(** C7, as the code has it.  When no page-wide search of the fill
    workflow finds a generated address, whether or not the workflow
    button was clicked and whether or not the Create button was tried,
    the fill operation is called exactly once, on "default@aroflo.com";
    whatever is typed into a field is that literal or the paste chord,
    and whatever is copied to the clipboard is that literal.  In that
    call, when the field is found and can be scrolled to and cleared,
    the literal is the first thing typed, into that field; when the
    field is not found, nothing is typed or copied, the call logs that
    it could not find the field and returns [False]. *)
Theorem fallback_literal W (m : machine W) w d id :
  let t := trace (exec m (fill_workflow id) w d) in
  no_email_found t ->
  fills_once m default_email t /\
  Forall (fun k => snd (fst k) = [default_email] \/
                   snd (fst k) = [Keys_CONTROL; u "v"]) (typed t) /\
  Forall (fun c => fst c = default_email) (copies t) /\
  enters_once m default_email t.
Proof.
  intros t N. pose proof (@fallback_called W m w d id N) as F.
  split; [exact F|].
  split; [apply (fills_once_writes F)|].
  split; [apply (fills_once_writes F)|].
  destruct F as (pre & w1 & d1 & post & E & Tp & Cp & Tq & Cq).
  exists pre, w1, d1, post. cbv zeta. subst t.
  split; [exact E|]. rewrite E. unfold typed, copies in *.
  rewrite !flat_map_app, Tp, Cp, Tq, Cq, !app_nil_r.
  split; [reflexivity|]. split; [reflexivity|].
  apply paste_email_entry.
Qed.

End Fallback.

(** ** One task and the tracker file *)

Arguments task_steps : simpl never.
Arguments process_task : simpl never.

Lemma disk_after_writes W A (m : machine W) (p : prog A) : forall w d,
  Forall (fun x => snd x = Ok tt) (file_writes (trace (exec m p w d))) ->
  disk (exec m p w d) = last_write d (file_writes (trace (exec m p w d))).
Proof.
  induction p as [a|e|o k IH|R o k IH|R o k IH]; intros w d; cbn.
  - reflexivity.
  - reflexivity.
  - apply IH.
  - destruct (io_fault m w) as [f0 w1].
    destruct o; cbn.
    + apply IH.
    + destruct f0 as [[x|x n]|]; destruct d; cbn; apply IH.
    + destruct f0 as [[x|x n]|]; cbn; intros H.
      * inversion H; subst. discriminate.
      * inversion H; subst. discriminate.
      * inversion H; subst. rewrite IH by assumption. reflexivity.
  - destruct (browser m o w) as [a w1]. cbn. apply IH.
Qed.

(** The tracker file after a run that wrote to it once. *)
Lemma disk_one_write W A (m : machine W) (p : prog A) : forall w d t x,
  file_writes (trace (exec m p w d)) = [(t, x)] ->
  (x = Ok tt -> disk (exec m p w d) = Some t) /\
  (forall e, x = Err e ->
     disk (exec m p w d) = d \/
     exists n, disk (exec m p w d) = Some (firstn n t)).
Proof.
  induction p as [a|e|o k IH|R o k IH|R o k IH]; intros w d t x; cbn.
  - discriminate.
  - discriminate.
  - destruct o; apply IH.
  - destruct (io_fault m w) as [f0 w1].
    destruct o; cbn.
    + apply IH.
    + destruct f0 as [[y|y n]|]; destruct d; cbn; apply IH.
    + destruct f0 as [[y|y n]|]; cbn; intros H; inversion H; subst;
        match goal with
        | Hw : file_writes (trace (exec m ?q ?w2 ?d2)) = [] |- _ =>
            rewrite (no_writes_keeps_disk m q w2 d2 Hw)
        end.
      * split; [discriminate|]. intros e _. left. reflexivity.
      * split; [discriminate|]. intros e _. right. exists n. reflexivity.
      * split; [reflexivity|]. discriminate.
  - destruct (browser m o w) as [a w1]. cbn. apply IH.
Qed.

Lemma steps_post_app id t0 t o :
  file_writes t0 = [] -> halts t0 = [] ->
  steps_post id t o -> steps_post id (t0 ++ t) o.
Proof.
  unfold steps_post, file_writes, halts, logs. intros W0 H0.
  rewrite !flat_map_app, W0, H0. cbn [app].
  destruct o as [[]|x]; [|auto].
  intros [S|(Hl & a & Wr & Lg)]; [left; exact S|right].
  split; [exact Hl|]. exists a. split; [exact Wr|].
  intros e E. apply in_or_app. right. exact (Lg e E).
Qed.

Lemma steps_post_cons id ev t o :
  write_of ev = [] -> halt_of ev = [] ->
  steps_post id t o -> steps_post id (ev :: t) o.
Proof.
  intros Wr Hl. apply (@steps_post_app id [ev]).
  - unfold file_writes. cbn. rewrite Wr. reflexivity.
  - unfold halts. cbn. rewrite Hl. reflexivity.
Qed.

Section Steps.
Context {rt : Runtime}.

Lemma steps_step W (m : machine W) A (p : prog A) (K : A -> prog unit)
    w d id :
  total p -> silent write_of p -> silent halt_of p ->
  (forall a w' d',
     let r := exec m (K a) w' d' in steps_post id (trace r) (outcome r)) ->
  let r := exec m (bind p K) w d in steps_post id (trace r) (outcome r).
Proof.
  intros T Sw Sh HK. cbv zeta. rewrite exec_bind.
  destruct (total_exec m p T w d) as [a Ea]. rewrite Ea.
  cbn [seq_result trace outcome]. apply steps_post_app.
  - apply (silent_exec write_of m p Sw).
  - apply (silent_exec halt_of m p Sh).
  - apply HK.
Qed.

Lemma save_post W (m : machine W) w d id :
  let r := exec m (save_job_tracker id) w d in
  outcome r = Ok tt /\ halts (trace r) = [] /\
  exists a,
    file_writes (trace r) = [(json_dump_tracker id, a)] /\
    forall e, a = Err e ->
      In (ERROR, "Error saving job tracker: {e}"%string, [AExn e])
         (logs (trace r)).
Proof.
  unfold save_job_tracker. cbn.
  destruct (io_fault m w) as [[[x|x n]|] w1]; cbn.
  - split; [reflexivity|]. split; [reflexivity|]. exists (Err x).
    split; [reflexivity|]. intros e E. inversion E. left. reflexivity.
  - split; [reflexivity|]. split; [reflexivity|]. exists (Err x).
    split; [reflexivity|]. intros e E. inversion E. left. reflexivity.
  - destruct (json_dump_result id) as [[]|e1]; cbn;
      (split; [reflexivity|]); (split; [reflexivity|]); exists (Ok tt);
      (split; [reflexivity|]); discriminate.
Qed.

Lemma skip_tail_steps W (m : machine W) w d id :
  let r := exec m (safe_div_click close_selector 10 ;;
                   save_job_tracker id) w d in
  steps_post id (trace r) (outcome r).
Proof.
  cbv zeta. rewrite exec_bind.
  pose proof (silent_exec write_of m (safe_div_click close_selector 10)
                ltac:(silent_go) w d) as Wc.
  pose proof (silent_exec halt_of m (safe_div_click close_selector 10)
                ltac:(silent_go) w d) as Hc.
  destruct (outcome (exec m (safe_div_click close_selector 10) w d))
    as [[]|x].
  - cbn [seq_result trace outcome].
    match goal with
    | |- context [exec m (save_job_tracker id) ?w1 ?d1] =>
        destruct (save_post m w1 d1 id) as (O & Hs & a & Ws & Lg)
    end.
    rewrite O. right. unfold halts, file_writes, logs in *.
    rewrite !flat_map_app, Wc, Hc, Hs, Ws. cbn [app].
    split; [reflexivity|]. exists a. split; [reflexivity|].
    intros e E. apply in_or_app. right. exact (Lg e E).
  - cbn. auto.
Qed.

Lemma silent_write_fill id : silent write_of (fill_workflow id).
Proof. silent_go. Qed.
Lemma silent_halt_fill id : silent halt_of (fill_workflow id).
Proof. silent_go. Qed.
Lemma silent_write_save_task id : silent write_of (save_task id).
Proof. silent_go. Qed.
Lemma silent_halt_save_task id : silent halt_of (save_task id).
Proof. silent_go. Qed.
Lemma silent_write_return id : silent write_of (return_to_list id).
Proof. silent_go. Qed.
Lemma silent_halt_return id : silent halt_of (return_to_list id).
Proof. silent_go. Qed.
Lemma silent_halt_installer : silent halt_of is_installer_checkin_task.
Proof. silent_go. Qed.
Lemma silent_halt_check : silent halt_of check_email_field_content.
Proof. silent_go. Qed.

Lemma fill_path_steps W (m : machine W) w d id :
  let r := exec m (fill_workflow id ;; save_task id ;;
                   save_job_tracker id ;; return_to_list id) w d in
  steps_post id (trace r) (outcome r).
Proof.
  apply steps_step;
    auto using total_fill_workflow, silent_write_fill, silent_halt_fill.
  intros _ w1 d1.
  apply steps_step;
    auto using total_save_task, silent_write_save_task,
      silent_halt_save_task.
  intros _ w2 d2. cbv zeta. rewrite exec_bind.
  destruct (save_post m w2 d2 id) as (O & Hs & a & Ws & Lg). rewrite O.
  cbn [seq_result trace outcome].
  match goal with
  | |- context [exec m (return_to_list id) ?w3 ?d3] =>
      destruct (total_exec m _ (total_return_to_list id) w3 d3) as [[] E];
      pose proof (silent_exec write_of m _ (silent_write_return id) w3 d3)
        as Wr;
      pose proof (silent_exec halt_of m _ (silent_halt_return id) w3 d3)
        as Hr
  end.
  rewrite E. right. unfold halts, file_writes, logs in *.
  rewrite !flat_map_app, Wr, Hr, Hs, Ws. cbn [app].
  split; [reflexivity|]. exists a. split; [reflexivity|].
  intros e Ee. apply in_or_app. left. exact (Lg e Ee).
Qed.

Lemma task_steps_post W (m : machine W) w d id :
  let r := exec m (task_steps id) w d in
  steps_post id (trace r) (outcome r).
Proof.
  unfold task_steps. cbn.
  destruct (browser m _ w) as [[[|row rows]|x] w1]; cbn; auto.
  destruct (browser m _ w1) as [[link|x] w2]; cbn; auto.
  destruct (browser m _ w2) as [[[]|x] w3]; cbn; auto.
  repeat (apply steps_post_cons; [reflexivity|reflexivity|]).
  apply steps_step;
    auto using total_is_installer, silent_write_installer,
      silent_halt_installer.
  intros [|] w4 d4.
  - cbn. apply steps_post_cons; [reflexivity|reflexivity|].
    apply skip_tail_steps.
  - apply steps_step;
      auto using total_check, silent_write_check, silent_halt_check.
    intros existing w5 d5.
    destruct (if opt_truthy existing then existing else None) as [v|].
    + cbn. apply steps_post_cons; [reflexivity|reflexivity|].
      apply skip_tail_steps.
    + apply fill_path_steps.
Qed.

(** One iteration either halts and writes nothing, or goes through and
    writes its own id once; a write that fails is logged and leaves the
    file as it was or with the start of the text. *)
Lemma process_task_writes W (m : machine W) w d id :
  let r := exec m (process_task id) w d in
  (halts (trace r) <> [] /\ file_writes (trace r) = [] /\ disk r = d) \/
  (halts (trace r) = [] /\
   exists a, file_writes (trace r) = [(json_dump_tracker id, a)] /\
             (a = Ok tt -> disk r = Some (json_dump_tracker id)) /\
             (forall e, a = Err e ->
                In (ERROR, "Error saving job tracker: {e}"%string, [AExn e])
                   (logs (trace r)) /\
                (disk r = d \/
                 exists n,
                   disk r = Some (firstn n (json_dump_tracker id))))).
Proof.
  cbv zeta.
  assert (V: (halts (trace (exec m (process_task id) w d)) <> [] /\
              file_writes (trace (exec m (process_task id) w d)) = []) \/
             (halts (trace (exec m (process_task id) w d)) = [] /\
              exists a, file_writes (trace (exec m (process_task id) w d))
                        = [(json_dump_tracker id, a)] /\
                forall e, a = Err e ->
                  In (ERROR, "Error saving job tracker: {e}"%string,
                      [AExn e])
                     (logs (trace (exec m (process_task id) w d))))).
  { unfold process_task. cbn. rewrite exec_try_except.
    pose proof (task_steps_post m w d id) as P. cbv zeta in P.
    destruct (outcome (exec m (task_steps id) w d)) as [[]|x];
      cbn in P |- *.
    - destruct P as [[Wr Hl]|(Hl & a & Wr & Lg)].
      + left. rewrite Hl. split; [discriminate|exact Wr].
      + right. split; [exact Hl|]. exists a. split; [exact Wr|].
        intros e E. right. exact (Lg e E).
    - destruct P as [Wr Hl]. left. unfold halts, file_writes in *.
      rewrite !flat_map_app, Wr, Hl. cbn. split; [discriminate|reflexivity]. }
  destruct V as [[Hl Wr]|(Hl & a & Wr & Lg)].
  - left. split; [exact Hl|]. split; [exact Wr|].
    apply no_writes_keeps_disk. exact Wr.
  - right. split; [exact Hl|]. exists a. split; [exact Wr|].
    destruct (disk_one_write m (process_task id) w d Wr) as [D1 D2].
    split; [exact D1|]. intros e E. split; [exact (Lg e E)|exact (D2 e E)].
Qed.

End Steps.

(** ** The loop over job ids *)

Lemma last_write_texts d ws :
  last_write d ws =
  match rev (map fst ws) with t :: _ => Some t | [] => d end.
Proof.
  unfold last_write. revert d.
  induction ws as [|x ws IH]; intros d; [reflexivity|].
  cbn [fold_left map rev]. rewrite IH.
  destruct (rev (map fst ws)) as [|t l]; reflexivity.
Qed.

Lemma rev_map_head (ids : list Z) :
  match rev (map json_dump_tracker ids) with
  | t :: _ => Some t
  | [] => None
  end =
  match rev ids with
  | id :: _ => Some (json_dump_tracker id)
  | [] => None
  end.
Proof. rewrite <- map_rev. destruct (rev ids); reflexivity. Qed.

Section Loop.
Context {rt : Runtime}.

Lemma loop_writes W (m : machine W) ids : forall w d,
  StronglySorted Z.lt ids ->
  exists saved,
    map fst (file_writes (trace (exec m (for_each ids process_task) w d)))
    = map json_dump_tracker saved /\
    StronglySorted Z.lt saved /\ incl saved ids.
Proof.
  induction ids as [|id ids IH]; intros w d S.
  - exists []. repeat split; [constructor|apply incl_refl].
  - inversion S as [|x l S' F]; subst. cbn [for_each].
    rewrite exec_bind.
    destruct (total_exec m _ (total_process_task id) w d) as [[] E].
    rewrite E. cbn [seq_result trace].
    match goal with
    | |- context [exec m (for_each ids process_task) ?w1 ?d1] =>
        destruct (IH w1 d1 S') as (saved & Eq & Ss & I)
    end.
    unfold file_writes in *. rewrite flat_map_app, map_app, Eq.
    destruct (process_task_writes m w d id) as [(_ & Wr & _)|(_ & a & Wr & _)];
      unfold file_writes in Wr; rewrite Wr.
    + exists saved. repeat split; auto. apply incl_tl. exact I.
    + exists (id :: saved). repeat split.
      * constructor; [exact Ss|]. rewrite Forall_forall in *.
        intros x Hx. apply F. apply I. exact Hx.
      * intros x [<-|Hx]; [left; reflexivity|right; apply I; exact Hx].
Qed.

(** C8, as the code has it.  In a run of the loop over [a..b], the texts
    written to the tracker file are those of a strictly increasing, hence
    non-decreasing, sequence of job ids within [a..b]; when every write
    succeeds the file ends holding the last of them, and is unchanged
    when there is none.  A task that is not found, or whose failure
    escapes the body, writes nothing and leaves the file as it was;
    every other task calls [save_job_tracker] exactly once, with its own
    id.  If that write succeeds the file holds the text written for the
    id; if it fails, the failure is logged and the file is either as it
    was or holds the first characters of that text.  The text written
    for an id of at most 4300 digits is the JSON object whose
    "last_index" is the id. *)
Theorem watermark_monotone W (m : machine W) w d a b :
  let r := exec m (task_loop a b) w d in
  (exists saved,
     map fst (file_writes (trace r)) = map json_dump_tracker saved /\
     StronglySorted Z.lt saved /\ StronglySorted Z.le saved /\
     Forall (fun id => (a <= id <= b)%Z) saved /\
     (Forall (fun x => snd x = Ok tt) (file_writes (trace r)) ->
      disk r = match rev saved with
               | id :: _ => Some (json_dump_tracker id)
               | [] => d
               end)) /\
  (forall id w' d',
     let s := exec m (process_task id) w' d' in
     (halts (trace s) <> [] /\ file_writes (trace s) = [] /\ disk s = d') \/
     (halts (trace s) = [] /\
      exists x, file_writes (trace s) = [(json_dump_tracker id, x)] /\
                (x = Ok tt -> disk s = Some (json_dump_tracker id)) /\
                (forall e, x = Err e ->
                   In (ERROR, "Error saving job tracker: {e}"%string,
                       [AExn e]) (logs (trace s)) /\
                   (disk s = d' \/
                    exists n,
                      disk s = Some (firstn n (json_dump_tracker id)))))) /\
  (forall id, within_digit_limit id = true ->
     json_loads (json_dump_tracker id) = Ok (tracker_dict id)).
Proof.
  intros r.
  split; [|split; [intros id w' d'; apply process_task_writes
                  |intros id L; apply json_loads_dump, L]].
  subst r. unfold task_loop.
  destruct (loop_writes m w d (py_range_sorted a (b + 1)))
    as (saved & Eq & Ss & I).
  exists saved. split; [exact Eq|]. split; [exact Ss|]. split; [|split].
  - clear - Ss. induction Ss as [|x l S IH F]; constructor; auto.
    eapply Forall_impl; [|exact F]. simpl. intros y. lia.
  - apply Forall_forall. intros x Hx. apply I in Hx.
    pose proof (py_range_bounds a (b + 1)) as B.
    rewrite Forall_forall in B. specialize (B x Hx). lia.
  - intros Ok. rewrite disk_after_writes by exact Ok.
    rewrite last_write_texts, Eq. rewrite <- map_rev.
    destruct (rev saved); reflexivity.
Qed.

(** C9.  The page-wide search never raises and reads the page source
    once.  A value it returns ends with ".aroflo.com", occurs in the
    page as a match of the pattern, and no match of the pattern starts
    earlier in the page; when the page has no match, or cannot be read,
    it returns [None]. *)
Theorem page_search W (m : machine W) w d :
  let r := exec m search_aroflo_email_in_page w d in
  (exists res, outcome r = Ok res) /\
  exists a,
    page_reads (trace r) = [a] /\
    match a with
    | Err _ => outcome r = Ok None
    | Ok page =>
        (forall v, outcome r = Ok (Some v) ->
           (exists x, v = x ++ u ".aroflo.com") /\
           exists pre post,
             aroflo_occurrence page pre v post /\
             forall pre' v' post',
               aroflo_occurrence page pre' v' post' ->
               List.length pre <= List.length pre') /\
        ((forall pre' v' post', ~ aroflo_occurrence page pre' v' post') ->
         outcome r = Ok None)
    end.
Proof.
  intros r. split; [apply total_exec, total_search|].
  destruct (search_result m w d) as (a & P & O). fold r in P, O.
  exists a. split; [exact P|]. destruct a as [page|x]; [|exact O].
  pose proof (first_aroflo_email_spec page) as F.
  destruct (first_aroflo_email page) as [v0|].
  - destruct F as (pre & post & Occ & End & Min). split.
    + intros v Ev. rewrite O in Ev. inversion Ev; subst v0.
      split; [exact End|]. exists pre, post. auto.
    + intros No. exfalso. eapply No. exact Occ.
  - split; [|intros _; exact O].
    intros v Ev. rewrite O in Ev. discriminate.
Qed.

End Loop.

Section Frame.
Context {rt : Runtime}.

(** C5, as the code has it.  A task the decision procedure skips, as an
    "Installer Checkin" or because its field holds a valid e-mail, is
    not mutated.  Either its view is closed and then
    [save_job_tracker] is called with its id, so that the tracker file
    holds the text written for the id if the write succeeds; or closing
    the view raised, the failure was logged as unexpected, nothing was
    written and the tracker file is as it was. *)
Theorem skipped_task_frame W (m : machine W) w d id :
  let r := exec m (process_task id) w d in
  skips (trace r) <> [] ->
  mutations (trace r) = [] /\
  ((exists pre e a,
      trace r = pre ++ close_events e ++ save_events id a /\
      file_writes pre = [] /\
      (a = Ok tt -> disk r = Some (json_dump_tracker id)))
   \/
   (exists e,
      In (ERROR, "Unexpected error while processing task {job_id}: {e}"%string,
          [AInt id; AExn e]) (logs (trace r)) /\
      file_writes (trace r) = [] /\ disk r = d)).
Proof.
  unfold process_task. cbn. rewrite exec_try_except.
  pose proof (@task_steps_skip rt W m w d id) as P. cbv zeta in P.
  destruct (outcome (exec m (task_steps id) w d)) as [[]|x] eqn:O.
  - intros H. destruct (P H) as [M [(_ & pre & e & a & T & Wp & D)|(e & C & _)]].
    2:{ discriminate C. }
    split; [exact M|]. left.
    exists (EvOut (Log INFO "Processing Job ID: {job_id}" [AInt id]) :: pre),
      e, a.
    rewrite T. split; [reflexivity|]. split; [exact Wp|exact D].
  - cbn [seq_result trace disk]. cbn [exec after trace disk log].
    intros H.
    assert (H': skips (trace (exec m (task_steps id) w d)) <> []).
    { intros E. apply H. unfold skips in *. rewrite flat_map_app, E.
      reflexivity. }
    destruct (P H') as [M [(C & _)|(e & C & Wt & D)]]; [discriminate C|].
    inversion C; subst e. split.
    + unfold mutations in *. rewrite flat_map_app, M. reflexivity.
    + right. exists x. split; [|split].
      * unfold logs. cbn [flat_map log_of]. right.
        rewrite flat_map_app. apply in_or_app. right. left. reflexivity.
      * unfold file_writes in *. rewrite flat_map_app, Wt. reflexivity.
      * exact D.
Qed.

End Frame.

(** ** Sample runs *)

Ltac run := vm_compute; reflexivity.

Ltac absent :=
  let H := fresh in
  intros; intro H; vm_compute in H;
  repeat match goal with
         | H : _ \/ _ |- _ => destruct H
         | H : False |- _ => destruct H
         | H : _ = _ |- _ => discriminate H
         end.



(** C2, sample: an address in a field is accepted, so it has the syntax
    of an address and is no placeholder. *)
Lemma email_validity_sample :
  accepts_candidate (u "bob@client.com") = true /\
  email_syntax (strip (u "bob@client.com")) /\
  ~ In (u "bob@client.com") placeholders.
Proof.
  split; [run|].
  destruct email_validity as (_ & _ & _ & _ & _ & H & _).
  apply H. run.
Defined.

(** C3, sample: a tracker file that is no JSON text. *)
Lemma tracker_never_raises_sample :
  let text := u "{oops" in
  let r :=
    exec offline (load_job_tracker (rt := sample_runtime)) tt (Some text) in
  In (Ok text) (file_reads (trace r)) /\
  json_loads (rt := sample_runtime) text = Err "JSONDecodeError"%string /\
  outcome r = Ok 3411%Z /\
  In (ERROR, "Error loading job tracker: {e}"%string,
      [AExn "JSONDecodeError"%string]) (logs (trace r)).
Proof.
  assert (H1 : In (Ok (u "{oops"))
                 (file_reads
                    (trace (exec offline
                              (load_job_tracker (rt := sample_runtime)) tt
                              (Some (u "{oops")))))) by (left; run).
  assert (H2 : json_loads (rt := sample_runtime) (u "{oops")
               = Err "JSONDecodeError"%string) by run.
  split; [exact H1|]. split; [exact H2|].
  destruct (@tracker_never_raises sample_runtime unit offline tt
              (Some (u "{oops")) 0%Z) as (_ & _ & _ & H & _).
  exact (H _ _ H1 H2).
Defined.

(** C4, sample: [save(42)], then [load()]. *)
Lemma tracker_round_trip_sample :
  let s := exec offline (save_job_tracker 42) tt None in
  let q := exec offline (Ret tt) (world s) (disk s) in
  let r :=
    exec offline (load_job_tracker (rt := sample_runtime)) (world q) (disk q)
  in
  within_digit_limit 42 = true /\
  io_ok (trace s) /\ file_writes (trace q) = [] /\ io_ok (trace r) /\
  outcome r = Ok 42%Z.
Proof.
  assert (H1 : io_ok (trace (exec offline (save_job_tracker 42) tt None)))
    by (split; absent).
  assert (H3 : io_ok
                 (trace
                    (exec offline (load_job_tracker (rt := sample_runtime)) tt
                       (Some (json_dump_tracker 42)))))
    by (split; absent).
  split; [reflexivity|].
  split; [exact H1|]. split; [reflexivity|]. split; [exact H3|].
  exact (@tracker_round_trip sample_runtime unit offline tt None 42%Z
           unit (Ret tt) eq_refl H1 eq_refl H3).
Defined.

(** C4, counterexample: [save(10 ** 4300)], a number of 4301 digits, then
    [load()].  No access to the file fails: the 18 characters before the
    number are written, the conversion of the number raises [ValueError],
    which [save] logs, and [load] reads a file that is no JSON text and
    returns 3411. *)
Lemma round_trip_past_digit_limit :
  let index := (10 ^ 4300)%Z in
  let head :=
    u "{" ++ [10%N] ++ u "  " ++ dq ++ u "last_index" ++ dq ++ u ": " in
  let s := exec offline (save_job_tracker index) tt None in
  let r :=
    exec offline (load_job_tracker (rt := sample_runtime)) (world s) (disk s)
  in
  List.length (repr_int index) = 4301 /\
  trace s
    = [EvFile (write_text head) (Ok tt);
       EvOut (Log ERROR "Error saving job tracker: {e}"%string
                [AExn "ValueError"%string])] /\
  disk s = Some head /\
  file_reads (trace r) = [Ok head] /\
  In (ERROR, "Error loading job tracker: {e}"%string,
      [AExn "JSONDecodeError"%string]) (logs (trace r)) /\
  outcome r = Ok 3411%Z /\
  (3411 < index)%Z.
Proof.
  assert (E : exec offline (save_job_tracker (10 ^ 4300)) tt None
              = {| outcome := Ok tt; world := tt;
                   disk := Some (u "{" ++ [10%N] ++ u "  " ++ dq
                                 ++ u "last_index" ++ dq ++ u ": ");
                   trace :=
                     [EvFile
                        (write_text
                           (u "{" ++ [10%N] ++ u "  " ++ dq
                            ++ u "last_index" ++ dq ++ u ": "))
                        (Ok tt);
                      EvOut (Log ERROR "Error saving job tracker: {e}"%string
                               [AExn "ValueError"%string])] |}) by run.
  cbv zeta. rewrite E. cbn [world disk trace].
  split; [run|]. split; [reflexivity|]. split; [reflexivity|].
  split; [run|]. split; [vm_compute; tauto|]. split; [run|].
  apply Z.lt_le_trans with (10 ^ 4)%Z; [reflexivity|].
  apply Z.pow_le_mono_r; [reflexivity|discriminate].
Qed.

(** C5, sample: an "Installer Checkin" task whose view closes. *)
Lemma skipped_task_frame_sample :
  let r :=
    exec installer_task (process_task (rt := sample_runtime) 3420) tt None in
  skips (trace r) <> [] /\
  mutations (trace r) = [] /\
  ((exists pre e a,
      trace r = pre ++ close_events e ++ save_events 3420 a /\
      file_writes pre = [] /\
      (a = Ok tt -> disk r = Some (json_dump_tracker 3420)))
   \/
   (exists e,
      In (ERROR, "Unexpected error while processing task {job_id}: {e}"%string,
          [AInt 3420; AExn e]) (logs (trace r)) /\
      file_writes (trace r) = [] /\ disk r = None)).
Proof.
  assert (H : skips
                (trace (exec installer_task
                          (process_task (rt := sample_runtime) 3420) tt None))
              <> []) by (vm_compute; discriminate).
  split; [exact H|].
  exact (@skipped_task_frame sample_runtime unit installer_task tt None
           3420%Z H).
Defined.

(** C5, counterexample: the task is skipped as an "Installer Checkin", the
    button that closes the view never becomes clickable, and the tracker
    is not written; and with a tracker file that cannot be opened the
    view closes and the file still does not hold the job id. *)
Lemma skipped_task_not_recorded :
  let r :=
    exec installer_stuck (process_task (rt := sample_runtime) 3420) tt None in
  let s :=
    exec installer_readonly (process_task (rt := sample_runtime) 3420) tt None
  in
  (skips (trace r) = [[AInt 3420]] /\
   clicks (trace r) = [(2, Ok tt)] /\
   file_writes (trace r) = [] /\
   disk r = None) /\
  (skips (trace s) = [[AInt 3420]] /\
   clicks (trace s) = [(2, Ok tt); (3, Ok tt)] /\
   disk s = None).
Proof. repeat split; run. Qed.

(** C6, sample: a field that drops what is typed into it and takes what
    is pasted.  Direct entry reads back the empty string, the transport
    runs to its end and reads back the value. *)
Lemma fill_fallback_sample :
  let email := u "a@b.co" in
  let r := exec paste_only (paste_email email) ([], []) None in
  let r0 := exec paste_only get_email_field ([], []) None in
  let r1 := exec paste_only (direct_input 3 email) (world r0) (disk r0) in
  let r2 := exec paste_only (clipboard_paste 3 email) (world r1) (disk r1) in
  outcome r0 = Ok (Some 3) /\ outcome r1 = Ok [] /\ strip [] <> email /\
  outcome r2 = Ok true /\
  trace r2 = transport_events 3 email (from_value email) /\
  outcome r = Ok true /\
  copies (trace r) = [(email, Ok tt)] /\
  typed (trace r)
    = [(3, [email], Ok tt); (3, [Keys_CONTROL; u "v"], Ok tt)] /\
  exists x,
    reading_wf x /\
    trace r2 = transport_events 3 email x /\
    true = str_eqb (strip (reading_result x)) email.
Proof.
  assert (H0 : outcome (exec paste_only get_email_field ([], []) None)
               = Ok (Some 3)) by run.
  assert (H1 : outcome
                 (exec paste_only (direct_input 3 (u "a@b.co")) ([], []) None)
               = Ok []) by run.
  assert (H2 : strip [] <> u "a@b.co") by (vm_compute; discriminate).
  assert (H3 : outcome
                 (exec paste_only (clipboard_paste 3 (u "a@b.co")) ([], [])
                    None)
               = Ok true) by run.
  split; [exact H0|]. split; [exact H1|]. split; [exact H2|].
  split; [exact H3|]. split; [run|]. split; [run|]. split; [run|].
  split; [run|].
  destruct (fill_fallback paste_only ([], []) None (u "a@b.co")) as [_ H].
  destruct (H 3 [] H0 H1 H2) as (_ & _ & _ & _ & _ & H6).
  cbv zeta in H6.
  change (world (exec paste_only get_email_field ([], []) None))
    with (@nil N, @nil N) in H6.
  change (disk (exec paste_only get_email_field ([], []) None))
    with (@None str) in H6.
  change (world (exec paste_only (direct_input 3 (u "a@b.co")) ([], []) None))
    with (@nil N, @nil N) in H6.
  change (disk (exec paste_only (direct_input 3 (u "a@b.co")) ([], []) None))
    with (@None str) in H6.
  rewrite H3 in H6. exact H6.
Defined.

(** C6, a transport that declares failure: a field that keeps nothing of
    what is typed or pasted.  Every step of the transport is taken, once,
    and the result is [False]. *)
Lemma transport_declares_failure :
  let email := u "a@b.co" in
  let r := exec deaf_field (paste_email email) tt None in
  let r2 := exec deaf_field (clipboard_paste 3 email) tt None in
  outcome r2 = Ok false /\
  trace r2 = transport_events 3 email (from_text None []) /\
  outcome r = Ok false /\
  copies (trace r) = [(email, Ok tt)] /\
  typed (trace r)
    = [(3, [email], Ok tt); (3, [Keys_CONTROL; u "v"], Ok tt)].
Proof. repeat split; run. Qed.

(** C7, sample: the workflow and the Create button are clicked, the page
    shows no address, and the field is found: the literal is typed into
    it. *)
Lemma fallback_literal_sample :
  let t :=
    trace (exec deaf_field (fill_workflow (rt := sample_runtime) 3423) tt None)
  in
  no_email_found (rt := sample_runtime) t /\
  typed t
    = [(3, [default_email], Ok tt); (3, [Keys_CONTROL; u "v"], Ok tt)] /\
  copies t = [(default_email, Ok tt)] /\
  fills_once deaf_field default_email t /\
  Forall (fun k => snd (fst k) = [default_email] \/
                   snd (fst k) = [Keys_CONTROL; u "v"]) (typed t) /\
  Forall (fun c => fst c = default_email) (copies t) /\
  enters_once deaf_field default_email t.
Proof.
  assert (H : no_email_found (rt := sample_runtime)
                (trace (exec deaf_field
                          (fill_workflow (rt := sample_runtime) 3423)
                          tt None))).
  { intros page H. vm_compute in H.
    repeat match goal with
           | H : _ \/ _ |- _ => destruct H
           | H : False |- _ => destruct H
           | H : Ok _ = Ok _ |- _ => injection H as <-
           end; run. }
  split; [exact H|]. split; [run|]. split; [run|].
  exact (@fallback_literal sample_runtime unit deaf_field tt None 3423%Z H).
Defined.

(** C7, counterexample: task 3423, the workflow button cannot be clicked,
    no address is found, and the field cannot be found either: nothing
    is typed and nothing is copied. *)
Lemma default_not_written :
  let t :=
    trace (exec no_buttons (fill_workflow (rt := sample_runtime) 3423) tt None)
  in
  page_reads t = [Ok []] /\
  first_aroflo_email (rt := sample_runtime) [] = None /\
  typed t = [] /\ copies t = [] /\
  In (ERROR, "Could not find email field to paste into"%string, []) (logs t).
Proof. repeat split; try run. vm_compute. tauto. Qed.

(** C8, sample: two "Installer Checkin" tasks in a row. *)
Lemma watermark_monotone_sample :
  let r :=
    exec installer_task (task_loop (rt := sample_runtime) 3420 3421) tt None in
  Forall (fun x => snd x = Ok tt) (file_writes (trace r)) /\
  exists saved,
    map fst (file_writes (trace r)) = map json_dump_tracker saved /\
    StronglySorted Z.lt saved /\
    disk r = match rev saved with
             | id :: _ => Some (json_dump_tracker id)
             | [] => None
             end.
Proof.
  assert (H : Forall (fun x => snd x = Ok tt)
                (file_writes
                   (trace (exec installer_task
                             (task_loop (rt := sample_runtime) 3420 3421)
                             tt None)))).
  { vm_compute. repeat constructor. }
  split; [exact H|].
  destruct (@watermark_monotone sample_runtime unit installer_task tt None
              3420%Z 3421%Z) as [(saved & H1 & H2 & _ & _ & H5) _].
  exists saved. split; [exact H1|]. split; [exact H2|]. exact (H5 H).
Defined.

(** C8, counterexample: the task is stepped through and [save] is called
    with its id, the tracker file cannot be opened, and the file does not
    hold the id.  And when the write stops after twenty characters, the
    file that held 3419 holds neither 3419 nor 3420, but the start of the
    new text. *)
Lemma watermark_not_persisted :
  let r :=
    exec installer_readonly (process_task (rt := sample_runtime) 3420) tt None
  in
  let s :=
    exec installer_torn (process_task (rt := sample_runtime) 3420) tt
      (Some (json_dump_tracker 3419)) in
  (halts (trace r) = [] /\
   file_writes (trace r)
     = [(json_dump_tracker 3420, Err "PermissionError"%string)] /\
   In (ERROR, "Error saving job tracker: {e}"%string,
       [AExn "PermissionError"%string]) (logs (trace r)) /\
   disk r = None /\
   disk r <> Some (json_dump_tracker 3420)) /\
  (halts (trace s) = [] /\
   file_writes (trace s) = [(json_dump_tracker 3420, Err "OSError"%string)] /\
   In (ERROR, "Error saving job tracker: {e}"%string,
       [AExn "OSError"%string]) (logs (trace s)) /\
   disk s = Some (firstn 20 (json_dump_tracker 3420)) /\
   disk s <> Some (json_dump_tracker 3419) /\
   disk s <> Some (json_dump_tracker 3420)).
Proof.
  repeat split; try run;
    try (vm_compute; tauto); try (vm_compute; discriminate).
Qed.

(** C9, sample: the page shows one generated address. *)
Lemma page_search_sample :
  let r :=
    exec shows_address (search_aroflo_email_in_page (rt := sample_runtime))
      tt None in
  outcome r = Ok (Some (u "job3422@x.aroflo.com")) /\
  exists x, u "job3422@x.aroflo.com" = x ++ u ".aroflo.com".
Proof.
  assert (H : outcome
                (exec shows_address
                   (search_aroflo_email_in_page (rt := sample_runtime))
                   tt None)
              = Ok (Some (u "job3422@x.aroflo.com"))) by run.
  split; [exact H|].
  destruct (@page_search sample_runtime unit shows_address tt None)
    as (_ & a & Ha & Hm).
  vm_compute in Ha. injection Ha as <-.
  destruct Hm as [Hv _]. exact (proj1 (Hv _ H)).
Defined.

(** C10, sample: a tracker file with another key. *)
Lemma load_without_key_sample :
  let text := u "{" ++ dq ++ u "other" ++ dq ++ u ": 1}" in
  let r :=
    exec offline (load_job_tracker (rt := sample_runtime)) tt (Some text) in
  In (Ok text) (file_reads (trace r)) /\
  json_loads (rt := sample_runtime) text
    = Ok (PDict [(u "other", PInt 1)]) /\
  (forall v, ~ In (u "last_index", v) [(u "other", PInt 1)]) /\
  outcome r = Ok 3411%Z.
Proof.
  set (text := u "{" ++ dq ++ u "other" ++ dq ++ u ": 1}").
  assert (H1 : In (Ok text)
                 (file_reads
                    (trace (exec offline
                              (load_job_tracker (rt := sample_runtime)) tt
                              (Some text))))) by (left; run).
  assert (H2 : json_loads (rt := sample_runtime) text
               = Ok (PDict [(u "other", PInt 1)])) by run.
  assert (H3 : forall v, ~ In (u "last_index", v) [(u "other", PInt 1)])
    by absent.
  split; [exact H1|]. split; [exact H2|]. split; [exact H3|].
  exact (@load_without_key sample_runtime unit offline tt (Some text) text
           _ H1 H2 H3).
Defined.

(* ================================================================== *)
(** * Further properties of the script *)

(** ** What a command can return *)

Lemma returns_exec W A (m : machine W) (Q : A -> Prop) (p : prog A) :
  returns Q p -> forall w d a, outcome (exec m p w d) = Ok a -> Q a.
Proof.
  induction p as [x|e|o k IH|R o k IH|R o k IH]; simpl; intros H w d a E.
  - inversion E; subst. exact H.
  - discriminate.
  - eapply IH; eauto.
  - destruct (io_fault m w) as [f0 w1]. destruct (file_step o f0 d) as [b d1].
    simpl in E. eapply IH; eauto.
  - destruct (browser m o w) as [b w1]. simpl in E. eapply IH; eauto.
Qed.

Lemma returns_bind A B (Q : B -> Prop) (p : prog A) (f : A -> prog B) :
  returns (fun a => returns Q (f a)) p -> returns Q (bind p f).
Proof. induction p as [x|e|o k IH|R o k IH|R o k IH]; simpl; auto. Qed.

Lemma returns_try_except A (Q : A -> Prop) (p : prog A) h :
  returns Q p -> (forall e, returns Q (h e)) -> returns Q (try_except p h).
Proof. induction p as [x|e|o k IH|R o k IH|R o k IH]; simpl; auto. Qed.

Lemma returns_weaken A (P Q : A -> Prop) (p : prog A) :
  (forall a, P a -> Q a) -> returns P p -> returns Q p.
Proof. intros PQ. induction p as [x|e|o k IH|R o k IH|R o k IH]; simpl; auto. Qed.

(** ** The validity test, exactly *)

Lemma email_syntax_nonempty t : email_syntax t -> t <> [].
Proof.
  intros (l & dm & tld & -> & Nl & _). destruct l; [congruence|discriminate].
Qed.

(** X1.  [is_valid_email] accepts a text exactly when the text, stripped
    of surrounding white space, has the syntax local@domain.tld of the
    pattern; stripping first does not change the answer. *)
Theorem is_valid_email_exact text :
  (is_valid_email text = true <-> email_syntax (strip text)) /\
  is_valid_email (strip text) = is_valid_email text.
Proof.
  assert (E : forall t, is_valid_email t = true <-> email_syntax (strip t)).
  { intros t. rewrite is_valid_email_iff. split; [tauto|]. intros S.
    split; [|exact S]. intros ->. apply email_syntax_nonempty in S.
    apply S. reflexivity. }
  split; [apply E|].
  destruct (is_valid_email text) eqn:V.
  - apply E. rewrite strip_idem. apply E. exact V.
  - destruct (is_valid_email (strip text)) eqn:V'; [|reflexivity].
    apply E in V'. rewrite strip_idem in V'. apply E in V'. congruence.
Qed.

Lemma cls_local_ascii c :
  cls_local c = true -> c <> 64%N /\ is_space c = false /\ (33 <= c < 127)%N.
Proof.
  unfold cls_local, is_alnum, is_alpha, is_lower, is_upper, is_digit, is_space,
    between.
  rewrite !orb_true_iff, !andb_true_iff, !N.leb_le, !N.eqb_eq. intros H.
  split; [lia|]. split; [|lia].
  rewrite !orb_false_iff, !andb_false_iff, !N.leb_gt, !N.eqb_neq. lia.
Qed.

Lemma cls_domain_local c : cls_domain c = true -> cls_local c = true.
Proof.
  unfold cls_domain, cls_local. rewrite !orb_true_iff. tauto.
Qed.

Lemma cls_letter_local c : cls_letter c = true -> cls_local c = true.
Proof.
  unfold cls_letter, cls_local, is_alnum. rewrite !orb_true_iff. tauto.
Qed.

Lemma count_none (P : N -> bool) (l : str) :
  forallb P l = true -> (forall c, P c = true -> c <> 64%N) ->
  count_occ N.eq_dec l 64%N = 0.
Proof.
  intros F H. apply count_occ_not_In. intros I.
  rewrite forallb_forall in F. apply (H _ (F _ I)). reflexivity.
Qed.

(** X2.  An accepted text, once stripped, contains exactly one "@", no
    white space and only printable ASCII characters, and is at least six
    characters long. *)
Theorem valid_email_shape text :
  is_valid_email text = true ->
  count_occ N.eq_dec (strip text) 64%N = 1 /\
  Forall (fun c => is_space c = false /\ (33 <= c < 127)%N) (strip text) /\
  6 <= List.length (strip text).
Proof.
  intros V. apply is_valid_email_iff in V. destruct V as [_ S].
  destruct S as (l & dm & tld & -> & Nl & Fl & Nd & Fd & Lt & Ft).
  assert (Fd' : forallb cls_local dm = true).
  { rewrite forallb_forall in *. intros c I. apply cls_domain_local; auto. }
  assert (Ft' : forallb cls_local tld = true).
  { rewrite forallb_forall in *. intros c I. apply cls_letter_local; auto. }
  assert (NA : forall c, cls_local c = true -> c <> 64%N)
    by (intros c H; apply cls_local_ascii in H; tauto).
  split; [|split].
  - rewrite !count_occ_app.
    rewrite (count_none cls_local l Fl NA), (count_none cls_local dm Fd' NA),
      (count_none cls_local tld Ft' NA). reflexivity.
  - assert (G : forall s, forallb cls_local s = true ->
                  Forall (fun c => is_space c = false /\ (33 <= c < 127)%N) s).
    { intros s F. apply Forall_forall. intros c I.
      rewrite forallb_forall in F. apply F in I. apply cls_local_ascii in I.
      tauto. }
    repeat (apply Forall_app; split); auto;
      (constructor; [split; [reflexivity|lia]|constructor]).
  - rewrite !length_app. simpl.
    destruct l; [congruence|]. destruct dm; [congruence|]. simpl. lia.
Qed.

(** X3.  The placeholder test of line 120 never changes the answer:
    none of "on", "off", "true", "false" passes [is_valid_email], so a
    value is accepted exactly when [is_valid_email] accepts it. *)
Theorem placeholders_never_valid v :
  accepts_candidate v = is_valid_email v /\
  Forall (fun p => is_valid_email p = false) placeholders.
Proof.
  assert (F : Forall (fun p => is_valid_email p = false) placeholders).
  { repeat constructor. }
  split; [|exact F].
  unfold accepts_candidate. destruct (is_valid_email v) eqn:V; [|reflexivity].
  cbn [andb]. destruct (str_in v placeholders) eqn:I; [|reflexivity].
  apply str_in_In in I. rewrite Forall_forall in F. apply F in I. congruence.
Qed.

(** ** Reading the field *)

Ltac ret_go :=
  repeat
    match goal with
    | |- returns _ (bind _ _) => apply returns_bind
    | |- returns _ (try_except _ _) => apply returns_try_except
    | |- returns _ (call _) => intros [?|?]; cbn [of_answer returns]
    | |- returns _ (log _ _ _) => cbn [log returns]
    | |- returns _ (sleep _) => cbn [sleep returns]
    | |- returns _ (Ret _) => cbn [returns]
    | |- returns _ (Raise _) => exact I
    | |- returns _ (if ?x then _ else _) => destruct x eqn:?
    | |- returns _ (match ?x with _ => _ end) => destruct x eqn:?
    | |- forall _, _ => intro
    end.

Lemma returns_read_field ef : returns (fun v => strip v = v) (read_field_value ef).
Proof.
  assert (F : forall o : option str,
             strip match o with
                   | Some s => if truthy s then strip s else []
                   | None => []
                   end
             = match o with
               | Some s => if truthy s then strip s else []
               | None => []
               end).
  { intros [s|]; [|reflexivity]. destruct (truthy s); [|reflexivity].
    apply strip_idem. }
  unfold read_field_value. ret_go; try exact I;
    first [apply F | exact (F (Some _)) | exact (F None)].
Qed.

Lemma accepted_stripped v :
  strip v = v -> accepts_candidate v = true ->
  email_syntax v /\ ~ In v placeholders /\ strip v = v.
Proof.
  intros S A. apply accepts_candidate_only_if in A. rewrite S in A. tauto.
Qed.

Lemma returns_check_fields sels : returns checked_value (check_fields sels).
Proof.
  induction sels as [|sel sels IH]; cbn [check_fields].
  - exact I.
  - apply returns_bind.
    apply returns_weaken with (P := checked_value).
    + intros [v|] H; cbn [returns]; [exact H|exact IH].
    + apply returns_try_except; [|intros; exact I].
      apply returns_bind. intros [ef|e]; cbn [of_answer returns]; [|exact I].
      apply returns_bind.
      eapply returns_weaken; [|apply returns_read_field].
      intros v S. cbn [log bind returns].
      destruct (accepts_candidate v) eqn:A; cbn [log bind returns]; [|exact I].
      apply accepted_stripped; assumption.
Qed.

Lemma returns_check : returns checked_value check_email_field_content.
Proof.
  unfold check_email_field_content. apply returns_try_except.
  - apply returns_check_fields.
  - intros e. exact I.
Qed.

Lemma silent_keys_check : silent keys_of check_email_field_content.
Proof. silent_go. Qed.
Lemma silent_copy_check : silent copy_of check_email_field_content.
Proof. silent_go. Qed.
Lemma silent_click_check : silent click_of check_email_field_content.
Proof. silent_go. Qed.

(** X4.  [check_email_field_content] never raises, whatever the browser
    answers.  A value it returns has the syntax of an address, is no
    placeholder and carries no surrounding white space.  It reads only:
    nothing is typed, copied or clicked, and the tracker file is not
    written. *)
Theorem check_email_field_content_post W (m : machine W) w d :
  let r := exec m check_email_field_content w d in
  (exists res, outcome r = Ok res) /\
  (forall v, outcome r = Ok (Some v) ->
     email_syntax v /\ ~ In v placeholders /\ strip v = v) /\
  typed (trace r) = [] /\ copies (trace r) = [] /\ clicks (trace r) = [] /\
  file_writes (trace r) = [] /\ disk r = d.
Proof.
  intros r. split; [apply total_exec, total_check|].
  split.
  - intros v E. exact (returns_exec m _ _ returns_check w d E).
  - assert (Wr : file_writes (trace r) = [])
      by apply (silent_exec write_of m _ silent_write_check).
    repeat split.
    + apply (silent_exec keys_of m _ silent_keys_check).
    + apply (silent_exec copy_of m _ silent_copy_check).
    + apply (silent_exec click_of m _ silent_click_check).
    + exact Wr.
    + apply no_writes_keeps_disk. exact Wr.
Qed.

(** ** Finding and filling the field *)

Lemma silent_keys_field : silent keys_of get_email_field.
Proof. silent_go. Qed.
Lemma silent_click_field : silent click_of get_email_field.
Proof. silent_go. Qed.

(** X5.  [get_email_field] never raises and first asks for the
    "Delivery Only" headers.  If that call fails it returns [None] without
    waiting for any field.  Otherwise it waits for the "-15" selector when
    a header was found and for the "-16" selector when none was; if that
    wait succeeds it returns the element, and if it fails it waits for the
    label-based XPath and returns that element, or [None] when that wait
    fails too.  It types, clicks and copies nothing. *)
Theorem get_email_field_resolution W (m : machine W) w d :
  let r := exec m get_email_field w d in
  (exists a t,
     trace r =
       EvCall (find_elements XPATH (u "//th[contains(., 'Delivery Only')]")) a
       :: t /\
     match a with
     | Err _ => outcome r = Ok None /\ clickable_waits (trace r) = []
     | Ok delivery =>
         let selector :=
           match delivery with
           | _ :: _ => u "textarea[id$='-15'], input[id$='-15']"
           | [] => u "textarea[id$='-16'], input[id$='-16']"
           end in
         (exists e,
            clickable_waits (trace r) = [(CSS_SELECTOR, selector, Ok e)] /\
            outcome r = Ok (Some e)) \/
         (exists x a2,
            clickable_waits (trace r)
              = [(CSS_SELECTOR, selector, Err x); (XPATH, label_xpath, a2)] /\
            outcome r = Ok (match a2 with Ok e => Some e | Err _ => None end))
     end) /\
  typed (trace r) = [] /\ clicks (trace r) = [] /\ copies (trace r) = [].
Proof.
  intros r. split.
  - subst r. unfold get_email_field. cbn.
    destruct (browser m _ w) as [[delivery|e] w1]; cbn.
    + exists (Ok delivery).
      destruct delivery as [|x l]; cbn;
        (destruct (browser m _ w1) as [[ef|e1] w2]; cbn;
         [ eexists; split; [reflexivity|]; left; exists ef; split; reflexivity
         | destruct (browser m _ w2) as [[ef|e2] w3]; cbn;
           eexists; (split; [reflexivity|]); right; eexists; eexists;
           (split; reflexivity) ]).
    + exists (Err e). eexists. split; [reflexivity|]. split; reflexivity.
  - repeat split.
    + apply (silent_exec keys_of m _ silent_keys_field).
    + apply (silent_exec click_of m _ silent_click_field).
    + apply (silent_exec copy_of m _ silent_copy_field).
Qed.

Lemma direct_input_typed W (m : machine W) w d ef email cur :
  let r1 := exec m (direct_input ef email) w d in
  outcome r1 = Ok cur ->
  typed (trace r1) = [(ef, [email], Ok tt)] /\ copies (trace r1) = [].
Proof.
  unfold direct_input, read_back. cbn.
  destruct (browser m _ w) as [[[]|x] w1]; cbn; [|discriminate].
  destruct (browser m _ w1) as [[[]|x] w2]; cbn; [|discriminate].
  destruct (browser m _ w2) as [[[]|x] w3]; cbn; [|discriminate].
  destruct (browser m _ w3) as [[[v|]|x] w4]; cbn; [| |discriminate].
  - destruct (truthy v); cbn; [auto|].
    destruct (browser m _ w4) as [[t|x] w5]; cbn; auto.
  - destruct (browser m _ w4) as [[t|x] w5]; cbn; auto.
Qed.

Lemma str_eqb_refl a : str_eqb a a = true.
Proof. apply str_eqb_eq. reflexivity. Qed.

(** X6.  [paste_email] returns [True] exactly when the field is found,
    the direct entry runs to its read-back, and either the value read
    back equals the e-mail once stripped or the clipboard transport
    returns [True]. *)
Theorem paste_email_true_iff W (m : machine W) w d email :
  let r := exec m (paste_email email) w d in
  let r0 := exec m get_email_field w d in
  outcome r = Ok true <->
  exists ef cur,
    let r1 := exec m (direct_input ef email) (world r0) (disk r0) in
    outcome r0 = Ok (Some ef) /\ outcome r1 = Ok cur /\
    (strip cur = email \/
     outcome (exec m (clipboard_paste ef email) (world r1) (disk r1))
       = Ok true).
Proof.
  intros r r0. subst r. unfold paste_email.
  rewrite exec_try_except, exec_bind. fold r0.
  destruct (outcome r0) as [[ef|]|e] eqn:E0;
    cbn [seq_result failed outcome trace world disk].
  - rewrite exec_bind.
    set (r1 := exec m (direct_input ef email) (world r0) (disk r0)).
    destruct (outcome r1) as [cur|e] eqn:E1;
      cbn [seq_result failed outcome trace world disk].
    + destruct (str_eqb (strip cur) email) eqn:C.
      * cbn. split; [|reflexivity]. intros _. exists ef, cur. cbv zeta.
        fold r1. apply str_eqb_eq in C. auto.
      * set (r2 := exec m (clipboard_paste ef email) (world r1) (disk r1)).
        assert (N : strip cur <> email).
        { intros H. apply str_eqb_eq in H. congruence. }
        destruct (outcome r2) as [b|e] eqn:E2; cbn.
        -- rewrite E2. split.
           ++ intros H. exists ef, cur. cbv zeta. fold r1. fold r2.
              rewrite E2. auto.
           ++ intros (ef' & cur' & H0 & H1 & H2). cbv zeta in *.
              inversion H0; subst ef'. fold r1 in H1, H2. rewrite E1 in H1.
              inversion H1; subst cur'. destruct H2 as [H2|H2];
                [contradiction|]. fold r2 in H2. congruence.
        -- split; [discriminate|].
           intros (ef' & cur' & H0 & H1 & H2). cbv zeta in *.
           inversion H0; subst ef'. fold r1 in H1, H2. rewrite E1 in H1.
           inversion H1; subst cur'. destruct H2 as [H2|H2];
             [contradiction|]. fold r2 in H2. congruence.
    + cbn. split; [discriminate|].
      intros (ef' & cur' & H0 & H1 & _). cbv zeta in *.
      inversion H0; subst ef'. fold r1 in H1. congruence.
  - cbn. split; [discriminate|]. intros (ef' & cur' & H0 & _). discriminate.
  - cbn. split; [discriminate|]. intros (ef' & cur' & H0 & _). discriminate.
Qed.

(** X7.  When the field is found and the value read back after the
    direct entry equals the e-mail once stripped, [paste_email] returns
    [True] after the field lookup, the direct entry and one log line: the
    e-mail is typed into the field once and the clipboard is not
    touched. *)
Theorem paste_email_direct W (m : machine W) w d email ef cur :
  let r := exec m (paste_email email) w d in
  let r0 := exec m get_email_field w d in
  let r1 := exec m (direct_input ef email) (world r0) (disk r0) in
  outcome r0 = Ok (Some ef) -> outcome r1 = Ok cur -> strip cur = email ->
  outcome r = Ok true /\
  trace r =
    trace r0 ++ trace r1 ++
    [EvOut (Log INFO "Email pasted successfully: {email}" [AStr email])] /\
  typed (trace r) = [(ef, [email], Ok tt)] /\
  copies (trace r) = [].
Proof.
  intros r r0 r1 E0 E1 C.
  assert (T : outcome r = Ok true /\
              trace r =
                trace r0 ++ trace r1 ++
                [EvOut (Log INFO "Email pasted successfully: {email}"
                          [AStr email])]).
  { subst r. unfold paste_email. rewrite exec_try_except, exec_bind.
    fold r0. rewrite E0. cbn [seq_result outcome trace world disk].
    rewrite exec_bind. fold r1. rewrite E1.
    cbn [seq_result outcome trace world disk].
    rewrite C, str_eqb_refl. cbn. auto. }
  destruct T as [O T]. split; [exact O|]. split; [exact T|].
  destruct (direct_input_typed m (world r0) (disk r0) ef email E1) as [K Cp].
  fold r1 in K, Cp.
  pose proof (silent_exec keys_of m _ silent_keys_field w d) as K0.
  pose proof (silent_exec copy_of m _ silent_copy_field w d) as C0.
  fold r0 in K0, C0.
  rewrite T. unfold typed, copies in *. rewrite !flat_map_app, K0, C0, K, Cp.
  split; reflexivity.
Qed.

(** X8.  When no field is found, [paste_email] logs "Could not find
    email field to paste into" and returns [False], having typed, copied
    and clicked nothing. *)
Theorem paste_email_no_field W (m : machine W) w d email :
  let r := exec m (paste_email email) w d in
  let r0 := exec m get_email_field w d in
  outcome r0 = Ok None ->
  outcome r = Ok false /\
  trace r =
    trace r0 ++
    [EvOut (Log ERROR "Could not find email field to paste into" [])] /\
  typed (trace r) = [] /\ copies (trace r) = [] /\ clicks (trace r) = [].
Proof.
  intros r r0 E0.
  assert (T : outcome r = Ok false /\
              trace r =
                trace r0 ++
                [EvOut (Log ERROR "Could not find email field to paste into"
                          [])]).
  { subst r. unfold paste_email. rewrite exec_try_except, exec_bind.
    fold r0. rewrite E0. cbn. auto. }
  destruct T as [O T]. split; [exact O|]. split; [exact T|].
  pose proof (silent_exec keys_of m _ silent_keys_field w d) as K0.
  pose proof (silent_exec copy_of m _ silent_copy_field w d) as C0.
  pose proof (silent_exec click_of m _ silent_click_field w d) as L0.
  fold r0 in K0, C0, L0.
  rewrite T. unfold typed, copies, clicks in *.
  rewrite !flat_map_app, K0, C0, L0. repeat split.
Qed.

(** ** The page-wide search finds what is there *)

Section Search.
Context {rt : Runtime}.

(** X9.  When the page source is read and holds an occurrence of the
    pattern, the page-wide search returns a value: an occurrence that
    starts no later than the given one. *)
Theorem page_search_complete W (m : machine W) w d page pre v post :
  let r := exec m search_aroflo_email_in_page w d in
  page_reads (trace r) = [Ok page] ->
  aroflo_occurrence page pre v post ->
  exists found pre' post',
    outcome r = Ok (Some found) /\
    aroflo_occurrence page pre' found post' /\
    List.length pre' <= List.length pre.
Proof.
  intros r P Occ.
  destruct (search_result m w d) as (a & Pa & O). cbv zeta in Pa, O.
  fold r in Pa, O. rewrite P in Pa. inversion Pa; subst a.
  pose proof (first_aroflo_email_spec page) as S.
  destruct (first_aroflo_email page) as [found|].
  - destruct S as (pre' & post' & Occ' & _ & Least).
    exists found, pre', post'. split; [exact O|]. split; [exact Occ'|].
    eapply Least. exact Occ.
  - exfalso. eapply S. exact Occ.
Qed.

End Search.

(** ** Torn and odd tracker files *)

Lemma span_split p s : s = fst (span p s) ++ snd (span p s).
Proof.
  induction s as [|c s IH]; simpl; [reflexivity|].
  destruct (p c); [|reflexivity].
  destruct (span p s) as [a b]. simpl in *. rewrite IH at 1. reflexivity.
Qed.

Lemma scan_frac_split s : s = fst (scan_frac s) ++ snd (scan_frac s).
Proof.
  unfold scan_frac. destruct s as [|c [|x s]]; try reflexivity.
  destruct (N.eqb c 46 && is_digit x); [|reflexivity].
  cbn [tl]. pose proof (span_split is_digit (x :: s)) as H.
  destruct (span is_digit (x :: s)) as [a b]. simpl in *. rewrite H at 1.
  reflexivity.
Qed.

Lemma scan_exp_split s : s = fst (scan_exp s) ++ snd (scan_exp s).
Proof.
  unfold scan_exp. destruct s as [|e r]; [reflexivity|].
  destruct (N.eqb e 101 || N.eqb e 69); [|reflexivity].
  destruct r as [|x r'].
  - reflexivity.
  - destruct (N.eqb x 45 || N.eqb x 43).
    + pose proof (span_split is_digit r') as H.
      destruct (span is_digit r') as [[|y es] r2]; [reflexivity|].
      simpl in *. rewrite H at 1. reflexivity.
    + pose proof (span_split is_digit (x :: r')) as H.
      destruct (span is_digit (x :: r')) as [[|y es] r2]; [reflexivity|].
      simpl in *. rewrite H at 1. reflexivity.
Qed.

(** What the number scanner leaves is the end of what it was given. *)
Lemma span_all p s : forallb p (fst (span p s)) = true.
Proof.
  induction s as [|c s IH]; simpl; [reflexivity|].
  destruct (p c) eqn:E; [|reflexivity].
  destruct (span p s) as [a b]. simpl in *. rewrite E, IH. reflexivity.
Qed.

Lemma scan_int_part_inv s ds s2 :
  scan_int_part s = Some (ds, s2) ->
  s = ds ++ s2 /\ forallb is_digit ds = true.
Proof.
  unfold scan_int_part. destruct s as [|c r]; [discriminate|].
  destruct (N.eqb c 48) eqn:C48.
  - apply N.eqb_eq in C48. subst c.
    intros E. inversion E. split; reflexivity.
  - destruct (between 49 57 c); [|discriminate].
    intros E.
    assert (E' : span is_digit (c :: r) = (ds, s2)) by congruence.
    pose proof (span_split is_digit (c :: r)) as H.
    pose proof (span_all is_digit (c :: r)) as A.
    rewrite E' in H, A. split; [exact H|exact A].
Qed.

Lemma filter_all A (p : A -> bool) (l : list A) :
  forallb p l = true -> filter p l = l.
Proof.
  induction l as [|x l IH]; simpl; [reflexivity|].
  intros H. apply andb_true_iff in H. destruct H as [-> H].
  rewrite IH by exact H. reflexivity.
Qed.

(** The number scanner raises [ValueError] only on a text with more
    digits than the limit. *)
Lemma scan_number_few_digits s e :
  List.length (filter is_digit s) <= int_max_str_digits ->
  scan_number s = Err e -> e = "JSONDecodeError"%string.
Proof.
  unfold scan_number. intros L.
  assert (S1 : exists c, s = c ++ snd (scan_sign s)).
  { unfold scan_sign. destruct s as [|c r]; [exists []; reflexivity|].
    destruct (N.eqb c 45); [exists [c]|exists []]; reflexivity. }
  destruct (scan_sign s) as [neg s1]. simpl in S1. destruct S1 as [c1 ->].
  destruct (scan_int_part s1) as [[ds s2]|] eqn:E1;
    [|intros E; inversion E; reflexivity].
  apply scan_int_part_inv in E1. destruct E1 as [-> D].
  destruct (scan_frac s2) as [frac s3]. destruct (scan_exp s3) as [expo s4].
  assert (Le : Nat.leb (List.length ds) int_max_str_digits = true).
  { apply Nat.leb_le. rewrite !filter_app, !length_app in L.
    rewrite (filter_all _ _ D) in L. lia. }
  rewrite Le. destruct frac; destruct expo; discriminate.
Qed.

Lemma scan_number_rest s v rest :
  scan_number s = Ok (v, rest) -> exists c, s = c ++ rest.
Proof.
  unfold scan_number.
  assert (S1 : exists c, s = c ++ snd (scan_sign s)).
  { unfold scan_sign. destruct s as [|c r]; [exists []; reflexivity|].
    destruct (N.eqb c 45); [exists [c]|exists []]; reflexivity. }
  destruct (scan_sign s) as [neg s1]. simpl in S1. destruct S1 as [c1 ->].
  assert (S2 : forall ds s2, scan_int_part s1 = Some (ds, s2) -> s1 = ds ++ s2).
  { unfold scan_int_part. destruct s1 as [|c r]; [discriminate|].
    destruct (N.eqb c 48) eqn:C48.
    - apply N.eqb_eq in C48. subst c.
      intros ds s2 E. inversion E. reflexivity.
    - destruct (between 49 57 c); [|discriminate].
      intros ds s2 E.
      assert (E' : span is_digit (c :: r) = (ds, s2)) by congruence.
      pose proof (span_split is_digit (c :: r)) as H.
      rewrite E' in H. exact H. }
  destruct (scan_int_part s1) as [[ds s2]|]; [|discriminate].
  rewrite (S2 _ _ eq_refl).
  pose proof (scan_frac_split s2) as S3.
  destruct (scan_frac s2) as [frac s3]. simpl in S3. rewrite S3.
  pose proof (scan_exp_split s3) as S4.
  destruct (scan_exp s3) as [expo s4]. simpl in S4. rewrite S4.
  intros E. exists (c1 ++ ds ++ frac ++ expo).
  assert (rest = s4) as ->.
  { destruct frac; destruct expo;
      try destruct (Nat.leb (List.length ds) int_max_str_digits);
      inversion E; reflexivity. }
  rewrite <- !app_assoc. reflexivity.
Qed.

Lemma skip_ws_rest s : exists c, s = c ++ skip_ws s.
Proof.
  induction s as [|x s [c IH]]; simpl; [exists []; reflexivity|].
  destruct (is_json_ws x); [|exists []; reflexivity].
  exists (x :: c). simpl. rewrite <- IH. reflexivity.
Qed.

Lemma Forall_rest A (P : A -> Prop) (c rest : list A) :
  Forall P (c ++ rest) -> Forall P rest.
Proof. intros H. apply Forall_app in H. tauto. Qed.

Lemma parse_value_number_chars n depth s :
  Forall number_char s -> parse_value (S n) depth s = scan_number s.
Proof.
  intros F. destruct s as [|c r]; [reflexivity|].
  inversion F as [|c' r' Pc Pr]; subst.
  cbn [parse_value].
  assert (E34: N.eqb c 34 = false) by (apply N.eqb_neq; unfold number_char in Pc; lia).
  assert (E123: N.eqb c 123 = false) by (apply N.eqb_neq; unfold number_char in Pc; lia).
  assert (E91: N.eqb c 91 = false) by (apply N.eqb_neq; unfold number_char in Pc; lia).
  rewrite E34, E123, E91.
  unfold u. cbn [list_ascii_of_string map].
  do 5 (rewrite after_prefix_head
          by (vm_compute; unfold number_char in Pc; lia)).
  destruct (N.eq_dec c 45) as [->|N45].
  - change (N_of_ascii "-") with 45%N. rewrite after_prefix_same.
    destruct r as [|y r]; [reflexivity|].
    inversion Pr as [|y' r'' Py _]; subst.
    rewrite after_prefix_head; [reflexivity|].
    vm_compute. unfold number_char in Py. lia.
  - rewrite after_prefix_head; [reflexivity|]. vm_compute. lia.
Qed.

(** After a torn number, an object is not closed. *)
Lemma torn_member n depth s :
  Forall number_char s ->
  List.length (filter is_digit s) <= int_max_str_digits ->
  match parse_value (S n) depth (skip_ws s) with
  | Ok (v, r3) =>
      match skip_ws r3 with
      | 125%N :: rest => Ok (PDict (dict_set [] (u "last_index") v), rest)
      | 44%N :: r4 =>
          parse_members (S n) depth (skip_ws r4)
            (dict_set [] (u "last_index") v)
      | _ => syntax_error
      end
  | Err e => Err e
  end = syntax_error.
Proof.
  intros F L.
  destruct (skip_ws_rest s) as [c0 E0].
  assert (F1 : Forall number_char (skip_ws s)).
  { rewrite E0 in F. eapply Forall_rest. exact F. }
  assert (L1 : List.length (filter is_digit (skip_ws s))
               <= int_max_str_digits).
  { rewrite E0, filter_app, length_app in L. lia. }
  rewrite parse_value_number_chars by exact F1.
  destruct (scan_number (skip_ws s)) as [[v r3]|e] eqn:E.
  2:{ rewrite (scan_number_few_digits _ L1 E). reflexivity. }
  apply scan_number_rest in E. destruct E as [c1 E1].
  assert (F2 : Forall number_char r3).
  { rewrite E1 in F1. eapply Forall_rest. exact F1. }
  destruct (skip_ws_rest r3) as [c2 E2].
  assert (F3 : Forall number_char (skip_ws r3)).
  { rewrite E2 in F2. eapply Forall_rest. exact F2. }
  destruct (skip_ws r3) as [|x r4]; [reflexivity|].
  inversion F3 as [|x' r' Px _]; subst. unfold number_char in Px.
  destruct x as [|p]; [lia|].
  do 7 (destruct p as [p|p|]; try reflexivity; try lia).
Qed.

Lemma Forall_firstn_keeps A (P : A -> Prop) (l : list A) n :
  Forall P l -> Forall P (firstn n l).
Proof.
  intros F. revert n. induction F as [|x l Px _ IH]; intros [|n]; simpl;
    constructor; auto.
Qed.

Lemma repr_int_number_chars z : Forall number_char (repr_int z).
Proof.
  assert (D : forall d, Forall number_char (uint_chars d)).
  { intros d. apply Forall_forall. intros c I.
    pose proof (uint_chars_digits d) as F. rewrite forallb_forall in F.
    apply F in I. apply digit_range in I. unfold number_char. lia. }
  destruct z as [|p|p]; cbn [repr_int].
  - constructor; [unfold number_char; lia|constructor].
  - apply D.
  - constructor; [unfold number_char; lia|apply D].
Qed.

Lemma filter_firstn_length A (p : A -> bool) (l : list A) n :
  List.length (filter p (firstn n l)) <= List.length (filter p l).
Proof.
  revert n. induction l as [|x l IH]; intros [|n]; simpl; try lia.
  specialize (IH n). destruct (p x); simpl; lia.
Qed.

(** The digits of the text of [z] are the text of its absolute value. *)
Lemma repr_int_digits z : filter is_digit (repr_int z) = repr_int (Z.abs z).
Proof.
  destruct z as [|p|p]; unfold repr_int, Z.abs; [reflexivity| |].
  - apply filter_all, uint_chars_digits.
  - cbn [filter]. change (is_digit 45) with false. cbn iota.
    apply filter_all, uint_chars_digits.
Qed.

Section Torn.
Context {rt : Runtime}.

(** The 18 characters before the number are no JSON document, and no
    proper prefix of them is. *)
Lemma torn_head n :
  json_loads
    (firstn n
       [123; 10; 32; 32; 34; 108; 97; 115; 116; 95; 105; 110; 100; 101; 120;
        34; 58; 32]%N) = syntax_error.
Proof.
  unfold json_loads, json_decode. destruct json_depth_succ as [depth ->].
  do 19 (destruct n as [|n]; [vm_compute; reflexivity|]).
  vm_compute. reflexivity.
Qed.

(** No proper prefix of the text of the tracker file is a JSON
    document. *)
Lemma torn_text index n :
  n < List.length (json_dump_tracker index) ->
  json_loads (firstn n (json_dump_tracker index)) = syntax_error.
Proof.
  destruct (within_digit_limit index) eqn:Lim.
  2:{ rewrite (json_dump_tracker_long _ Lim). intros _. apply torn_head. }
  rewrite (json_dump_tracker_text _ Lim). intros L.
  unfold json_loads, json_decode. destruct json_depth_succ as [depth ->].
  do 18 (destruct n as [|n]; [vm_compute; reflexivity|]).
  cbn [firstn app]. cbn [List.length app] in L. rewrite length_app in L.
  cbn [List.length] in L.
  assert (F : Forall number_char (firstn n (repr_int index ++ [10%N; 125%N]))).
  { rewrite firstn_app. apply Forall_app. split.
    - apply Forall_firstn_keeps, repr_int_number_chars.
    - destruct (n - List.length (repr_int index)) as [|[|k]] eqn:E;
        [constructor| |lia].
      cbn [firstn]. constructor; [left; reflexivity|constructor]. }
  assert (D : List.length
                (filter is_digit
                   (firstn n (repr_int index ++ [10%N; 125%N])))
              <= int_max_str_digits).
  { etransitivity; [apply filter_firstn_length|].
    rewrite filter_app, repr_int_digits, length_app.
    change (filter is_digit [10%N; 125%N]) with (@nil N).
    cbn [List.length]. rewrite Nat.add_0_r.
    apply Nat.leb_le. exact Lim. }
  set (s := firstn n (repr_int index ++ [10%N; 125%N])) in *.
  match goal with
  | |- context [parse_value ?f _ _] =>
      replace f with (S (S (S (2 * List.length s + 35))))
        by (cbn [List.length]; lia)
  end.
  remember (S (2 * List.length s + 35)) as fuel eqn:Ef.
  cbn. subst fuel.
  rewrite (torn_member _ _ F D). reflexivity.
Qed.

End Torn.

(** X13.  [save_job_tracker index] never raises and writes the tracker
    file exactly once; the file holds the text written if the write
    succeeds, and a write that fails is logged.  When [index] has at most
    4300 decimal digits, the text is a JSON document that decodes to the
    object with the single key "last_index" and the value [index], and a
    write that succeeds is logged as saved.  When [index] has more
    digits, the text is the 18 characters that come before the number,
    which are no JSON document, and after a write that succeeds the
    [ValueError] of the conversion is logged. *)
Theorem save_writes_json_object {rt : Runtime} W (m : machine W) w d index :
  let s := exec m (save_job_tracker index) w d in
  let text := json_dump_tracker index in
  outcome s = Ok tt /\
  exists a,
    file_writes (trace s) = [(text, a)] /\
    (a = Ok tt -> disk s = Some text) /\
    (forall e, a = Err e ->
       logs (trace s)
       = [(ERROR, "Error saving job tracker: {e}"%string, [AExn e])]) /\
    if within_digit_limit index then
      json_loads text = Ok (PDict [(u "last_index", PInt index)]) /\
      (a = Ok tt ->
       logs (trace s)
       = [(INFO, "Saved last processed job index: {index}"%string,
           [AInt index])])
    else
      List.length text = 18 /\
      json_loads text = Err "JSONDecodeError"%string /\
      (a = Ok tt ->
       logs (trace s)
       = [(ERROR, "Error saving job tracker: {e}"%string,
           [AExn "ValueError"%string])]).
Proof.
  intros s text. subst s text.
  assert (T : if within_digit_limit index then
                json_loads (json_dump_tracker index)
                = Ok (PDict [(u "last_index", PInt index)]) /\
                json_dump_result index = Ok tt
              else
                List.length (json_dump_tracker index) = 18 /\
                json_loads (json_dump_tracker index)
                = Err "JSONDecodeError"%string /\
                json_dump_result index = Err "ValueError"%string).
  { destruct (within_digit_limit index) eqn:Lim.
    - split; [apply json_loads_dump, Lim|apply json_dump_result_fits, Lim].
    - rewrite (json_dump_tracker_long _ Lim).
      split; [reflexivity|].
      split; [apply (torn_head 18)|apply json_dump_result_long, Lim]. }
  unfold save_job_tracker. cbn.
  destruct (io_fault m w) as [[[e0|e0 n]|] w1]; cbn.
  - split; [reflexivity|]. exists (Err e0).
    split; [reflexivity|]. split; [discriminate|].
    split; [intros e E; inversion E; reflexivity|].
    destruct (within_digit_limit index); intuition discriminate.
  - split; [reflexivity|]. exists (Err e0).
    split; [reflexivity|]. split; [discriminate|].
    split; [intros e E; inversion E; reflexivity|].
    destruct (within_digit_limit index); intuition discriminate.
  - destruct (within_digit_limit index).
    + destruct T as [T1 T2]. rewrite T2. cbn.
      split; [reflexivity|]. exists (Ok tt).
      split; [reflexivity|]. split; [reflexivity|].
      split; [discriminate|]. split; [exact T1|reflexivity].
    + destruct T as (T0 & T1 & T2). rewrite T2. cbn.
      split; [reflexivity|]. exists (Ok tt).
      split; [reflexivity|]. split; [reflexivity|].
      split; [discriminate|]. split; [exact T0|].
      split; [exact T1|reflexivity].
Qed.

Section TrackerEdges.
Context {rt : Runtime}.

Lemma silent_write_load : silent write_of load_job_tracker.
Proof. silent_go. Qed.

(** A text that was read is the text of the file, read without fault. *)
Lemma load_read_inv W (m : machine W) w d text :
  In (Ok text) (file_reads (trace (exec m load_job_tracker w d))) ->
  d = Some text /\ fst (io_fault m (snd (io_fault m w))) = None.
Proof.
  unfold load_job_tracker. simpl.
  destruct (io_fault m w) as [f0 w1]. destruct d as [t|]; simpl.
  - destruct (io_fault m w1) as [[[e0|e0 n]|] w2]; simpl;
      try (intros [E|[]]; discriminate E).
    destruct (json_loads t) as [v|e1] eqn:J; simpl.
    + destruct v; simpl;
        try (intros [E|[]]; inversion E; subst; auto).
      destruct (dict_get items (u "last_index")) eqn:G; simpl;
        try (intros [E|[]]; inversion E; subst; auto);
        match goal with
        | |- context [int_conv ?x] => destruct (int_conv x) eqn:PI
        end; simpl; intros [E|[]]; inversion E; subst; auto.
    + intros [E|[]]; inversion E; subst; auto.
  - intros [].
Qed.

Ltac load_read R :=
  let D := fresh in
  let F := fresh in
  destruct (load_read_inv _ _ _ _ R) as [D F]; clear R; subst;
  unfold load_job_tracker; simpl;
  match goal with
  | |- context [io_fault ?m ?w] =>
      let f0 := fresh "f" in
      let w1 := fresh "w" in
      destruct (io_fault m w) as [f0 w1]; simpl in F |- *;
      let f1 := fresh "f" in
      let w2 := fresh "w" in
      destruct (io_fault m w1) as [f1 w2]; simpl in F; subst f1; simpl
  end.

Lemma load_unparsed W (m : machine W) w d text e :
  let r := exec m load_job_tracker w d in
  In (Ok text) (file_reads (trace r)) ->
  json_loads text = Err e ->
  outcome r = Ok 3411%Z /\
  In (ERROR, "Error loading job tracker: {e}"%string, [AExn e])
     (logs (trace r)).
Proof.
  intros r R J. subst r. load_read R. rewrite J. simpl.
  split; [reflexivity|left; reflexivity].
Qed.

(** X10.  When the tracker file is read and parses as an object whose
    "last_index" is an integer, whatever its layout and its other keys,
    [load_job_tracker] returns that integer, logs it, and leaves the file
    as it was. *)
Theorem load_stored_integer W (m : machine W) w d text items z :
  let r := exec m load_job_tracker w d in
  In (Ok text) (file_reads (trace r)) ->
  json_loads text = Ok (PDict items) ->
  dict_get items (u "last_index") = PInt z ->
  outcome r = Ok z /\
  In (INFO, "Loaded last processed job index: {last_index}"%string,
      [AObj (PInt z)]) (logs (trace r)) /\
  disk r = d.
Proof.
  intros r R J G. split; [|split].
  - subst r. rewrite (load_reads _ _ _ _ R), J, G. reflexivity.
  - subst r. load_read R. rewrite J. simpl. rewrite G. simpl.
    left. reflexivity.
  - apply no_writes_keeps_disk.
    apply (silent_exec write_of m _ silent_write_load).
Qed.

(** X11.  When the tracker file is read: if [json.load] decodes it to an
    object whose "last_index" is null, [load_job_tracker] returns the
    default 3411; if it decodes it to a value that is not an object,
    [load_job_tracker] returns 3411 and logs the AttributeError; if it
    raises (the text is no JSON document, holds an integer literal of
    more than 4300 digits, or nests deeper than the interpreter allows),
    [load_job_tracker] returns 3411 and logs what it raised. *)
Theorem load_null_or_not_object W (m : machine W) w d text :
  let r := exec m load_job_tracker w d in
  In (Ok text) (file_reads (trace r)) ->
  match json_loads text with
  | Ok (PDict items) =>
      dict_get items (u "last_index") = PNone -> outcome r = Ok 3411%Z
  | Ok _ =>
      outcome r = Ok 3411%Z /\
      In (ERROR, "Error loading job tracker: {e}"%string,
          [AExn "AttributeError"%string]) (logs (trace r))
  | Err e =>
      outcome r = Ok 3411%Z /\
      In (ERROR, "Error loading job tracker: {e}"%string, [AExn e])
         (logs (trace r))
  end.
Proof.
  intros r R. subst r. load_read R.
  destruct (json_loads text) as [v|e] eqn:J; simpl;
    [|split; [reflexivity|left; reflexivity]].
  destruct v; simpl; try (split; [reflexivity|left; reflexivity]).
  intros G. rewrite G. reflexivity.
Qed.

(** X12.  Whatever happens to the write of [save_job_tracker index],
    either the tracker file is as it was before, or a later
    [load_job_tracker] that reads it returns [index], or it returns the
    default 3411 and logs a JSON error: no proper prefix of the text
    written is a JSON document, so a torn write is never read back as a
    different watermark. *)
Theorem torn_write_recovery W (m : machine W) w d index w' :
  let s := exec m (save_job_tracker index) w d in
  let r := exec m load_job_tracker w' (disk s) in
  (forall e, ~ In (Err e) (file_reads (trace r))) ->
  disk s = d \/
  outcome r = Ok index \/
  (outcome r = Ok 3411%Z /\
   In (ERROR, "Error loading job tracker: {e}"%string,
       [AExn "JSONDecodeError"%string]) (logs (trace r))).
Proof.
  intros s r NR.
  assert (D : disk s = d \/
              exists n, disk s = Some (firstn n (json_dump_tracker index))).
  { subst s. unfold save_job_tracker. simpl.
    destruct (io_fault m w) as [[[e0|e0 n]|] w1]; simpl.
    - left. reflexivity.
    - right. exists n. reflexivity.
    - right. exists (List.length (json_dump_tracker index)).
      rewrite firstn_all.
      destruct (json_dump_result index) as [[]|e1]; reflexivity. }
  destruct D as [D|[n D]]; [left; exact D|right].
  subst r. rewrite D in *. clear D.
  assert (R : forall text,
            (forall e, ~ In (Err e)
               (file_reads (trace (exec m load_job_tracker w' (Some text))))) ->
            In (Ok text)
              (file_reads (trace (exec m load_job_tracker w' (Some text))))).
  { intros text H. apply load_reads_disk. split; [exact H|]. intros x e I.
    pose proof (silent_exec write_of m _ silent_write_load w' (Some text))
      as Wr.
    unfold file_writes in I. rewrite Wr in I. destruct I. }
  destruct (Nat.lt_ge_cases n (List.length (json_dump_tracker index)))
    as [Lt|Ge].
  - right. exact (load_unparsed _ _ _ _ (R _ NR) (torn_text Lt)).
  - rewrite firstn_all2 in * by exact Ge.
    destruct (within_digit_limit index) eqn:Lim.
    + left. pose proof (load_reads _ _ _ _ (R _ NR)) as O.
      rewrite (json_loads_dump _ Lim) in O. exact O.
    + right. apply (load_unparsed _ _ _ _ (R _ NR)).
      rewrite (json_dump_tracker_long _ Lim). apply (torn_head 18).
Qed.

End TrackerEdges.

(** ** The whole run *)

Arguments main_workflow : simpl never.
Arguments login : simpl never.
Arguments process_all : simpl never.
Arguments task_loop : simpl never.
Arguments load_job_tracker : simpl never.

Section Run.
Context {rt : Runtime}.

Lemma silent_quit_steps id : silent quit_of (task_steps id).
Proof. silent_go. Qed.

Lemma silent_quit_loop a b : silent quit_of (task_loop a b).
Proof.
  unfold task_loop. apply ae_for_each. intros id _. unfold process_task.
  apply ae_bind; [silent_go|]. intros _.
  apply ae_try_except; [apply silent_quit_steps|]. silent_go.
Qed.

Lemma silent_quit_all li : silent quit_of (process_all li).
Proof.
  unfold process_all. apply ae_bind; [silent_go|].
  intros [|cell cells]; [silent_go|].
  apply ae_bind; [silent_go|]. intros text.
  apply ae_bind; [destruct (py_int _); exact I|]. intros f.
  apply ae_bind; [silent_go|]. intros _. apply silent_quit_loop.
Qed.

Lemma silent_quit_body U P :
  silent quit_of
    (try_except
       (last_index <- load_job_tracker ;;
        login U P ;;
        process_all last_index ;;
        log INFO "All workflows completed!" [])
       (fun e =>
          log ERROR "Critical error in main workflow: {e}" [AExn e] ;;
          Raise e)).
Proof.
  apply ae_try_except; [|silent_go].
  apply ae_bind; [silent_go|]. intros li.
  apply ae_bind; [silent_go|]. intros _.
  apply ae_bind; [apply silent_quit_all|]. silent_go.
Qed.

(** X14.  Every run of the main workflow ends with [driver.quit()],
    called exactly once and followed only by the "Chrome WebDriver closed"
    line when it succeeds.  If the call raises, the run ends with that
    exception; otherwise the run ends normally after "All workflows
    completed!", or with an exception that was logged as a critical
    error. *)
Theorem main_workflow_teardown W (m : machine W) w d U P :
  let r := exec m (main_workflow U P) w d in
  exists body a,
    trace r =
      body ++ EvCall driver_quit a ::
      match a with
      | Ok _ => [EvOut (Log INFO "Chrome WebDriver closed" [])]
      | Err _ => []
      end /\
    quits body = [] /\
    match a with
    | Err e => outcome r = Err e
    | Ok _ =>
        match outcome r with
        | Ok _ => In (INFO, "All workflows completed!"%string, []) (logs body)
        | Err e =>
            In (ERROR, "Critical error in main workflow: {e}"%string,
                [AExn e]) (logs body)
        end
    end.
Proof.
  intros r. subst r. unfold main_workflow. rewrite exec_try_finally.
  match goal with
  | |- context [exec m (try_except ?b ?h) w d] =>
      set (r1 := exec m (try_except b h) w d);
      pose proof (silent_exec quit_of m _ (silent_quit_body U P) w d) as Q;
      assert (L : match outcome r1 with
                  | Ok _ =>
                      In (INFO, "All workflows completed!"%string, [])
                        (logs (trace r1))
                  | Err e =>
                      In (ERROR, "Critical error in main workflow: {e}"%string,
                          [AExn e]) (logs (trace r1))
                  end)
  end.
  { subst r1. rewrite exec_try_except.
    match goal with
    | |- context [exec m ?b w d] => set (r0 := exec m b w d)
    end.
    destruct (outcome r0) as [[]|e] eqn:E0.
    - rewrite E0. subst r0. revert E0.
      do 3 (rewrite exec_bind;
            match goal with
            | |- context [outcome (exec m ?p ?w1 ?d1)] =>
                destruct (outcome (exec m p w1 d1)) eqn:?
            end;
            cbn [seq_result failed outcome trace world disk];
            try discriminate).
      intros _. unfold logs. rewrite !flat_map_app.
      do 3 (apply in_or_app; right). cbn. left. reflexivity.
    - cbn. unfold logs. rewrite flat_map_app. apply in_or_app. right.
      left. reflexivity. }
  fold r1 in Q. clearbody r1. exists (trace r1).
  unfold finally_result. cbn.
  destruct (browser m _ (world r1)) as [[[]|e] w1]; cbn.
  - exists (Ok tt). split; [reflexivity|]. split; [exact Q|exact L].
  - exists (Err e). split; [reflexivity|]. split; [exact Q|reflexivity].
Qed.

Lemma process_all_views W (m : machine W) w d li :
  let r := exec m (process_all li) w d in
  (attempted (trace r) = [] /\ file_writes (trace r) = []) \/
  exists f w1 d1,
    attempted (trace r) = py_range li (f + 1) /\
    file_writes (trace r) = file_writes (trace (exec m (task_loop li f) w1 d1)).
Proof.
  unfold process_all. cbn.
  destruct (browser m _ w) as [[[|cell cells]|e] w1]; cbn; auto.
  destruct (browser m _ w1) as [[text|e] w2]; cbn; auto.
  destruct (int_conv (PStr (strip text))) as [z|]; cbn; auto.
  right. exists z, w2, d. split; [|reflexivity].
  unfold task_loop. apply attempted_for_each.
Qed.

Lemma silent_write_login U P : silent write_of (login U P).
Proof. unfold login. silent_go. Qed.

(** X15.  In a run of the main workflow that loaded the watermark [wm],
    the texts written to the tracker file are those of a strictly
    increasing sequence of job ids, each at least [wm] and each attempted
    in this run; when every write succeeds the file ends holding the last
    of them, and is as it was when there is none. *)
Theorem run_saves_attempted W (m : machine W) w d U P wm :
  let r := exec m (main_workflow U P) w d in
  outcome (exec m load_job_tracker w d) = Ok wm ->
  exists saved,
    map fst (file_writes (trace r)) = map json_dump_tracker saved /\
    StronglySorted Z.lt saved /\
    Forall (fun id => (wm <= id)%Z /\ In id (attempted (trace r))) saved /\
    (Forall (fun x => snd x = Ok tt) (file_writes (trace r)) ->
     disk r = match rev saved with
              | id :: _ => Some (json_dump_tracker id)
              | [] => d
              end).
Proof.
  intros r L.
  assert (V : (attempted (trace r) = [] /\ file_writes (trace r) = []) \/
              exists f w1 d1,
                attempted (trace r) = py_range wm (f + 1) /\
                file_writes (trace r)
                  = file_writes (trace (exec m (task_loop wm f) w1 d1))).
  { subst r. unfold main_workflow, attempted, file_writes.
    rewrite !view_try_finally_silent by silent_go.
    rewrite !view_try_except_silent by (intro; silent_go).
    rewrite (view_bind_silent_l attempted_of) by apply silent_attempted_load.
    rewrite (view_bind_silent_l write_of) by apply silent_write_load.
    rewrite L.
    rewrite (view_bind_silent_l attempted_of) by apply silent_attempted_login.
    rewrite (view_bind_silent_l write_of) by apply silent_write_login.
    match goal with |- context [outcome ?r] => destruct (outcome r) end;
      [|auto].
    rewrite !view_bind_silent_r by (intro; silent_go).
    apply process_all_views. }
  assert (D : Forall (fun x => snd x = Ok tt) (file_writes (trace r)) ->
              disk r = match rev (map fst (file_writes (trace r))) with
                       | t :: _ => Some t
                       | [] => d
                       end).
  { intros A. subst r. rewrite disk_after_writes by exact A.
    apply last_write_texts. }
  destruct V as [[A Wr]|(f & w1 & d1 & A & Wr)].
  - exists []. rewrite Wr in *. repeat split; try constructor. exact D.
  - destruct (loop_writes m w1 d1 (py_range_sorted wm (f + 1)))
      as (saved & Eq & Ss & I).
    fold (task_loop wm f) in Eq. rewrite <- Wr in Eq.
    exists saved. split; [exact Eq|]. split; [exact Ss|]. split.
    + apply Forall_forall. intros x Hx. apply I in Hx. split.
      * pose proof (py_range_bounds wm (f + 1)) as B.
        rewrite Forall_forall in B. specialize (B x Hx). lia.
      * rewrite A. exact Hx.
    + intros Ok. rewrite (D Ok), Eq, <- map_rev.
      destruct (rev saved); reflexivity.
Qed.

End Run.

(** ** The address the fill workflow settles on *)

Section Chosen.
Context {rt : Runtime}.

Lemma first_found_origin reads v :
  first_found reads = Some v ->
  exists page, In (Ok page) reads /\ first_aroflo_email page = Some v.
Proof.
  induction reads as [|[page|e] reads IH]; cbn [first_found]; intros H.
  - discriminate.
  - destruct (first_aroflo_email page) as [x|] eqn:E.
    + inversion H; subst. exists page. split; [left; reflexivity|exact E].
    + destruct (IH H) as (p & I & F). exists p. split; [right; exact I|exact F].
  - destruct (IH H) as (p & I & F). exists p. split; [right; exact I|exact F].
Qed.

Lemma first_aroflo_truthy page v :
  first_aroflo_email page = Some v -> truthy v = true.
Proof.
  intros E. pose proof (first_aroflo_email_spec page) as S. rewrite E in S.
  destruct S as (pre & post & (_ & (l & dm & -> & Nl & _) & _) & _).
  destruct l; [congruence|reflexivity].
Qed.

Lemma chosen_app t0 t :
  first_found (page_reads t0) = None ->
  chosen_email (t0 ++ t) = chosen_email t.
Proof.
  unfold chosen_email, page_reads. rewrite flat_map_app.
  generalize (flat_map page_of t0) as r0. intros r0.
  induction r0 as [|[page|e] r0 IH]; cbn [first_found app]; intros H.
  - reflexivity.
  - destruct (first_aroflo_email page); [discriminate|auto].
  - auto.
Qed.

Lemma chosen_silent t : page_reads t = [] -> chosen_email t = default_email.
Proof. unfold chosen_email. intros ->. reflexivity. Qed.

Section Filling.
Variables (W : Type) (m : machine W).

Lemma settled_cons ev t :
  keys_of ev = [] -> copy_of ev = [] -> page_of ev = [] ->
  fills_once m (chosen_email t) t ->
  fills_once m (chosen_email (ev :: t)) (ev :: t).
Proof.
  intros K C P H. change (ev :: t) with ([ev] ++ t).
  rewrite (@chosen_app [ev] t).
  - apply (@fills_once_app W m _ [ev]); [| |exact H].
    + unfold typed. cbn. rewrite K. reflexivity.
    + unfold copies. cbn. rewrite C. reflexivity.
  - unfold page_reads. cbn. rewrite P. reflexivity.
Qed.

Lemma settled_app t0 t :
  typed t0 = [] -> copies t0 = [] -> page_reads t0 = [] ->
  fills_once m (chosen_email t) t ->
  fills_once m (chosen_email (t0 ++ t)) (t0 ++ t).
Proof.
  intros K C P H. rewrite chosen_app by (rewrite P; reflexivity).
  apply fills_once_app; assumption.
Qed.

Lemma settled_default t :
  fills_once m default_email t -> page_reads t = [] ->
  fills_once m (chosen_email t) t.
Proof. intros H P. rewrite (chosen_silent _ P). exact H. Qed.

(** Whatever follows the call of the fill operation types nothing. *)
Lemma paste_step email (K : bool -> prog unit) (h : exn -> prog unit) w d :
  (forall b, silent keys_of (K b)) -> (forall b, silent copy_of (K b)) ->
  (forall b, total (K b)) ->
  fills_once m email
    (trace (exec m (try_except (bind (paste_email email) K) h) w d)).
Proof.
  intros SK SC TK. rewrite exec_try_except_bind.
  destruct (total_exec m _ (total_paste_email email) w d) as [b E].
  rewrite E. cbn [seq_result trace]. rewrite exec_try_total by apply TK.
  apply fills_once_here.
  - apply (silent_exec keys_of m _ (SK b)).
  - apply (silent_exec copy_of m _ (SC b)).
Qed.

Lemma search_settles (K : option str -> prog unit) (h : exn -> prog unit)
    w d :
  (forall w' d',
     let t := trace (exec m (try_except (K None) h) w' d') in
     fills_once m (chosen_email t) t) ->
  (forall v w' d', truthy v = true ->
     fills_once m v (trace (exec m (try_except (K (Some v)) h) w' d'))) ->
  let t := trace (exec m (try_except
                            (bind search_aroflo_email_in_page K) h) w d) in
  fills_once m (chosen_email t) t.
Proof.
  intros HN HF. cbv zeta. rewrite exec_try_except_bind.
  destruct (search_result m w d) as (a & P & O). cbv zeta in P, O.
  rewrite O. cbn [seq_result trace].
  pose proof (silent_exec keys_of m _ silent_keys_search w d) as K0.
  pose proof (silent_exec copy_of m _ silent_copy_search w d) as C0.
  destruct (match a with
            | Ok page => first_aroflo_email page
            | Err _ => None
            end) as [v|] eqn:E.
  - assert (Ch : forall t, chosen_email
                   (trace (exec m search_aroflo_email_in_page w d) ++ t) = v).
    { intros t. unfold chosen_email, page_reads in *.
      rewrite flat_map_app, P. destruct a as [page|x]; [|discriminate].
      cbn [app first_found]. rewrite E. reflexivity. }
    rewrite Ch. apply fills_once_app; [exact K0|exact C0|].
    apply HF. destruct a as [page|x]; [|discriminate].
    eapply first_aroflo_truthy. exact E.
  - rewrite chosen_app.
    + apply fills_once_app; [exact K0|exact C0|]. apply HN.
    + rewrite P. destruct a as [page|x]; cbn [first_found];
        [rewrite E|]; reflexivity.
Qed.

End Filling.

Ltac sc := apply settled_cons; [reflexivity|reflexivity|reflexivity|].

Ltac paste_any :=
  apply paste_step;
  [ intros [|]; silent_go | intros [|]; silent_go | intros [|]; exact I ].

Ltac paste_fallback :=
  apply settled_default;
  [ first [paste_any | rewrite <- exec_try_raise; paste_any]
  | unfold page_reads; apply silent_exec; silent_go ].

(** X18.  Every run of the fill workflow calls the fill operation
    exactly once, on the address the run settles on: the first generated
    address a page-wide search found, or "default@aroflo.com" when none
    was found.  Whatever is typed is that address or the paste chord, and
    whatever is copied is that address. *)
Theorem fill_workflow_settles W (m : machine W) w d id :
  let t := trace (exec m (fill_workflow id) w d) in
  fills_once m (chosen_email t) t /\
  Forall (fun k => snd (fst k) = [chosen_email t] \/
                   snd (fst k) = [Keys_CONTROL; u "v"]) (typed t) /\
  Forall (fun c => fst c = chosen_email t) (copies t) /\
  (chosen_email t = default_email \/
   exists page,
     In (Ok page) (page_reads t) /\
     first_aroflo_email page = Some (chosen_email t)).
Proof.
  intros t.
  assert (F : fills_once m (chosen_email t) t).
  2:{ split; [exact F|]. destruct (fills_once_writes F) as [K C].
      split; [exact K|]. split; [exact C|].
      unfold chosen_email.
      destruct (first_found (page_reads t)) as [v|] eqn:E; [|auto].
      right. apply first_found_origin. exact E. }
  subst t. rewrite <- exec_try_raise. unfold fill_workflow.
  cbn. sc.
  rewrite exec_try_except_bind.
  match goal with
  | |- context [outcome (exec m ?p w d)] =>
      assert (T: total p) by (apply total_try_except; intro; exact I);
      destruct (total_exec m p T w d) as [clicked E]; rewrite E;
      pose proof (silent_exec keys_of m p ltac:(silent_go) w d) as K0;
      pose proof (silent_exec copy_of m p ltac:(silent_go) w d) as C0;
      pose proof (silent_exec page_of m p ltac:(silent_go) w d) as P0
  end.
  cbn [seq_result trace]. apply settled_app; [exact K0|exact C0|exact P0|].
  apply search_settles.
  - intros w1 d1. cbn. destruct clicked.
    + rewrite exec_try_raise. cbn.
      destruct (browser m _ w1) as [[btn|x] w2]; cbn; sc.
      2:{ sc. paste_fallback. }
      destruct (browser m _ w2) as [[[]|x] w3]; cbn; sc.
      2:{ sc. paste_fallback. }
      destruct (browser m _ w3) as [[[]|x] w4]; cbn; sc.
      2:{ sc. paste_fallback. }
      do 2 sc. apply search_settles.
      * intros w5 d5. cbn. sc. paste_fallback.
      * intros v w5 d5 Tv. cbn. rewrite Tv. cbn.
        apply (@fills_once_app W m v [_]); [reflexivity|reflexivity|].
        paste_any.
    + rewrite exec_try_raise. cbn. sc. paste_fallback.
  - intros v w1 d1 Tv. cbn. rewrite Tv. cbn.
    apply (@fills_once_app W m v [_]); [reflexivity|reflexivity|].
    first [paste_any | rewrite <- exec_try_raise; paste_any].
Qed.

End Chosen.

(** ** From the fill workflow to the save *)

Lemma started_post_app id t0 t o :
  fill_starts t0 = [] -> file_writes t0 = [] -> halts t0 = [] ->
  started_post id t o -> started_post id (t0 ++ t) o.
Proof.
  unfold started_post, fill_starts, file_writes, halts. intros F0 W0 H0.
  rewrite !flat_map_app, F0, W0, H0. auto.
Qed.

Lemma started_post_cons id ev t o :
  fill_start_of ev = [] -> write_of ev = [] -> halt_of ev = [] ->
  started_post id t o -> started_post id (ev :: t) o.
Proof.
  intros F Wr Hl. apply (@started_post_app id [ev]).
  - unfold fill_starts. cbn. rewrite F. reflexivity.
  - unfold file_writes. cbn. rewrite Wr. reflexivity.
  - unfold halts. cbn. rewrite Hl. reflexivity.
Qed.

Section Started.
Context {rt : Runtime}.

Lemma silent_halt_save id : silent halt_of (save_job_tracker id).
Proof. unfold save_job_tracker. silent_go. Qed.

Lemma fill_path_post W (m : machine W) w d id :
  let r := exec m (fill_workflow id ;; save_task id ;;
                   save_job_tracker id ;; return_to_list id) w d in
  outcome r = Ok tt /\ halts (trace r) = [] /\
  exists a, file_writes (trace r) = [(json_dump_tracker id, a)].
Proof.
  intros r.
  assert (T : total (fill_workflow id ;; save_task id ;;
                     save_job_tracker id ;; return_to_list id)).
  { apply total_bind; [apply total_fill_workflow|]. intros _.
    apply total_bind; [apply total_save_task|]. intros _.
    apply total_bind; [apply total_save|]. intros _.
    apply total_return_to_list. }
  destruct (total_exec m _ T w d) as [[] O]. fold r in O.
  assert (H : halts (trace r) = []).
  { apply (silent_exec halt_of m).
    apply ae_bind; [apply silent_halt_fill|]. intros _.
    apply ae_bind; [apply silent_halt_save_task|]. intros _.
    apply ae_bind; [apply silent_halt_save|]. intros _.
    apply silent_halt_return. }
  split; [exact O|]. split; [exact H|].
  pose proof (fill_path_steps m w d id) as S. cbv zeta in S. fold r in S.
  rewrite O in S. cbn in S.
  destruct S as [[_ Hl]|(_ & a & S & _)]; [|exists a; exact S].
  rewrite H in Hl. discriminate.
Qed.

Lemma silent_start_installer : silent fill_start_of is_installer_checkin_task.
Proof. silent_go. Qed.

Lemma silent_start_check : silent fill_start_of check_email_field_content.
Proof. silent_go. Qed.

Lemma skip_tail_started W (m : machine W) w d id :
  let r := exec m (safe_div_click close_selector 10 ;;
                   save_job_tracker id) w d in
  fill_starts (trace r) = [].
Proof.
  apply (silent_exec fill_start_of m).
  apply ae_bind; [silent_go|]. intros _. unfold save_job_tracker. silent_go.
Qed.

Lemma started_step W (m : machine W) A (p : prog A) (K : A -> prog unit)
    w d id :
  total p -> silent fill_start_of p -> silent write_of p ->
  silent halt_of p ->
  (forall a w' d',
     let r := exec m (K a) w' d' in started_post id (trace r) (outcome r)) ->
  let r := exec m (bind p K) w d in started_post id (trace r) (outcome r).
Proof.
  intros T Sf Sw Sh HK. cbv zeta. rewrite exec_bind.
  destruct (total_exec m p T w d) as [a Ea]. rewrite Ea.
  cbn [seq_result trace outcome]. apply started_post_app.
  - apply (silent_exec fill_start_of m p Sf).
  - apply (silent_exec write_of m p Sw).
  - apply (silent_exec halt_of m p Sh).
  - apply HK.
Qed.

Lemma task_steps_started W (m : machine W) w d id :
  let r := exec m (task_steps id) w d in
  started_post id (trace r) (outcome r).
Proof.
  unfold task_steps. cbn.
  destruct (browser m _ w) as [[[|row rows]|x] w1]; cbn;
    try (left; reflexivity).
  destruct (browser m _ w1) as [[link|x] w2]; cbn; try (left; reflexivity).
  destruct (browser m _ w2) as [[[]|x] w3]; cbn; try (left; reflexivity).
  repeat (apply started_post_cons; [reflexivity|reflexivity|reflexivity|]).
  apply started_step;
    auto using total_is_installer, silent_write_installer,
      silent_halt_installer, silent_start_installer.
  intros [|] w4 d4.
  - left. cbn. apply skip_tail_started.
  - apply started_step;
      auto using total_check, silent_write_check, silent_halt_check,
        silent_start_check.
    intros existing w5 d5.
    destruct (if opt_truthy existing then existing else None) as [v|].
    + left. cbn. apply skip_tail_started.
    + right. apply fill_path_post.
Qed.

(** X20.  Once a task enters the fill workflow, nothing stops it: the
    iteration ends normally, logs neither "not found" nor "Unexpected
    error", and calls [save_job_tracker] exactly once with the task's id,
    so that the tracker file holds the text written for the id if the
    write succeeds. *)
Theorem fill_workflow_reaches_save W (m : machine W) w d id :
  let r := exec m (process_task id) w d in
  fill_starts (trace r) <> [] ->
  outcome r = Ok tt /\ halts (trace r) = [] /\
  exists a,
    file_writes (trace r) = [(json_dump_tracker id, a)] /\
    (a = Ok tt -> disk r = Some (json_dump_tracker id)).
Proof.
  intros r S.
  assert (P : outcome r = Ok tt /\ halts (trace r) = [] /\
              exists a, file_writes (trace r) = [(json_dump_tracker id, a)]).
  { subst r. revert S. unfold process_task. cbn. rewrite exec_try_except.
    pose proof (task_steps_started m w d id) as P. cbv zeta in P.
    destruct (outcome (exec m (task_steps id) w d)) as [[]|x] eqn:O.
    - rewrite O. intros S. destruct P as [F|P]; [contradiction|exact P].
    - intros S. exfalso. apply S. cbn [seq_result trace].
      destruct P as [F|(C & _)]; [|discriminate].
      unfold fill_starts in *. rewrite flat_map_app, F. reflexivity. }
  destruct P as (O & H & a & Wr). split; [exact O|]. split; [exact H|].
  exists a. split; [exact Wr|]. intros ->. subst r.
  rewrite disk_after_writes; rewrite Wr; [reflexivity|].
  constructor; [reflexivity|constructor].
Qed.

End Started.

(** ** The loop and the Create button *)

Lemma py_range_In a b x : In x (py_range a b) <-> (a <= x < b)%Z.
Proof.
  split.
  - intros I. pose proof (py_range_bounds a b) as B.
    rewrite Forall_forall in B. apply (B x I).
  - intros H. unfold py_range. apply in_map_iff.
    exists (Z.to_nat (x - a)). split; [lia|]. apply in_seq. lia.
Qed.

Section LoopEdges.
Context {rt : Runtime}.

(** X17.  The loop over [a..b] never raises, whatever fails inside a
    task, and attempts every job id from [a] to [b] exactly once, in
    ascending order. *)
Theorem loop_attempts_every_id W (m : machine W) w d a b :
  let r := exec m (task_loop a b) w d in
  outcome r = Ok tt /\
  attempted (trace r) = py_range a (b + 1) /\
  StronglySorted Z.lt (attempted (trace r)) /\
  (forall id, In id (attempted (trace r)) <-> (a <= id <= b)%Z).
Proof.
  intros r.
  assert (A : attempted (trace r) = py_range a (b + 1))
    by apply attempted_for_each.
  split; [|split; [exact A|split]].
  - destruct (total_exec m _ (total_task_loop a b) w d) as [[] E]. exact E.
  - rewrite A. apply py_range_sorted.
  - intros id. rewrite A, py_range_In. lia.
Qed.

Arguments creates : simpl never.
Arguments logs : simpl never.

Lemma creates_cons_silent ev t :
  create_of ev = [] -> creates (ev :: t) = creates t.
Proof. intros H. unfold creates. cbn. rewrite H. reflexivity. Qed.

Lemma creates_cons_wait a t :
  creates (EvCall (wait_clickable XPATH create_xpath 5) a :: t)
  = a :: creates t.
Proof.
  unfold creates. cbn [flat_map create_of]. rewrite str_eqb_refl. reflexivity.
Qed.

(** X19.  The fill workflow waits for the Create button at most once,
    and only after the workflow button was clicked successfully. *)
Theorem create_needs_workflow W (m : machine W) w d id :
  let t := trace (exec m (fill_workflow id) w d) in
  creates t <> [] ->
  In (INFO, "Workflow button clicked successfully"%string, []) (logs t) /\
  exists a, creates t = [a].
Proof.
  intros t. subst t. rewrite <- exec_try_raise. unfold fill_workflow.
  cbn. rewrite creates_cons_silent by reflexivity.
  rewrite exec_try_except_bind.
  match goal with
  | |- context [outcome (exec m ?p w d)] =>
      assert (T: total p) by (apply total_try_except; intro; exact I);
      destruct (total_exec m p T w d) as [clicked E]; rewrite E;
      pose proof (silent_exec create_of m p ltac:(silent_go) w d) as S0;
      assert (L : clicked = true ->
                  In (INFO, "Workflow button clicked successfully"%string, [])
                    (logs (trace (exec m p w d))))
  end.
  { revert E. unfold safe_div_click. cbn.
    destruct (browser m _ w) as [[e|x] w1]; cbn;
      [|intros E Ck; rewrite Ck in E; discriminate E].
    destruct (browser m _ w1) as [[[]|x] w2]; cbn;
      [|intros E Ck; rewrite Ck in E; discriminate E].
    destruct (browser m _ w2) as [[[]|x] w3]; cbn;
      [|intros E Ck; rewrite Ck in E; discriminate E].
    intros _ _. unfold logs. cbn. left. reflexivity. }
  cbn [seq_result trace].
  match goal with
  | |- creates (?t0 ++ ?t1) <> [] -> _ =>
      assert (C : creates t1 = [] \/ (clicked = true /\ exists a, creates t1 = [a]));
      [| assert (Eq : creates (t0 ++ t1) = creates t1)
           by (unfold creates in *; rewrite flat_map_app, S0; reflexivity);
         rewrite Eq; intros N; destruct C as [C|[Ck C]]; [contradiction|];
         split; [|exact C];
         unfold logs; cbn [flat_map log_of app]; right;
         rewrite flat_map_app; apply in_or_app; left;
         apply L; exact Ck ]
  end.
  rewrite exec_try_raise.
  unfold creates. rewrite view_bind_silent_l by silent_go.
  match goal with
  | |- context [outcome (exec m search_aroflo_email_in_page ?w1 ?d1)] =>
      destruct (search_result m w1 d1) as (a & _ & O)
  end.
  cbv zeta in O. rewrite O. clear O.
  destruct (match a with
            | Ok page => first_aroflo_email page
            | Err _ => None
            end) as [v|] eqn:Ev.
  - left. assert (Tv : truthy v = true).
    { destruct a as [page|x]; [|discriminate].
      eapply first_aroflo_truthy. exact Ev. }
    cbn. rewrite Tv. apply silent_exec. silent_go.
  - destruct clicked.
    + right. split; [reflexivity|].
      cbn beta iota delta [opt_truthy].
      rewrite exec_try_except_bind. cbn [call exec].
      match goal with
      | |- context [browser m ?o ?w1] =>
          destruct (browser m o w1) as [[btn|x] w2]
      end; cbn [after outcome trace world disk seq_result of_answer exec].
      * change (flat_map create_of) with creates.
        rewrite creates_cons_wait. eexists. f_equal.
        unfold creates. apply silent_exec. silent_go;
          match goal with
          | |- all_events _ (of_answer ?a) => destruct a; exact I
          end.
      * change (flat_map create_of) with creates.
        rewrite creates_cons_wait. eexists. f_equal.
        unfold creates. apply silent_exec. silent_go;
          match goal with
          | |- all_events _ (of_answer ?a) => destruct a; exact I
          end.
    + left. cbn beta iota delta [opt_truthy]. apply silent_exec. silent_go.
Qed.

End LoopEdges.

(** ** Further sample runs *)

(** X2, sample: an address between blanks. *)
Lemma valid_email_shape_sample :
  let text := u "  bob@client.com " in
  is_valid_email text = true /\
  count_occ N.eq_dec (strip text) 64%N = 1 /\
  Forall (fun c => is_space c = false /\ (33 <= c < 127)%N) (strip text) /\
  6 <= List.length (strip text).
Proof.
  assert (H : is_valid_email (u "  bob@client.com ") = true) by run.
  split; [exact H|]. exact (valid_email_shape _ H).
Defined.

(** X7, sample: a field that shows the address typed into it. *)
Lemma paste_email_direct_sample :
  let email := u "a@b.co" in
  let r := exec echo_field (paste_email email) tt None in
  let r0 := exec echo_field get_email_field tt None in
  let r1 := exec echo_field (direct_input 3 email) (world r0) (disk r0) in
  outcome r0 = Ok (Some 3) /\ outcome r1 = Ok email /\ strip email = email /\
  outcome r = Ok true /\
  trace r =
    trace r0 ++ trace r1 ++
    [EvOut (Log INFO "Email pasted successfully: {email}" [AStr email])] /\
  typed (trace r) = [(3, [email], Ok tt)] /\
  copies (trace r) = [].
Proof.
  assert (H0 : outcome (exec echo_field get_email_field tt None)
               = Ok (Some 3)) by run.
  assert (H1 : outcome (exec echo_field (direct_input 3 (u "a@b.co")) tt None)
               = Ok (u "a@b.co")) by run.
  assert (H2 : strip (u "a@b.co") = u "a@b.co") by run.
  split; [exact H0|]. split; [exact H1|]. split; [exact H2|].
  exact (@paste_email_direct unit echo_field tt None (u "a@b.co") 3
           (u "a@b.co") H0 H1 H2).
Defined.

(** X8, sample: no element ever becomes clickable. *)
Lemma paste_email_no_field_sample :
  let email := u "a@b.co" in
  let r := exec no_buttons (paste_email email) tt None in
  let r0 := exec no_buttons get_email_field tt None in
  outcome r0 = Ok None /\
  outcome r = Ok false /\
  trace r =
    trace r0 ++
    [EvOut (Log ERROR "Could not find email field to paste into" [])] /\
  typed (trace r) = [] /\ copies (trace r) = [] /\ clicks (trace r) = [].
Proof.
  assert (H0 : outcome (exec no_buttons get_email_field tt None) = Ok None)
    by run.
  split; [exact H0|].
  exact (@paste_email_no_field unit no_buttons tt None (u "a@b.co") H0).
Defined.

(** X9, sample: the page shows one generated address. *)
Lemma page_search_complete_sample :
  let page := u "<td>Reply to job3422@x.aroflo.com, thanks</td>" in
  let pre := u "<td>Reply to " in
  let v := u "job3422@x.aroflo.com" in
  let post := u ", thanks</td>" in
  let r :=
    exec shows_address (search_aroflo_email_in_page (rt := sample_runtime))
      tt None in
  page_reads (trace r) = [Ok page] /\
  aroflo_occurrence (rt := sample_runtime) page pre v post /\
  exists found pre' post',
    outcome r = Ok (Some found) /\
    aroflo_occurrence (rt := sample_runtime) page pre' found post' /\
    List.length pre' <= List.length pre.
Proof.
  assert (P : page_reads
                (trace
                   (exec shows_address
                      (search_aroflo_email_in_page (rt := sample_runtime))
                      tt None))
              = [Ok (u "<td>Reply to job3422@x.aroflo.com, thanks</td>")])
    by run.
  assert (O : aroflo_occurrence (rt := sample_runtime)
                (u "<td>Reply to job3422@x.aroflo.com, thanks</td>")
                (u "<td>Reply to ") (u "job3422@x.aroflo.com")
                (u ", thanks</td>")).
  { split; [run|]. split; [|split; run].
    exists (u "job3422"), (u "x"). repeat split; try run.
    vm_compute. discriminate. }
  split; [exact P|]. split; [exact O|].
  exact (@page_search_complete sample_runtime unit shows_address tt None
           _ _ _ _ P O).
Defined.

(** X10, sample: a compact file with another key. *)
Lemma load_stored_integer_sample :
  let text :=
    u "{" ++ dq ++ u "run" ++ dq ++ u ":[1,2]," ++ dq ++ u "last_index" ++ dq
    ++ u ":3500}" in
  let items := [(u "run", PList [PInt 1; PInt 2]); (u "last_index", PInt 3500)]
  in
  let r :=
    exec offline (load_job_tracker (rt := sample_runtime)) tt (Some text) in
  In (Ok text) (file_reads (trace r)) /\
  json_loads (rt := sample_runtime) text = Ok (PDict items) /\
  dict_get items (u "last_index") = PInt 3500 /\
  outcome r = Ok 3500%Z /\
  In (INFO, "Loaded last processed job index: {last_index}"%string,
      [AObj (PInt 3500)]) (logs (trace r)) /\
  disk r = Some text.
Proof.
  set (text :=
    u "{" ++ dq ++ u "run" ++ dq ++ u ":[1,2]," ++ dq ++ u "last_index" ++ dq
    ++ u ":3500}").
  set (items :=
    [(u "run", PList [PInt 1; PInt 2]); (u "last_index", PInt 3500)]).
  assert (H1 : In (Ok text)
                 (file_reads
                    (trace (exec offline
                              (load_job_tracker (rt := sample_runtime)) tt
                              (Some text))))) by (left; run).
  assert (H2 : json_loads (rt := sample_runtime) text = Ok (PDict items))
    by run.
  assert (H3 : dict_get items (u "last_index") = PInt 3500) by run.
  split; [exact H1|]. split; [exact H2|]. split; [exact H3|].
  exact (@load_stored_integer sample_runtime unit offline tt (Some text) text
           items 3500%Z H1 H2 H3).
Defined.

(** X11, sample: a file that holds a JSON array. *)
Lemma load_null_or_not_object_sample :
  let text := u "[3500]" in
  let r :=
    exec offline (load_job_tracker (rt := sample_runtime)) tt (Some text) in
  In (Ok text) (file_reads (trace r)) /\
  json_loads (rt := sample_runtime) text = Ok (PList [PInt 3500]) /\
  outcome r = Ok 3411%Z /\
  In (ERROR, "Error loading job tracker: {e}"%string,
      [AExn "AttributeError"%string]) (logs (trace r)).
Proof.
  assert (H1 : In (Ok (u "[3500]"))
                 (file_reads
                    (trace (exec offline
                              (load_job_tracker (rt := sample_runtime)) tt
                              (Some (u "[3500]")))))) by (left; run).
  assert (H2 : json_loads (rt := sample_runtime) (u "[3500]")
               = Ok (PList [PInt 3500])) by run.
  split; [exact H1|]. split; [exact H2|].
  pose proof (@load_null_or_not_object sample_runtime unit offline tt
                (Some (u "[3500]")) (u "[3500]") H1) as T.
  cbv zeta in T. rewrite H2 in T. exact T.
Defined.

(** At the limits of the decoder: a file whose "last_index" has 4301
    digits, and a file of arrays nested one deeper than the interpreter
    allows.  [json.load] raises [ValueError] on the first and
    [RecursionError] on the second, [load_job_tracker] logs it and
    returns 3411. *)
Lemma load_past_decoder_limits :
  let long :=
    u "{" ++ dq ++ u "last_index" ++ dq ++ u ": " ++ repr_int (10 ^ 4300)
    ++ u "}" in
  let deep := repeat 91%N 991 ++ repeat 93%N 991 in
  let r :=
    exec offline (load_job_tracker (rt := sample_runtime)) tt (Some long) in
  let s :=
    exec offline (load_job_tracker (rt := sample_runtime)) tt (Some deep) in
  json_loads (rt := sample_runtime) long = Err "ValueError"%string /\
  (outcome r, logs (trace r))
  = (Ok 3411%Z,
     [(ERROR, "Error loading job tracker: {e}"%string,
       [AExn "ValueError"%string])]) /\
  json_loads (rt := sample_runtime) deep = Err "RecursionError"%string /\
  (outcome s, logs (trace s))
  = (Ok 3411%Z,
     [(ERROR, "Error loading job tracker: {e}"%string,
       [AExn "RecursionError"%string])]) /\
  exists v,
    json_loads (rt := sample_runtime) (repeat 91%N 990 ++ repeat 93%N 990)
    = Ok v.
Proof.
  split; [run|]. split; [run|]. split; [run|]. split; [run|].
  destruct (json_loads (rt := sample_runtime)
              (repeat 91%N 990 ++ repeat 93%N 990)) as [v|e] eqn:E.
  - exists v. reflexivity.
  - exfalso. vm_compute in E. discriminate E.
Qed.

(** X12, sample: the write stops after twenty characters. *)
Lemma torn_write_recovery_sample :
  let s := exec torn_once (save_job_tracker 3420) 0 None in
  let r :=
    exec torn_once (load_job_tracker (rt := sample_runtime)) 1 (disk s) in
  disk s = Some (firstn 20 (json_dump_tracker 3420)) /\
  (forall e, ~ In (Err e) (file_reads (trace r))) /\
  (disk s = None \/
   outcome r = Ok 3420%Z \/
   (outcome r = Ok 3411%Z /\
    In (ERROR, "Error loading job tracker: {e}"%string,
        [AExn "JSONDecodeError"%string]) (logs (trace r)))).
Proof.
  assert (H : forall e,
            ~ In (Err e)
                (file_reads
                   (trace
                      (exec torn_once
                         (load_job_tracker (rt := sample_runtime)) 1
                         (disk (exec torn_once (save_job_tracker 3420) 0
                                  None))))))
    by absent.
  split; [run|]. split; [exact H|].
  exact (@torn_write_recovery sample_runtime nat torn_once 0 None 3420%Z 1 H).
Defined.

(** X15, sample: two "Installer Checkin" tasks from the watermark 3411. *)
Lemma run_saves_attempted_sample :
  let d := Some (json_dump_tracker 3411) in
  let r :=
    exec installer_list
      (main_workflow (rt := sample_runtime) (u "me") (u "pw")) tt d in
  outcome (exec installer_list (load_job_tracker (rt := sample_runtime)) tt d)
    = Ok 3411%Z /\
  map fst (file_writes (trace r))
    = map json_dump_tracker [3411; 3412]%Z /\
  exists saved,
    map fst (file_writes (trace r)) = map json_dump_tracker saved /\
    StronglySorted Z.lt saved /\
    Forall (fun id => (3411 <= id)%Z /\ In id (attempted (trace r))) saved /\
    (Forall (fun x => snd x = Ok tt) (file_writes (trace r)) ->
     disk r = match rev saved with
              | id :: _ => Some (json_dump_tracker id)
              | [] => d
              end).
Proof.
  assert (L : outcome
                (exec installer_list
                   (load_job_tracker (rt := sample_runtime)) tt
                   (Some (json_dump_tracker 3411))) = Ok 3411%Z) by run.
  split; [exact L|]. split; [run|].
  exact (@run_saves_attempted sample_runtime unit installer_list tt
           (Some (json_dump_tracker 3411)) (u "me") (u "pw") 3411%Z L).
Defined.

(** X20, sample: a task whose field keeps nothing. *)
Lemma fill_workflow_reaches_save_sample :
  let r :=
    exec deaf_field (process_task (rt := sample_runtime) 3423) tt None in
  fill_starts (trace r) <> [] /\
  outcome r = Ok tt /\ halts (trace r) = [] /\
  exists a,
    file_writes (trace r) = [(json_dump_tracker 3423, a)] /\
    (a = Ok tt -> disk r = Some (json_dump_tracker 3423)).
Proof.
  assert (H : fill_starts
                (trace (exec deaf_field
                          (process_task (rt := sample_runtime) 3423) tt None))
              <> []) by (vm_compute; discriminate).
  split; [exact H|].
  exact (@fill_workflow_reaches_save sample_runtime unit deaf_field tt None
           3423%Z H).
Defined.

(** X19, sample: the workflow button is clicked and no address shows. *)
Lemma create_needs_workflow_sample :
  let t :=
    trace (exec deaf_field (fill_workflow (rt := sample_runtime) 3423) tt None)
  in
  creates t <> [] /\
  In (INFO, "Workflow button clicked successfully"%string, []) (logs t) /\
  exists a, creates t = [a].
Proof.
  assert (H : creates
                (trace (exec deaf_field
                          (fill_workflow (rt := sample_runtime) 3423) tt None))
              <> []) by (vm_compute; discriminate).
  split; [exact H|].
  exact (@create_needs_workflow sample_runtime unit deaf_field tt None
           3423%Z H).
Defined.

(** ** Pace of a run *)

Ltac bounded_go :=
  walk ltac:(cbv beta; cbn [bounded_wait short_pause];
             first [exact I | lia | split; first [exact I | lia]]).

Section Bounds.
Context {rt : Runtime}.

Lemma paced_steps id : all_events paced (task_steps id).
Proof. unfold paced. bounded_go. Qed.

Lemma paced_loop a b : all_events paced (task_loop a b).
Proof.
  unfold task_loop. apply ae_for_each. intros id _. unfold process_task.
  apply ae_bind; [unfold paced; bounded_go|]. intros _.
  apply ae_try_except; [apply paced_steps|]. unfold paced. bounded_go.
Qed.

Lemma paced_all li : all_events paced (process_all li).
Proof.
  unfold process_all. apply ae_bind; [unfold paced; bounded_go|].
  intros [|cell cells]; [unfold paced; bounded_go|].
  apply ae_bind; [unfold paced; bounded_go|]. intros text.
  apply ae_bind; [destruct (py_int _); exact I|]. intros f.
  apply ae_bind; [unfold paced; bounded_go|]. intros _. apply paced_loop.
Qed.

(** X21.  In every run of the main workflow each wait for an element
    has a timeout between 3 and 30 seconds and each pause lasts at most 3
    seconds. *)
Theorem run_is_paced W (m : machine W) w d U P :
  let t := trace (exec m (main_workflow U P) w d) in
  Forall bounded_wait t /\ Forall short_pause t.
Proof.
  intros t.
  assert (A : all_events paced (main_workflow U P)).
  { unfold main_workflow. apply ae_try_finally; [|unfold paced; bounded_go].
    apply ae_try_except; [|unfold paced; bounded_go].
    apply ae_bind; [unfold paced; bounded_go|]. intros li.
    apply ae_bind; [unfold login, paced; bounded_go|]. intros _.
    apply ae_bind; [apply paced_all|]. unfold paced. bounded_go. }
  pose proof (all_events_exec m _ _ A w d) as F. fold t in F.
  split; eapply Forall_impl; try exact F; intros ev [B S]; assumption.
Qed.

Lemma silent_read_steps id : silent read_of (task_steps id).
Proof. silent_go. Qed.

Lemma silent_read_loop a b : silent read_of (task_loop a b).
Proof.
  unfold task_loop. apply ae_for_each. intros id _. unfold process_task.
  apply ae_bind; [silent_go|]. intros _.
  apply ae_try_except; [apply silent_read_steps|]. silent_go.
Qed.

Lemma silent_read_all li : silent read_of (process_all li).
Proof.
  unfold process_all. apply ae_bind; [silent_go|].
  intros [|cell cells]; [silent_go|].
  apply ae_bind; [silent_go|]. intros text.
  apply ae_bind; [destruct (py_int _); exact I|]. intros f.
  apply ae_bind; [silent_go|]. intros _. apply silent_read_loop.
Qed.

(** X16.  A run of the main workflow reads the tracker file only in
    [load_job_tracker] at its start: at most once, and not at all when
    the file does not exist. *)
Theorem tracker_read_once W (m : machine W) w d U P :
  let r := exec m (main_workflow U P) w d in
  file_reads (trace r) = file_reads (trace (exec m load_job_tracker w d)) /\
  List.length (file_reads (trace r)) <= 1 /\
  (d = None -> file_reads (trace r) = []).
Proof.
  intros r.
  assert (E : file_reads (trace r)
              = file_reads (trace (exec m load_job_tracker w d))).
  { subst r. unfold main_workflow, file_reads.
    rewrite view_try_finally_silent by silent_go.
    rewrite view_try_except_silent by (intro; silent_go).
    apply view_bind_silent_r. intros li.
    apply ae_bind; [unfold login; silent_go|]. intros _.
    apply ae_bind; [apply silent_read_all|]. silent_go. }
  rewrite E. split; [reflexivity|].
  unfold load_job_tracker. cbn.
  destruct (io_fault m w) as [f0 w1]. destruct d as [text|]; cbn.
  - destruct (io_fault m w1) as [[[e0|e0 n]|] w2]; cbn;
      try (split; [lia|discriminate]).
    destruct (json_loads text) as [v|]; cbn; [|split; [lia|discriminate]].
    destruct v; cbn; try (split; [lia|discriminate]).
    destruct (dict_get items (u "last_index")); cbn;
      try (split; [lia|discriminate]);
      match goal with
      | |- context [int_conv ?x] => destruct (int_conv x)
      end; cbn; split; try lia; discriminate.
  - split; [lia|reflexivity].
Qed.

End Bounds.
